(** * pyo control layer: a shallow embedding of [pyolib/_core.py]

    The Python layer of pyo builds bundles ([PyoObject]) of engine streams,
    combines them with broadcasting arithmetic, and schedules parameter
    ramps ([VarPort]).  Python objects live in a store indexed by handles;
    every method is a function in a state-and-exception monad over that
    store.  The audio engine itself (the [*_base] classes and the sample
    loop) is an external collaborator: its objects are opaque records that
    remember how they were built and which scalar setters were applied. *)

From Stdlib Require Import ZArith QArith Ascii String List Bool Lia.
From stdpp Require Import base option list gmap strings.

Local Open Scope string_scope.
Local Open Scope nat_scope.
Local Open Scope list_scope.

(** ** Python values *)

(** Classes of Python-level pyo objects.  [CGeneric] stands for any audio
    class defined outside [_core.py] (oscillators, filters, ...). *)
Inductive pyclass :=
| CGeneric | CDummy | CSig | CVarPort | CMix | CCompare | CInputFader
| CTable | CMatrix | CPV.

#[warnings="-register-all"]
Inductive pyval :=
| PNone
| PBool (b : bool)
| PInt (z : Z)
| PFloat (q : Q)
| PStr (s : string)
| PList (l : list pyval)
| PTuple (l : list pyval)
| PObj (c : pyclass) (o : nat)      (* instance of a PyoObjectBase subclass *)
| PStream (s : nat)                 (* engine audio object, has [.stream] *)
| PTableStream (s : nat)            (* engine object with [.tablestream] *)
| PMatrixStream (s : nat)           (* engine object with [.matrixstream] *)
| PPVStream (s : nat)               (* engine object with [.pv_stream] *)
| PFun (f : nat)                    (* a plain callable *)
| PResetMethod (o : nat)            (* bound method [o._reset_from_set] *)
| POther.                           (* anything else (dict, set, ...) *)

Inductive pytype :=
| TNoneType | TBool | TInt | TFloat | TStr | TList | TTuple
| TInstance (c : pyclass) | TStream | TTableStream | TMatrixStream
| TPVStream | TFunction | TMethod | TObject.

Definition type (v : pyval) : pytype :=
  match v with
  | PNone => TNoneType
  | PBool _ => TBool
  | PInt _ => TInt
  | PFloat _ => TFloat
  | PStr _ => TStr
  | PList _ => TList
  | PTuple _ => TTuple
  | PObj c _ => TInstance c
  | PStream _ => TStream
  | PTableStream _ => TTableStream
  | PMatrixStream _ => TMatrixStream
  | PPVStream _ => TPVStream
  | PFun _ => TFunction
  | PResetMethod _ => TMethod
  | POther => TObject
  end.

Definition pytype_eqb (a b : pytype) : bool :=
  match a, b with
  | TNoneType, TNoneType | TBool, TBool | TInt, TInt | TFloat, TFloat
  | TStr, TStr | TList, TList | TTuple, TTuple => true
  | _, _ => false
  end.

(** [argtype in [t1, ..., tn]] for the builtin types the validator lists. *)
Definition type_in (t : pytype) (ts : list pytype) : bool :=
  existsb (pytype_eqb t) ts.

Definition callable (v : pyval) : bool :=
  match v with PFun _ | PResetMethod _ => true | _ => false end.

(** [isinstance(x, PyoObjectBase)] and [isinstance(x, PyoObject)]. *)
Definition isPyoObjectBase (v : pyval) : bool :=
  match v with PObj _ _ => true | _ => false end.

Definition audio_class (c : pyclass) : bool :=
  match c with CTable | CMatrix | CPV => false | _ => true end.

Definition isPyoObject (v : pyval) : bool :=
  match v with PObj c _ => audio_class c | _ => false end.

Definition isDummy (v : pyval) : bool :=
  match v with PObj CDummy _ => true | _ => false end.

Definition isVarPort (v : pyval) : bool :=
  match v with PObj CVarPort _ => true | _ => false end.

Definition isAudioObject (obj : pyval) : bool :=
  isPyoObject obj || match obj with PStream _ => true | _ => false end.

Definition isTableObject (obj : pyval) : bool :=
  match obj with PObj CTable _ | PTableStream _ => true | _ => false end.

Definition isMatrixObject (obj : pyval) : bool :=
  match obj with PObj CMatrix _ | PMatrixStream _ => true | _ => false end.

Definition isPVObject (obj : pyval) : bool :=
  match obj with PObj CPV _ | PPVStream _ => true | _ => false end.

(** ** Exceptions *)

Inductive exn :=
| PyoServerStateException (msg : string)
| PyoArgumentTypeError (pos : nat) (name : pyclass) (expected : string)
                       (got : pytype)
| ZeroDivisionError
| IndexError
| KeyError (k : string)
| AttributeError (k : string)
| TypeError
| ValueError
| Unresolved (k : string) (* an attribute name outside the model *)
| OutOfFuel               (* recursion bound of the model reached *)
| DanglingHandle          (* a handle that is not in the store *)
| NotAStream.             (* a base object that is not an engine stream *)

(** ** The argument validator *)

(** One branch of the [if f == ...] chain of [pyoArgsAssert]: the text put
    in [expected] for format code [f] and argument [arg]; the empty string
    when the argument is accepted.  [longType] is [int] (Python 2) or [None]
    (Python 3, matching no type): either way it adds nothing to the lists. *)
Definition expected_for (f : ascii) (arg : pyval) : string :=
  let argtype := type arg in
  match f with
  | "O"%char =>
      if negb (isAudioObject arg) && negb (type_in argtype [TList; TInt; TFloat])
      then "float or PyoObject" else ""
  | "o"%char =>
      if negb (isAudioObject arg) && negb (type_in argtype [TList])
      then "PyoObject" else ""
  | "T"%char =>
      if negb (isTableObject arg) && negb (type_in argtype [TFloat; TList])
      then "float or PyoTableObject" else ""
  | "t"%char =>
      if negb (isTableObject arg) && negb (type_in argtype [TList])
      then "PyoTableObject" else ""
  | "m"%char =>
      if negb (isMatrixObject arg) && negb (type_in argtype [TList])
      then "PyoMatrixObject" else ""
  | "p"%char =>
      if negb (isPVObject arg) && negb (type_in argtype [TList])
      then "PyoPVObject" else ""
  | "n"%char =>
      if negb (type_in argtype [TList; TInt; TFloat])
      then "any number" else ""
  | "N"%char =>
      if negb (type_in argtype [TInt; TFloat])
      then "any number - list not allowed" else ""
  | "f"%char =>
      if negb (type_in argtype [TList; TFloat]) then "float" else ""
  | "F"%char =>
      if negb (type_in argtype [TFloat])
      then "float - list not allowed" else ""
  | "i"%char =>
      if negb (type_in argtype [TList; TInt]) then "integer" else ""
  | "I"%char =>
      if negb (type_in argtype [TInt])
      then "integer - list not allowed" else ""
  | "s"%char =>
      if negb (type_in argtype [TList; TStr]) then "string" else ""
  | "S"%char =>
      if negb (type_in argtype [TStr])
      then "string - list not allowed" else ""
  | "b"%char =>
      if negb (type_in argtype [TBool; TList; TInt]) then "boolean" else ""
  | "B"%char =>
      if negb (type_in argtype [TBool; TInt])
      then "boolean - list not allowed" else ""
  | "l"%char =>
      if negb (type_in argtype [TList]) then "list" else ""
  | "L"%char =>
      if negb (type_in argtype [TList; TNoneType])
      then "list or None" else ""
  | "u"%char =>
      if negb (type_in argtype [TTuple]) then "tuple" else ""
  | "x"%char =>
      if negb (type_in argtype [TList; TTuple]) then "list or tuple" else ""
  | "c"%char =>
      if negb (callable arg)
         && negb (type_in argtype [TList; TTuple; TNoneType])
      then "callable" else ""
  | "C"%char =>
      if negb (callable arg) && negb (type_in argtype [TNoneType])
      then "callable - list not allowed" else ""
  | _ => ""
  end.

(** The [for i, arg in enumerate(args)] loop, stopped by [break] at the
    first argument for which [expected] is set.  [format[i]] raises
    [IndexError] when the format is shorter than the argument list. *)
Fixpoint scan_args (name : pyclass) (format : string) (i : nat)
         (args : list pyval) : option exn :=
  match args with
  | [] => None
  | arg :: rest =>
      match String.get i format with
      | None => Some IndexError
      | Some f =>
          let expected := expected_for f arg in
          if String.eqb expected ""
          then scan_args name format (S i) rest
          else Some (PyoArgumentTypeError i name expected (type arg))
      end
  end.

(** [pyoArgsAssert(obj, format, *args)]: [None] when the call returns,
    [Some e] when it raises [e]; [name] is [obj.__class__]. *)
Definition pyoArgsAssert (name : pyclass) (format : string)
           (args : list pyval) : option exn :=
  scan_args name format 0 args.

(** Format codes whose membership list contains [list]. *)
Definition list_expandable (f : ascii) : bool :=
  existsb (Ascii.eqb f)
    ["O"; "o"; "T"; "t"; "m"; "p"; "n"; "f"; "i"; "s"; "b"; "l"; "L"; "x";
     "c"]%char.

(** ** The store *)

Inductive arith := Add | Sub | Mul | Div.

(** How an engine stream was built.  The engine classes are not part of
    the Python layer; a stream only records its constructor arguments. *)
Inductive skind :=
| KUnit                                         (* engine-supplied unit *)
| KArith (op : arith) (input : nat) (x : pyval) (* [input op x], engine Dummy *)
| KSig (value : pyval)                          (* [Sig_base] *)
| KVarPort (value time init function arg : pyval) (* [VarPort_base] *)
| KMix (inputs : list pyval)                    (* [Mix_base] *)
| KInputFader (input : pyval)                   (* [InputFader_base] *)
| KCompare (input comp : pyval) (mode : nat).   (* [Compare_base] *)

(** Engine stream: its construction, the post-processing pair, and the
    two things the Python layer can query ([isPlaying], [getValue]).
    [s_mul_inv] is set by [setDiv] and [s_add_inv] by [setSub]: the factor
    is then applied inverted. *)
Record stream := mkStream {
  s_kind : skind;
  s_mul : pyval;
  s_mul_inv : bool;
  s_add : pyval;
  s_add_inv : bool;
  s_playing : bool;
  s_value : Q
}.

(** Python-level object: the instance attributes [_core.py] reads or
    writes.  [attrs] holds the attributes behind the subclass properties
    that [getattr]/[setattr] reach by name. *)
Record pyobj := mkObj {
  _base_objs : list pyval;
  _op_duplicate : nat;
  _keep_trace : list pyval;
  _zeros : pyval;
  _mul : pyval;
  _add : pyval;
  _target_dict : gmap string pyval;
  _signal_dict : gmap string pyval;
  _callback_dict : gmap string pyval;
  attrs : gmap string pyval
}.

Inductive event :=
| Called (f : nat)              (* a user callback was invoked *)
| Printed (format stream_type : string) (name : pyclass).
                                (* [print(format % (stream_type, name))],
                                   [name] standing for the class name *)

Record state := mkState {
  objs : list pyobj;
  streams : list stream;
  log : list event;
  server_created : bool;
  server_booted : bool
}.

Definition with_objs (f : list pyobj → list pyobj) (st : state) : state :=
  mkState (f (objs st)) (streams st) (log st)
          (server_created st) (server_booted st).

Definition with_streams (f : list stream → list stream) (st : state)
  : state :=
  mkState (objs st) (f (streams st)) (log st)
          (server_created st) (server_booted st).

Definition with_log (f : list event → list event) (st : state) : state :=
  mkState (objs st) (streams st) (f (log st))
          (server_created st) (server_booted st).

(** ** State and exception monad *)

Inductive outcome (A : Type) :=
| Ok (a : A) (st : state)
| Raise (e : exn) (st : state).
Arguments Ok {A} a st.
Arguments Raise {A} e st.

Definition M (A : Type) : Type := state → outcome A.

#[global] Instance M_ret : MRet M := λ A a st, Ok a st.
#[global] Instance M_bind : MBind M := λ A B f m st,
  match m st with
  | Ok a st' => f a st'
  | Raise e st' => Raise e st'
  end.

Definition raise {A} (e : exn) : M A := λ st, Raise e st.
Definition gets {A} (f : state → A) : M A := λ st, Ok (f st) st.
Definition modify (f : state → state) : M unit := λ st, Ok tt (f st).

Definition final {A} (r : outcome A) : state :=
  match r with Ok _ st | Raise _ st => st end.

(** A loop that threads an accumulator. *)
Fixpoint foldM {A B} (f : B → A → M B) (b : B) (l : list A) : M B :=
  match l with
  | [] => mret b
  | x :: l => b' ← f b x; foldM f b' l
  end.

(** [for i, x in enumerate(l)] *)
Definition enumerate {A} (l : list A) : list (nat * A) :=
  imap (λ i x, (i, x)) l.

Definition print (format stream_type : string) (name : pyclass) : M unit :=
  modify (with_log (λ l, l ++ [Printed format stream_type name])).

Definition get_obj (o : nat) : M pyobj := λ st,
  match objs st !! o with
  | Some r => Ok r st
  | None => Raise DanglingHandle st
  end.

Definition get_stream (s : nat) : M stream := λ st,
  match streams st !! s with
  | Some r => Ok r st
  | None => Raise DanglingHandle st
  end.

Definition update_obj (o : nat) (f : pyobj → pyobj) : M unit :=
  r ← get_obj o; modify (with_objs (<[o := f r]>)).

Definition update_stream (s : nat) (f : stream → stream) : M unit :=
  r ← get_stream s; modify (with_streams (<[s := f r]>)).

(** Field updates of [pyobj]. *)
Definition set_base_objs (l : list pyval) (r : pyobj) : pyobj :=
  mkObj l (_op_duplicate r) (_keep_trace r) (_zeros r) (_mul r) (_add r)
        (_target_dict r) (_signal_dict r) (_callback_dict r) (attrs r).
Definition set_keep_trace (l : list pyval) (r : pyobj) : pyobj :=
  mkObj (_base_objs r) (_op_duplicate r) l (_zeros r) (_mul r) (_add r)
        (_target_dict r) (_signal_dict r) (_callback_dict r) (attrs r).
Definition set_zeros (z : pyval) (r : pyobj) : pyobj :=
  mkObj (_base_objs r) (_op_duplicate r) (_keep_trace r) z (_mul r) (_add r)
        (_target_dict r) (_signal_dict r) (_callback_dict r) (attrs r).
Definition set_mul (x : pyval) (r : pyobj) : pyobj :=
  mkObj (_base_objs r) (_op_duplicate r) (_keep_trace r) (_zeros r) x (_add r)
        (_target_dict r) (_signal_dict r) (_callback_dict r) (attrs r).
Definition set_add (x : pyval) (r : pyobj) : pyobj :=
  mkObj (_base_objs r) (_op_duplicate r) (_keep_trace r) (_zeros r) (_mul r) x
        (_target_dict r) (_signal_dict r) (_callback_dict r) (attrs r).
Definition set_target_dict (d : gmap string pyval) (r : pyobj) : pyobj :=
  mkObj (_base_objs r) (_op_duplicate r) (_keep_trace r) (_zeros r) (_mul r)
        (_add r) d (_signal_dict r) (_callback_dict r) (attrs r).
Definition set_signal_dict (d : gmap string pyval) (r : pyobj) : pyobj :=
  mkObj (_base_objs r) (_op_duplicate r) (_keep_trace r) (_zeros r) (_mul r)
        (_add r) (_target_dict r) d (_callback_dict r) (attrs r).
Definition set_callback_dict (d : gmap string pyval) (r : pyobj) : pyobj :=
  mkObj (_base_objs r) (_op_duplicate r) (_keep_trace r) (_zeros r) (_mul r)
        (_add r) (_target_dict r) (_signal_dict r) d (attrs r).
Definition set_attrs (d : gmap string pyval) (r : pyobj) : pyobj :=
  mkObj (_base_objs r) (_op_duplicate r) (_keep_trace r) (_zeros r) (_mul r)
        (_add r) (_target_dict r) (_signal_dict r) (_callback_dict r) d.

(** Field updates of [stream]. *)
Definition s_set_mul (x : pyval) (inv : bool) (r : stream) : stream :=
  mkStream (s_kind r) x inv (s_add r) (s_add_inv r) (s_playing r) (s_value r).
Definition s_set_add (x : pyval) (inv : bool) (r : stream) : stream :=
  mkStream (s_kind r) (s_mul r) (s_mul_inv r) x inv (s_playing r) (s_value r).
Definition s_set_playing (b : bool) (r : stream) : stream :=
  mkStream (s_kind r) (s_mul r) (s_mul_inv r) (s_add r) (s_add_inv r) b
           (s_value r).

(** ** Utilities of [_core.py] *)

#[global] Instance pyval_inhabited : Inhabited pyval := populate PNone.

(** [len(x)] *)
Definition len (x : pyval) : M nat :=
  match x with
  | PList l | PTuple l => mret (length l)
  | PStr s => mret (String.length s)
  | PObj _ o => r ← get_obj o; mret (length (_base_objs r))
  | _ => raise TypeError
  end.

(** The class attribute [_STREAM_TYPE]. *)
Definition STREAM_TYPE (c : pyclass) : string :=
  match c with
  | CTable => "table"
  | CMatrix => "matrix"
  | CPV => "pvoc"
  | _ => "audio"
  end.

(** The diagnostic of [__getitem__] for an integer index:
    [print("'i' too large in slicing %s object %s!" % args)] with
    [args = (self._STREAM_TYPE, self.__class__.__name__)]. *)
Definition print_too_large (c : pyclass) : M unit :=
  print "'i' too large in slicing %s object %s!" (STREAM_TYPE c) c.

(** [PyoObjectBase.__getitem__] for an integer index [i >= 0] on an
    instance of class [c]; the ['trig'] key and slices are not modelled.
    Out of range, the method prints a diagnostic and returns [None]. *)
Definition PyoObjectBase__getitem__ (c : pyclass) (o : nat) (i : nat)
  : M pyval :=
  r ← get_obj o;
  match _base_objs r !! i with
  | Some x => mret x
  | None => print_too_large c;; mret PNone
  end.

(** [arg[k]] *)
Definition getitem (arg : pyval) (k : nat) : M pyval :=
  match arg with
  | PList l | PTuple l =>
      match l !! k with Some x => mret x | None => raise IndexError end
  | PObj c o => PyoObjectBase__getitem__ c o k
  | _ => raise TypeError
  end.

(** One argument of [convertArgsToLists]. *)
Definition to_list_form (i : pyval) : pyval :=
  match i with
  | PObj _ _ | PList _ => i
  | _ => PList [i]
  end.

(** [convertArgsToLists] on its argument list: the converted arguments and the
    maximum length.  [max] of an empty sequence raises [ValueError]. *)
Definition convertArgsToLists (args : list pyval) : M (list pyval * nat) :=
  let converted := to_list_form <$> args in
  lens ← mapM len converted;
  match lens with
  | [] => raise ValueError
  | _ => mret (converted, max_list lens)
  end.

(** [wrap(arg, i)] *)
Definition wrap (arg : pyval) (i : nat) : M pyval :=
  n ← len arg;
  match n with
  | 0 => raise ZeroDivisionError
  | _ =>
      x ← getitem arg (i mod n);
      if isPyoObjectBase x then getitem x 0 else mret x
  end.

(** [i // d] *)
Definition floordiv (i d : nat) : M nat :=
  match d with
  | 0 => raise ZeroDivisionError
  | _ => mret (i / d)
  end.

Definition assert_args (name : pyclass) (format : string)
           (args : list pyval) : M unit :=
  match pyoArgsAssert name format args with
  | Some e => raise e
  | None => mret tt
  end.

(** [WeakMethod(callobj)]: [__new__] returns [None] for a non-callable.
    Object lifetimes are not modelled, so a weak reference to a callable
    is the callable. *)
Definition WeakMethod (callobj : pyval) : pyval :=
  if callable callobj then callobj else PNone.

Definition getWeakMethodRef (x : pyval) : pyval :=
  match x with
  | PList l | PTuple l => PList l
  | _ => x
  end.

(** ** The engine boundary *)

(** Modelled from the spec: the StreamUnit operations the Python layer
    calls ([play], [stop], [isPlaying], [getValue], the scalar setters and
    the arithmetic operators of the engine classes) live in the engine,
    outside [_core.py].  A new stream has produced no buffer yet: it is
    silent ([s_value] is 0) with the post-processing pair it was given. *)
Definition fresh_stream (k : skind) (mul add : pyval) (playing : bool)
  : stream :=
  mkStream k mul false add false playing 0.

Definition new_stream (r : stream) : M pyval := λ st,
  Ok (PStream (length (streams st))) (with_streams (λ l, l ++ [r]) st).

(** A number: an [int] or a [float]. *)
Definition is_number (x : pyval) : bool :=
  match x with PInt _ | PFloat _ => true | _ => false end.

(** What an engine stream takes as the other operand of an operator: a
    number or another engine stream. *)
Definition engine_operand (x : pyval) : bool :=
  is_number x || match x with PStream _ => true | _ => false end.

(** Modelled from the spec: [obj OP x] on an engine stream builds a new
    engine stream that keeps both operands; it is running at once.  An
    operand that is neither a number nor a stream fails with an
    argument-type error that names the expected and the received type
    (4.1); the composite under construction is the receiving class. *)
Definition base_arith (op : arith) (obj x : pyval) : M pyval :=
  match obj with
  | PStream s =>
      if engine_operand x
      then new_stream (fresh_stream (KArith op s x) (PFloat 1) (PFloat 0)
                                    true)
      else raise (PyoArgumentTypeError 0 CDummy "float or PyoObject"
                                       (type x))
  | _ => raise NotAStream
  end.

Definition on_stream {A} (obj : pyval) (f : nat → M A) : M A :=
  match obj with
  | PStream s => f s
  | _ => raise NotAStream
  end.

(** Modelled from the spec: [play(dur, delay)] on an engine stream takes
    two numbers.  [delay] is the time before the activation: with a delay
    of zero the stream is running when the call returns, with any other
    delay it is not, its activation being left to the clock of the
    engine.  [dur], the duration of the activation, has no effect at the
    time of the call. *)
Definition starts_now (delay : pyval) : bool :=
  match delay with
  | PInt z => (z =? 0)%Z
  | PFloat q => Qeq_bool q 0
  | _ => false
  end.

Definition base_play (obj dur delay : pyval) : M unit :=
  on_stream obj (λ s,
    if is_number dur && is_number delay
    then update_stream s (s_set_playing (starts_now delay))
    else raise TypeError).
Definition base_stop (obj : pyval) : M unit :=
  on_stream obj (λ s, update_stream s (s_set_playing false)).
Definition base_isPlaying (obj : pyval) : M bool :=
  on_stream obj (λ s, r ← get_stream s; mret (s_playing r)).
Definition base_getValue (obj : pyval) : M pyval :=
  on_stream obj (λ s, r ← get_stream s; mret (PFloat (s_value r))).
Definition base_setMul (obj x : pyval) : M unit :=
  on_stream obj (λ s, update_stream s (s_set_mul x false)).
Definition base_setDiv (obj x : pyval) : M unit :=
  on_stream obj (λ s, update_stream s (s_set_mul x true)).
Definition base_setAdd (obj x : pyval) : M unit :=
  on_stream obj (λ s, update_stream s (s_set_add x false)).
Definition base_setSub (obj x : pyval) : M unit :=
  on_stream obj (λ s, update_stream s (s_set_add x true)).

(** ** [PyoObjectBase] and [PyoObject] *)

Definition blank_obj : pyobj :=
  mkObj [] 1 [] PNone (PFloat 1) (PFloat 0) ∅ ∅ ∅ ∅.

Definition alloc_obj (r : pyobj) : M nat := λ st,
  Ok (length (objs st)) (with_objs (λ l, l ++ [r]) st).

(** [PyoObjectBase.__init__]: the instance gets its empty stream list,
    then the processing host is checked. *)
Definition PyoObjectBase__init__ : M nat :=
  o ← alloc_obj blank_obj;
  created ← gets server_created;
  if negb created
  then raise (PyoServerStateException
                "You must create and boot a Server before creating any audio object.")
  else
    booted ← gets server_booted;
    if negb booted
    then raise (PyoServerStateException
                  "The Server must be booted before creating any audio object.")
    else mret o.

(** [PyoObject.__init__(self, mul, add)] *)
Definition PyoObject__init__ (mul add : pyval) : M nat :=
  o ← PyoObjectBase__init__;
  update_obj o (λ r, mkObj (_base_objs r) 1 [] PNone mul add ∅ ∅ ∅ (attrs r));;
  mret o.

(** [self.attr = v] for a plain instance attribute. *)
Definition store_attr (o : nat) (k : string) (v : pyval) : M unit :=
  update_obj o (λ r, set_attrs (<[k := v]> (attrs r)) r).

Definition getBaseObjects (x : pyval) : M (list pyval) :=
  match x with
  | PObj _ o => r ← get_obj o; mret (_base_objs r)
  | _ => raise (AttributeError "getBaseObjects")
  end.

(** The loop of [Dummy.__init__] that fills [tmp_list]. *)
Fixpoint Dummy_fill (objs_list tmp_list : list pyval) : M (list pyval) :=
  match objs_list with
  | [] => mret tmp_list
  | x :: rest =>
      if isDummy x
      then b ← getBaseObjects x; Dummy_fill rest (tmp_list ++ b)
      else Dummy_fill rest (tmp_list ++ [x])
  end.

(** [Dummy(objs_list)] *)
Definition Dummy__init__ (objs_list : list pyval) : M pyval :=
  o ← PyoObject__init__ (PFloat 1) (PFloat 0);
  store_attr o "_objs_list" (PList objs_list);;
  tmp_list ← Dummy_fill objs_list [];
  update_obj o (set_base_objs tmp_list);;
  mret (PObj CDummy o).

(** [PyoObject.play(dur, delay)].  [_trig_objs] and [_base_players] stay
    [None] for every class of [_core.py] modelled here, so only the base
    objects are started. *)
Definition PyoObject_play (c : pyclass) (o : nat) (dur delay : pyval)
  : M pyval :=
  assert_args c "nn" [dur; delay];;
  '(conv, lmax) ← convertArgsToLists [dur; delay];
  let dur := conv !!! 0 in
  let delay := conv !!! 1 in
  r ← get_obj o;
  mapM (λ '(i, obj),
         d ← wrap dur i;
         w ← wrap delay i;
         base_play obj d w)
       (enumerate (_base_objs r));;
  mret (PObj c o).

(** [PyoObject.stop()] *)
Definition PyoObject_stop (c : pyclass) (o : nat) : M pyval :=
  r ← get_obj o;
  mapM base_stop (_base_objs r);;
  mret (PObj c o).

(** [PyoObject.isPlaying(all=False)] *)
Definition PyoObject_isPlaying (c : pyclass) (o : nat) : M bool :=
  assert_args c "B" [PBool false];;
  r ← get_obj o;
  match _base_objs r !! 0 with
  | Some obj => base_isPlaying obj
  | None => raise IndexError
  end.

(** [PyoObject.get(all=True)] *)
Definition PyoObject_get_all (c : pyclass) (o : nat) : M pyval :=
  assert_args c "B" [PBool true];;
  r ← get_obj o;
  l ← mapM base_getValue (_base_objs r);
  mret (PList l).

(** *** Broadcasting arithmetic *)

(** [+] and [*] hand a longer bundle operand over to [x OP self]. *)
Definition commutes (op : arith) : bool :=
  match op with Add | Mul => true | Sub | Div => false end.

(** [__add__], [__sub__], [__mul__] and [__div__] share one body; [op]
    selects the operator and, in the branch for a longer bundle operand,
    between delegation ([+], [*]) and wrapping both sides ([-], [/]).
    The delegated call is one level deep: [fuel] bounds it. *)
Fixpoint PyoObject_arith (fuel : nat) (op : arith) (c : pyclass) (o : nat)
         (x : pyval) : M pyval :=
  match fuel with
  | 0 => raise OutOfFuel
  | S fuel =>
      '(conv, lmax) ← convertArgsToLists [x];
      let x := conv !!! 0 in
      r ← get_obj o;
      dummy ←
        (if lmax <=? length (_base_objs r) then
           l ← mapM (λ '(i, obj),
                      k ← floordiv i (_op_duplicate r);
                      w ← wrap x k;
                      base_arith op obj w)
                    (enumerate (_base_objs r));
           Dummy__init__ l
         else if isPyoObject x then
           if commutes op then
             match x with
             | PObj cx ox => PyoObject_arith fuel op cx ox (PObj c o)
             | _ => raise TypeError
             end
           else
             l ← mapM (λ i,
                        a ← wrap (PList (_base_objs r)) i;
                        b ← wrap x i;
                        base_arith op a b)
                      (seq 0 lmax);
             Dummy__init__ l
         else
           items ← match x with
                   | PList l => mret l
                   | _ => getBaseObjects x
                   end;
           l ← mapM (λ '(i, obj),
                      a ← wrap (PList (_base_objs r)) i;
                      base_arith op a obj)
                    (enumerate items);
           Dummy__init__ l);
      update_obj o (λ r, set_keep_trace (_keep_trace r ++ [dummy]) r);;
      mret dummy
  end.

Definition PyoObject__add__ := PyoObject_arith 2 Add.
Definition PyoObject__sub__ := PyoObject_arith 2 Sub.
Definition PyoObject__mul__ := PyoObject_arith 2 Mul.
Definition PyoObject__div__ := PyoObject_arith 2 Div.

(** *** [setMul], [setAdd], [setSub], [setDiv] and the in-place operators *)

(** The four setters differ in the attribute they replace ([store]) and in
    the engine setter they forward to ([base_set]). *)
Definition set_factor (store : pyval → pyobj → pyobj)
           (base_set : pyval → pyval → M unit)
           (c : pyclass) (o : nat) (x : pyval) : M unit :=
  assert_args c "O" [x];;
  update_obj o (store x);;
  '(conv, _) ← convertArgsToLists [x];
  let x := conv !!! 0 in
  r ← get_obj o;
  mapM (λ '(i, obj),
         k ← floordiv i (_op_duplicate r);
         w ← wrap x k;
         base_set obj w)
       (enumerate (_base_objs r));;
  mret tt.

Definition PyoObject_setMul := set_factor set_mul base_setMul.
Definition PyoObject_setAdd := set_factor set_add base_setAdd.
Definition PyoObject_setSub := set_factor set_add base_setSub.
Definition PyoObject_setDiv := set_factor set_mul base_setDiv.

Definition PyoObject__iadd__ (c : pyclass) (o : nat) (x : pyval) : M pyval :=
  PyoObject_setAdd c o x;; mret (PObj c o).
Definition PyoObject__isub__ (c : pyclass) (o : nat) (x : pyval) : M pyval :=
  PyoObject_setSub c o x;; mret (PObj c o).
Definition PyoObject__imul__ (c : pyclass) (o : nat) (x : pyval) : M pyval :=
  PyoObject_setMul c o x;; mret (PObj c o).
Definition PyoObject__idiv__ (c : pyclass) (o : nat) (x : pyval) : M pyval :=
  PyoObject_setDiv c o x;; mret (PObj c o).

(** ** [Sig] *)

(** [Sig(value, mul, add)] *)
Definition Sig__init__ (value mul add : pyval) : M pyval :=
  assert_args CSig "OOO" [value; mul; add];;
  o ← PyoObject__init__ mul add;
  store_attr o "value" value;;
  '(conv, lmax) ← convertArgsToLists [value; mul; add];
  let value := conv !!! 0 in
  let mul := conv !!! 1 in
  let add := conv !!! 2 in
  l ← mapM (λ i,
             v ← wrap value i;
             m ← wrap mul i;
             a ← wrap add i;
             new_stream (fresh_stream (KSig v) m a false))
           (seq 0 lmax);
  update_obj o (set_base_objs l);;
  PyoObject_play CSig o (PInt 0) (PInt 0);;
  mret (PObj CSig o).

(** [PyoObject.__neg__] *)
Definition PyoObject__neg__ (c : pyclass) (o : nat) : M pyval :=
  r ← get_obj o;
  match _zeros r with
  | PNone => z ← Sig__init__ (PInt 0) (PInt 1) (PInt 0);
             update_obj o (set_zeros z)
  | _ => mret tt
  end;;
  r ← get_obj o;
  match _zeros r with
  | PObj cz oz => PyoObject__sub__ cz oz (PObj c o)
  | _ => raise TypeError
  end.

(** *** Reflected operators *)

(** [__radd__] and [__rmul__]: the body of [__add__] and [__mul__]
    without the branch for a longer bundle operand. *)
Definition PyoObject_rarith (op : arith) (c : pyclass) (o : nat)
           (x : pyval) : M pyval :=
  '(conv, lmax) ← convertArgsToLists [x];
  let x := conv !!! 0 in
  r ← get_obj o;
  dummy ←
    (if lmax <=? length (_base_objs r) then
       l ← mapM (λ '(i, obj),
                  k ← floordiv i (_op_duplicate r);
                  w ← wrap x k;
                  base_arith op obj w)
                (enumerate (_base_objs r));
       Dummy__init__ l
     else
       items ← match x with
               | PList l => mret l
               | _ => getBaseObjects x
               end;
       l ← mapM (λ '(i, obj),
                  a ← wrap (PList (_base_objs r)) i;
                  base_arith op a obj)
                (enumerate items);
       Dummy__init__ l);
  update_obj o (λ r, set_keep_trace (_keep_trace r ++ [dummy]) r);;
  mret dummy.

Definition PyoObject__radd__ := PyoObject_rarith Add.
Definition PyoObject__rmul__ := PyoObject_rarith Mul.

(** [upsamp OP y] for the [Sig] a reflected [-] or [/] has just built. *)
Definition upsamp_arith (op : arith) (upsamp y : pyval) : M pyval :=
  match upsamp with
  | PObj cz oz => PyoObject_arith 2 op cz oz y
  | _ => raise TypeError
  end.

(** [__rsub__] and [__rdiv__]: every element of the left operand is
    promoted to a [Sig], which [self] keeps in its trace, and the [Sig]
    is combined with the matching stream of [self]. *)
Definition PyoObject_rarith_upsamp (op : arith) (c : pyclass) (o : nat)
           (x : pyval) : M pyval :=
  '(conv, lmax) ← convertArgsToLists [x];
  let x := conv !!! 0 in
  r ← get_obj o;
  tmp ←
    (if lmax <=? length (_base_objs r) then
       mapM (λ '(i, obj),
              r ← get_obj o;
              k ← floordiv i (_op_duplicate r);
              w ← wrap x k;
              upsamp ← Sig__init__ w (PInt 1) (PInt 0);
              update_obj o (λ r,
                set_keep_trace (_keep_trace r ++ [upsamp]) r);;
              upsamp_arith op upsamp obj)
            (enumerate (_base_objs r))
     else
       items ← match x with
               | PList l => mret l
               | _ => getBaseObjects x
               end;
       mapM (λ '(i, obj),
              upsamp ← Sig__init__ obj (PInt 1) (PInt 0);
              update_obj o (λ r,
                set_keep_trace (_keep_trace r ++ [upsamp]) r);;
              r ← get_obj o;
              w ← wrap (PList (_base_objs r)) i;
              upsamp_arith op upsamp w)
            (enumerate items));
  dummy ← Dummy__init__ tmp;
  update_obj o (λ r, set_keep_trace (_keep_trace r ++ [dummy]) r);;
  mret dummy.

Definition PyoObject__rsub__ := PyoObject_rarith_upsamp Sub.
Definition PyoObject__rdiv__ := PyoObject_rarith_upsamp Div.

(** ** [VarPort] and the ramp scheduler *)

(** [VarPort(value, time, init, function, arg, mul, add)] *)
Definition VarPort__init__ (value time init function arg mul add : pyval)
  : M pyval :=
  assert_args CVarPort "nnnczOO" [value; time; init; function; arg; mul; add];;
  o ← PyoObject__init__ mul add;
  store_attr o "value" value;;
  store_attr o "time" time;;
  store_attr o "function" (getWeakMethodRef function);;
  '(conv, lmax) ← convertArgsToLists
                    [value; time; init; function; arg; mul; add];
  let value := conv !!! 0 in
  let time := conv !!! 1 in
  let init := conv !!! 2 in
  let function := conv !!! 3 in
  let arg := conv !!! 4 in
  let mul := conv !!! 5 in
  let add := conv !!! 6 in
  l ← mapM (λ i,
             v ← wrap value i;
             t ← wrap time i;
             n ← wrap init i;
             f ← wrap function i;
             a ← wrap arg i;
             m ← wrap mul i;
             d ← wrap add i;
             new_stream (fresh_stream (KVarPort v t n (WeakMethod f) a) m d
                                      false))
           (seq 0 lmax);
  update_obj o (set_base_objs l);;
  PyoObject_play CVarPort o (PInt 0) (PInt 0);;
  mret (PObj CVarPort o).

(** ** [Mix] *)

(** [i % n] *)
Definition pymod (i n : nat) : M nat :=
  match n with
  | 0 => raise ZeroDivisionError
  | _ => mret (i mod n)
  end.

(** The two appending loops of [Mix.__init__]: [voices] empty sub-lists,
    then [num] inputs dealt round-robin. *)
Definition Mix_sub_lists (input_objs : list pyval) (voices num : nat)
  : M (list (list pyval)) :=
  foldM (λ sub_lists i,
           k ← pymod i (length input_objs);
           match input_objs !! k with
           | None => raise IndexError
           | Some obj =>
               v ← pymod i voices;
               match sub_lists !! v with
               | None => raise IndexError
               | Some l => mret (<[v := l ++ [obj]]> sub_lists)
               end
           end)
        (replicate voices []) (seq 0 num).

(** The [if]/[elif] chain of [Mix.__init__] that fixes [voices] and
    [num]. *)
Definition Mix_counts (voices : Z) (input_len lmax : nat) : nat * nat :=
  if (voices <? 1)%Z then (1, 1)
  else if (voices >? Z.of_nat input_len)%Z && (voices >? Z.of_nat lmax)%Z
       then (Z.to_nat voices, Z.to_nat voices)
  else if input_len <? lmax then (Z.to_nat voices, lmax)
  else (Z.to_nat voices, input_len).

(** [Mix(input, voices, mul, add)] *)
Definition Mix__init__ (input : pyval) (voices : Z) (mul add : pyval)
  : M pyval :=
  assert_args CMix "oIOO" [input; PInt voices; mul; add];;
  o ← PyoObject__init__ mul add;
  store_attr o "_input" input;;
  '(conv, lmax) ← convertArgsToLists [mul; add];
  let mul := conv !!! 0 in
  let add := conv !!! 1 in
  input_objs ← match input with
                | PList l => ll ← mapM getBaseObjects l; mret (concat ll)
                | _ => getBaseObjects input
                end;
  let input_len := length input_objs in
  let '(voices, num) := Mix_counts voices input_len lmax in
  sub_lists ← Mix_sub_lists input_objs voices num;
  l ← mapM (λ '(i, l),
             m ← wrap mul i;
             a ← wrap add i;
             new_stream (fresh_stream (KMix l) m a false))
           (enumerate sub_lists);
  update_obj o (set_base_objs l);;
  PyoObject_play CMix o (PInt 0) (PInt 0);;
  mret (PObj CMix o).

(** [PyoObject.mix(voices)] *)
Definition PyoObject_mix (c : pyclass) (o : nat) (voices : Z) : M pyval :=
  Mix__init__ (PObj c o) voices (PInt 1) (PInt 0).

(** ** [InputFader] and [Compare] *)

(** [InputFader(input)] *)
Definition InputFader__init__ (input : pyval) : M pyval :=
  assert_args CInputFader "o" [input];;
  o ← PyoObject__init__ (PFloat 1) (PFloat 0);
  store_attr o "input" input;;
  '(conv, lmax) ← convertArgsToLists [input];
  let input := conv !!! 0 in
  l ← mapM (λ i,
             x ← wrap input i;
             new_stream (fresh_stream (KInputFader x) (PFloat 1) (PFloat 0)
                                      false))
           (seq 0 lmax);
  update_obj o (set_base_objs l);;
  PyoObject_play CInputFader o (PInt 0) (PInt 0);;
  mret (PObj CInputFader o).

(** [comp_dict[k]] *)
Definition comp_dict (k : pyval) : M nat :=
  match k with
  | PStr "<" => mret 0
  | PStr "<=" => mret 1
  | PStr ">" => mret 2
  | PStr ">=" => mret 3
  | PStr "==" => mret 4
  | PStr "!=" => mret 5
  | PStr s => raise (KeyError s)
  | PList _ => raise TypeError
  | _ => raise (KeyError "")
  end.

(** [Compare(input, comp, mode, mul, add)] *)
Definition Compare__init__ (input comp mode mul add : pyval) : M pyval :=
  assert_args CCompare "oOsOO" [input; comp; mode; mul; add];;
  o ← PyoObject__init__ mul add;
  store_attr o "input" input;;
  store_attr o "comp" comp;;
  store_attr o "mode" mode;;
  in_fader ← InputFader__init__ input;
  store_attr o "_in_fader" in_fader;;
  '(conv, lmax) ← convertArgsToLists [in_fader; comp; mode; mul; add];
  let in_fader := conv !!! 0 in
  let comp := conv !!! 1 in
  let mode := conv !!! 2 in
  let mul := conv !!! 3 in
  let add := conv !!! 4 in
  l ← mapM (λ i,
             f ← wrap in_fader i;
             x ← wrap comp i;
             k ← wrap mode i;
             code ← comp_dict k;
             m ← wrap mul i;
             a ← wrap add i;
             new_stream (fresh_stream (KCompare f x code) m a false))
           (seq 0 lmax);
  update_obj o (set_base_objs l);;
  PyoObject_play CCompare o (PInt 0) (PInt 0);;
  mret (PObj CCompare o).

(** *** Comparison operators *)

(** [PyoObject.__do_comp__(comp, mode, default)] *)
Definition PyoObject__do_comp__ (c : pyclass) (o : nat) (comp : pyval)
           (mode : string) (default : bool) : M pyval :=
  match comp with
  | PNone => mret (PBool default)
  | _ => Compare__init__ (PObj c o) comp (PStr mode) (PInt 1) (PInt 0)
  end.

Definition PyoObject__lt__ c o x := PyoObject__do_comp__ c o x "<" false.
Definition PyoObject__le__ c o x := PyoObject__do_comp__ c o x "<=" false.
Definition PyoObject__eq__ c o x := PyoObject__do_comp__ c o x "==" false.
Definition PyoObject__ne__ c o x := PyoObject__do_comp__ c o x "!=" true.
Definition PyoObject__gt__ c o x := PyoObject__do_comp__ c o x ">" false.
Definition PyoObject__ge__ c o x := PyoObject__do_comp__ c o x ">=" false.

(** ** Further methods of [_core.py] *)

(** *** Indexing and iterating a pyo object *)

(** [l[i]] on a Python list, for an integer [i] of either sign. *)
Definition list_getitem (l : list pyval) (i : Z) : M pyval :=
  let n := Z.of_nat (length l) in
  let j := if (i <? 0)%Z then (i + n)%Z else i in
  if (0 <=? j)%Z && (j <? n)%Z
  then match l !! Z.to_nat j with
       | Some x => mret x
       | None => raise IndexError
       end
  else raise IndexError.

(** [PyoObjectBase.__getitem__] for an integer index of either sign: the
    test [i < len(self._base_objs)] lets every negative index through to
    the list. *)
Definition PyoObjectBase__getitem__int (c : pyclass) (o : nat) (i : Z)
  : M pyval :=
  r ← get_obj o;
  if (i <? Z.of_nat (length (_base_objs r)))%Z
  then list_getitem (_base_objs r) i
  else print_too_large c;; mret PNone.

(** The private attribute [self.__index], under its mangled name.
    [__init__] writes 0 there; a record that iteration has not written
    yet has no entry, which reads as that 0. *)
Definition index_attr : string := "_PyoObjectBase__index".

Definition read_index (r : pyobj) : M Z :=
  match attrs r !! index_attr with
  | Some (PInt z) => mret z
  | None => mret 0%Z
  | Some _ => raise TypeError
  end.

(** [PyoObjectBase.__iter__]: the object is its own iterator. *)
Definition PyoObjectBase__iter__ (c : pyclass) (o : nat) : M pyval :=
  store_attr o index_attr (PInt 0);;
  mret (PObj c o).

(** [PyoObjectBase.__next__]; [None] stands for [raise StopIteration]. *)
Definition PyoObjectBase__next__ (c : pyclass) (o : nat)
  : M (option pyval) :=
  r ← get_obj o;
  idx ← read_index r;
  if (Z.of_nat (length (_base_objs r)) <=? idx)%Z then mret None
  else
    x ← PyoObjectBase__getitem__int c o idx;
    store_attr o index_attr (PInt (idx + 1));;
    mret (Some x).

(** [for x in obj: acc = body(x, acc)]: [iter(obj)] once, then [next]
    until [StopIteration].  [fuel] bounds the number of rounds. *)
Fixpoint for_next {B} (fuel : nat) (c : pyclass) (o : nat)
         (body : pyval → B → M B) (acc : B) : M B :=
  match fuel with
  | 0 => raise OutOfFuel
  | S fuel =>
      x ← PyoObjectBase__next__ c o;
      match x with
      | None => mret acc
      | Some v => acc ← body v acc; for_next fuel c o body acc
      end
  end.

Definition for_in {B} (fuel : nat) (c : pyclass) (o : nat)
           (body : pyval → B → M B) (acc : B) : M B :=
  PyoObjectBase__iter__ c o;;
  for_next fuel c o body acc.

(** *** Queries with the [all] flag given *)

(** What [if all] reads from a flag that passed the ["B"] check, which
    lets only [bool] and [int] through; no other value reaches the test. *)
Definition flag_set (all : pyval) : bool :=
  match all with
  | PBool b => b
  | PInt z => negb (z =? 0)%Z
  | _ => true
  end.

(** [PyoObject.isPlaying(all)] *)
Definition PyoObject_isPlaying_flag (c : pyclass) (o : nat) (all : pyval)
  : M pyval :=
  assert_args c "B" [all];;
  r ← get_obj o;
  if flag_set all
  then l ← mapM base_isPlaying (_base_objs r); mret (PList (PBool <$> l))
  else match _base_objs r !! 0 with
       | Some obj => b ← base_isPlaying obj; mret (PBool b)
       | None => raise IndexError
       end.

(** [PyoObject.get(all)] *)
Definition PyoObject_get (c : pyclass) (o : nat) (all : pyval) : M pyval :=
  assert_args c "B" [all];;
  r ← get_obj o;
  if negb (flag_set all)
  then match _base_objs r !! 0 with
       | Some obj => base_getValue obj
       | None => raise IndexError
       end
  else l ← mapM base_getValue (_base_objs r); mret (PList l).

(** *** Setters of [Sig], [VarPort], [InputFader] and [Compare] *)

Definition s_set_kind (k : skind) (r : stream) : stream :=
  mkStream k (s_mul r) (s_mul_inv r) (s_add r) (s_add_inv r) (s_playing r)
           (s_value r).

(** Modelled from the spec: the engine setters ([Sig_base.setValue],
    [VarPort_base.setValue], [setTime] and [setFunction],
    [InputFader_base.setInput], [Compare_base.setComp] and [setMode])
    replace the constructor argument of the same name and nothing else;
    an engine object of another class has no such method. *)
Definition engine_setValue (x : pyval) (r : stream) : option stream :=
  match s_kind r with
  | KSig _ => Some (s_set_kind (KSig x) r)
  | KVarPort _ time init function arg =>
      Some (s_set_kind (KVarPort x time init function arg) r)
  | _ => None
  end.

Definition engine_setTime (x : pyval) (r : stream) : option stream :=
  match s_kind r with
  | KVarPort value _ init function arg =>
      Some (s_set_kind (KVarPort value x init function arg) r)
  | _ => None
  end.

Definition engine_setFunction (x : pyval) (r : stream) : option stream :=
  match s_kind r with
  | KVarPort value time init _ arg =>
      Some (s_set_kind (KVarPort value time init x arg) r)
  | _ => None
  end.

Definition engine_setInput (x : pyval) (r : stream) : option stream :=
  match s_kind r with
  | KInputFader _ => Some (s_set_kind (KInputFader x) r)
  | _ => None
  end.

Definition engine_setComp (x : pyval) (r : stream) : option stream :=
  match s_kind r with
  | KCompare input _ mode => Some (s_set_kind (KCompare input x mode) r)
  | _ => None
  end.

Definition engine_setMode (code : nat) (r : stream) : option stream :=
  match s_kind r with
  | KCompare input comp _ => Some (s_set_kind (KCompare input comp code) r)
  | _ => None
  end.

Definition base_call (name : string) (f : stream → option stream)
           (obj : pyval) : M unit :=
  on_stream obj (λ s,
    r ← get_stream s;
    match f r with
    | Some r' => update_stream s (λ _, r')
    | None => raise (AttributeError name)
    end).

Definition base_setValue (obj x : pyval) : M unit :=
  base_call "setValue" (engine_setValue x) obj.

Definition base_setMode (obj : pyval) (code : nat) : M unit :=
  base_call "setMode" (engine_setMode code) obj.

Definition base_setTime (obj x : pyval) : M unit :=
  base_call "setTime" (engine_setTime x) obj.

Definition base_setFunction (obj x : pyval) : M unit :=
  base_call "setFunction" (engine_setFunction x) obj.

(** The crossfade of [setInput] runs in the engine; [fadetime] has no
    effect at the time of the call. *)
Definition base_setInput (obj x fadetime : pyval) : M unit :=
  base_call "setInput" (engine_setInput x) obj.

Definition base_setComp (obj x : pyval) : M unit :=
  base_call "setComp" (engine_setComp x) obj.

(** [Sig.setValue(x)] *)
Definition Sig_setValue (o : nat) (x : pyval) : M unit :=
  assert_args CSig "O" [x];;
  store_attr o "value" x;;
  '(conv, _) ← convertArgsToLists [x];
  let x := conv !!! 0 in
  r ← get_obj o;
  mapM (λ '(i, obj), w ← wrap x i; base_setValue obj w)
       (enumerate (_base_objs r));;
  mret tt.

(** [Compare.setMode(x)] *)
Definition Compare_setMode (o : nat) (x : pyval) : M unit :=
  assert_args CCompare "s" [x];;
  store_attr o "mode" x;;
  '(conv, _) ← convertArgsToLists [x];
  let x := conv !!! 0 in
  r ← get_obj o;
  mapM (λ '(i, obj),
         k ← wrap x i;
         code ← comp_dict k;
         base_setMode obj code)
       (enumerate (_base_objs r));;
  mret tt.

(** [VarPort.setValue(x)] *)
Definition VarPort_setValue (o : nat) (x : pyval) : M unit :=
  assert_args CVarPort "n" [x];;
  store_attr o "value" x;;
  '(conv, _) ← convertArgsToLists [x];
  let x := conv !!! 0 in
  r ← get_obj o;
  mapM (λ '(i, obj), w ← wrap x i; base_setValue obj w)
       (enumerate (_base_objs r));;
  mret tt.

(** [VarPort.setTime(x)] *)
Definition VarPort_setTime (o : nat) (x : pyval) : M unit :=
  assert_args CVarPort "n" [x];;
  store_attr o "time" x;;
  '(conv, _) ← convertArgsToLists [x];
  let x := conv !!! 0 in
  r ← get_obj o;
  mapM (λ '(i, obj), w ← wrap x i; base_setTime obj w)
       (enumerate (_base_objs r));;
  mret tt.

(** [VarPort.setFunction(x)] *)
Definition VarPort_setFunction (o : nat) (x : pyval) : M unit :=
  assert_args CVarPort "c" [x];;
  store_attr o "function" (getWeakMethodRef x);;
  '(conv, _) ← convertArgsToLists [x];
  let x := conv !!! 0 in
  r ← get_obj o;
  mapM (λ '(i, obj), w ← wrap x i; base_setFunction obj (WeakMethod w))
       (enumerate (_base_objs r));;
  mret tt.

(** [InputFader.setInput(x, fadetime)] *)
Definition InputFader_setInput (o : nat) (x fadetime : pyval) : M unit :=
  assert_args CInputFader "oN" [x; fadetime];;
  store_attr o "input" x;;
  '(conv, _) ← convertArgsToLists [x];
  let x := conv !!! 0 in
  r ← get_obj o;
  mapM (λ '(i, obj), w ← wrap x i; base_setInput obj w fadetime)
       (enumerate (_base_objs r));;
  mret tt.

(** [Compare.setInput(x, fadetime)]: the work is done by the input fader
    the constructor stored in [_in_fader]. *)
Definition Compare_setInput (o : nat) (x fadetime : pyval) : M unit :=
  assert_args CCompare "oN" [x; fadetime];;
  store_attr o "input" x;;
  r ← get_obj o;
  match attrs r !! "_in_fader" with
  | Some (PObj CInputFader f) => InputFader_setInput f x fadetime
  | Some _ => raise (Unresolved "setInput")
  | None => raise (AttributeError "_in_fader")
  end.

(** [Compare.setComp(x)] *)
Definition Compare_setComp (o : nat) (x : pyval) : M unit :=
  assert_args CCompare "O" [x];;
  store_attr o "comp" x;;
  '(conv, _) ← convertArgsToLists [x];
  let x := conv !!! 0 in
  r ← get_obj o;
  mapM (λ '(i, obj), w ← wrap x i; base_setComp obj w)
       (enumerate (_base_objs r));;
  mret tt.

(** *** Attributes by name, [set] and the completion handler *)

(** The public methods of the classes of [_core.py]. *)
Definition method_names : list string :=
  ["dump"; "getBaseObjects"; "getServer"; "getSamplingRate";
   "getBufferSize"; "next"; "isPlaying"; "isOutputting"; "get"; "play";
   "out"; "stop"; "mix"; "range"; "setMul"; "setAdd"; "setSub"; "setDiv";
   "set"; "ctrl"; "setInput"; "setValue"; "setTime"; "setFunction";
   "setBase"; "setExponent"; "setMin"; "setMax"; "setComp"; "setMode"].

(** The names [getattr] and [setattr] are followed on: the properties
    [mul] and [add] apart, the public names that are not methods.  Such a
    name is a property, or an attribute the caller added to the instance;
    [attrs] holds its value.  The private fields (a leading underscore),
    the special names and the methods are not reached by name in the
    model: on them [getattr] and [setattr] stop with [Unresolved]. *)
Definition resolvable (attr : string) : bool :=
  negb (String.prefix "_" attr)
  && negb (existsb (String.eqb attr) method_names).

(** [getattr(self, attr)]: [mul] and [add] are the properties of
    [PyoObject]; any other name is looked up among the attributes the
    instance holds.  A name that is not found there may still be one the
    class defines, so the lookup stops with [Unresolved]. *)
Definition getattr (o : nat) (attr : string) : M pyval :=
  r ← get_obj o;
  if String.eqb attr "mul" then mret (_mul r)
  else if String.eqb attr "add" then mret (_add r)
  else if resolvable attr
       then match attrs r !! attr with
            | Some v => mret v
            | None => raise (Unresolved attr)
            end
       else raise (Unresolved attr).

(** The property setters the classes of [_core.py] define besides [mul]
    and [add]; [fadetime] is left at its default. *)
Definition core_setter (c : pyclass) (attr : string)
  : option (nat → pyval → M unit) :=
  match c with
  | CSig =>
      if String.eqb attr "value" then Some Sig_setValue else None
  | CVarPort =>
      if String.eqb attr "value" then Some VarPort_setValue
      else if String.eqb attr "time" then Some VarPort_setTime
      else if String.eqb attr "function" then Some VarPort_setFunction
      else None
  | CInputFader =>
      if String.eqb attr "input"
      then Some (λ o x, InputFader_setInput o x (PFloat 0.05))
      else None
  | CCompare =>
      if String.eqb attr "input"
      then Some (λ o x, Compare_setInput o x (PFloat 0.05))
      else if String.eqb attr "comp" then Some Compare_setComp
      else if String.eqb attr "mode" then Some Compare_setMode
      else None
  | _ => None
  end.

(** [setattr(self, attr, value)]: a property runs its setter, [setMul]
    and [setAdd] for [mul] and [add] and the setter of the class for the
    properties of [_core.py].  Any other resolvable name is a property
    of a class defined outside [_core.py] or a plain attribute of the
    instance.  Modelled from the spec: the setter of such a property
    replaces the attribute; what it forwards to its engine streams is not
    visible in the store. *)
Definition setattr (c : pyclass) (o : nat) (attr : string) (value : pyval)
  : M unit :=
  if String.eqb attr "mul" then PyoObject_setMul c o value
  else if String.eqb attr "add" then PyoObject_setAdd c o value
  else if resolvable attr
       then match core_setter c attr with
            | Some setter => setter o value
            | None => store_attr o attr value
            end
       else raise (Unresolved attr).

(** The block [if attr in self._signal_dict: ...] of [PyoObject.set]: the
    origin of the new ramp.  A ramp that is still playing is sampled and
    stopped; otherwise the origin stays the attribute's value [init]. *)
Definition ramp_origin (r : pyobj) (attr : string) (init : pyval)
  : M pyval :=
  match _signal_dict r !! attr with
  | Some (PObj CVarPort p) =>
      playing ← PyoObject_isPlaying CVarPort p;
      match playing with
      | true => init ← PyoObject_get_all CVarPort p;
                PyoObject_stop CVarPort p;;
                mret init
      | false => mret init
      end
  | _ => mret init
  end.

(** [PyoObject.set(attr, value, port, callback)] *)
Definition PyoObject_set (c : pyclass) (o : nat) (attr : string)
           (value port callback : pyval) : M unit :=
  assert_args c "SnnC" [PStr attr; value; port; callback];;
  update_obj o (λ r, set_target_dict (<[attr := value]> (_target_dict r)) r);;
  update_obj o (λ r,
    set_callback_dict (<[attr := callback]> (_callback_dict r)) r);;
  init ← getattr o attr;
  r ← get_obj o;
  init ← ramp_origin r attr init;
  vp ← VarPort__init__ value port init (PResetMethod o) (PStr attr)
                       (PInt 1) (PInt 0);
  update_obj o (λ r, set_signal_dict (<[attr := vp]> (_signal_dict r)) r);;
  r ← get_obj o;
  match _signal_dict r !! attr with
  | Some v => setattr c o attr v
  | None => raise (KeyError attr)
  end.

(** Calling a Python callable.  A user callback is opaque: the call is
    recorded and the callback itself is assumed not to touch the store. *)
Definition call0 (f : pyval) : M unit :=
  match f with
  | PFun k => modify (with_log (λ l, l ++ [Called k]))
  | _ => raise TypeError
  end.

(** [self._signal_dict[attr].stop()] *)
Definition stop_signal (r : pyobj) (attr : string) : M unit :=
  match _signal_dict r !! attr with
  | Some (PObj cp p) => PyoObject_stop cp p;; mret tt
  | Some _ => raise (AttributeError "stop")
  | None => raise (KeyError attr)
  end.

(** [PyoObject._reset_from_set(attr)] *)
Definition PyoObject__reset_from_set (c : pyclass) (o : nat) (attr : string)
  : M unit :=
  cur ← getattr o attr;
  (if isVarPort cur then
     r ← get_obj o;
     match _target_dict r !! attr with
     | None => raise (KeyError attr)
     | Some target =>
         setattr c o attr target;;
         r ← get_obj o;
         match _callback_dict r !! attr with
         | None => raise (KeyError attr)
         | Some PNone => mret tt
         | Some cb =>
             call0 cb;;
             update_obj o (λ r,
               set_callback_dict (delete attr (_callback_dict r)) r)
         end
     end
   else mret tt);;
  r ← get_obj o;
  stop_signal r attr.

(** * Auxiliary notions for the statements *)

(** The processing host exists and is booted. *)
Definition host_running (st : state) : Prop :=
  server_created st = true ∧ server_booted st = true.

(** The state with its engine streams, or its objects, replaced. *)
Definition put_streams (ss : list stream) (st : state) : state :=
  mkState (objs st) ss (log st) (server_created st) (server_booted st).

Definition put_objs (os : list pyobj) (st : state) : state :=
  mkState os (streams st) (log st) (server_created st) (server_booted st).

(** What [len], [x[k]] and [x[0]] read from the object store. *)
Definition len_of (os : list pyobj) (x : pyval) : option nat :=
  match x with
  | PList l | PTuple l => Some (length l)
  | PStr s => Some (String.length s)
  | PObj _ o => r ← os !! o; Some (length (_base_objs r))
  | _ => None
  end.

Definition elems_of (os : list pyobj) (x : pyval) : option (list pyval) :=
  match x with
  | PList l | PTuple l => Some l
  | PObj _ o => _base_objs <$> os !! o
  | _ => None
  end.

Definition first_of (os : list pyobj) (x : pyval) : option pyval :=
  match x with
  | PObj _ o => r ← os !! o; _base_objs r !! 0
  | _ => Some x
  end.

(** The values [wrap] can return for operand [x]: its elements, each
    bundle among them replaced by its first stream. *)
Definition items_of (os : list pyobj) (x : pyval) : option (list pyval) :=
  l ← elems_of os x; mapM (first_of os) l.

(** [items[k mod len(items)]] *)
Definition wrap_at (items : list pyval) (k : nat) : pyval :=
  default PNone (items !! (k mod length items)).

(** Accessors used in the statements. *)
Definition base_of (st : state) (o : nat) : list pyval :=
  from_option _base_objs [] (objs st !! o).

Definition dup_of (st : state) (o : nat) : nat :=
  from_option _op_duplicate 1 (objs st !! o).

Definition kind_of (st : state) (s : nat) : option skind :=
  s_kind <$> streams st !! s.

(** Object [o] is a bundle of the engine streams [ss]: at least one
    stream, each in the store, and a positive duplication factor. *)
Definition stream_bundle (st : state) (o : nat) (ss : list nat) : Prop :=
  is_Some (objs st !! o)
  ∧ base_of st o = PStream <$> ss
  ∧ ss ≠ []
  ∧ Forall (λ s, s < length (streams st)) ss
  ∧ 1 ≤ dup_of st o.

(** What one element of [objs_list] contributes to a new [Dummy]. *)
Definition contribution (st : state) (x : pyval) : list pyval :=
  match x with
  | PObj CDummy o => base_of st o
  | _ => [x]
  end.

Definition flattened (st : state) (objs_list : list pyval) : list pyval :=
  concat (contribution st <$> objs_list).

(** The record [Dummy.__init__] leaves in the store. *)
Definition dummy_obj (objs_list base : list pyval) : pyobj :=
  mkObj base 1 [] PNone (PFloat 1) (PFloat 0) ∅ ∅ ∅
        {["_objs_list" := PList objs_list]}.

(** No bundle of the store has a composite among its base objects. *)
Definition flat_store (st : state) : Prop :=
  ∀ o r, objs st !! o = Some r →
         Forall (λ x, isDummy x = false) (_base_objs r).

Definition sid_of (v : pyval) : nat :=
  match v with PStream s => s | _ => 0 end.

(** The stream store after the engine setter [f] ran on each of [sids]. *)
Definition alter_all (f : stream → stream) (sids : list nat)
           (ss : list stream) : list stream :=
  foldl (λ ss s, alter f s ss) ss sids.

(** Example store: five engine-supplied units, a bundle of three of them
    and a bundle of the other two. *)
Definition unit_stream : stream :=
  fresh_stream KUnit (PFloat 1) (PFloat 0) true.

Definition generic_obj (sids : list nat) : pyobj :=
  mkObj (PStream <$> sids) 1 [] PNone (PFloat 1) (PFloat 0) ∅ ∅ ∅ ∅.

Definition example_state : state :=
  mkState [generic_obj [0; 1; 2]; generic_obj [3; 4]]
          (replicate 5 unit_stream) [] true true.

(** The engine streams [self OP x] allocates when [self], with streams
    [sids] and duplication factor [d], is at least as long as [x]. *)
Definition arith_streams (op : arith) (d : nat) (items : list pyval)
           (sids : list nat) : list stream :=
  imap (λ i s, fresh_stream (KArith op s (wrap_at items (i / d)))
                            (PFloat 1) (PFloat 0) true) sids.

(** The engine streams allocated when the operand is longer than [self]:
    [self]'s streams [sids] are wrapped against the operand's elements. *)
Definition arith_streams_wrapped (op : arith) (sids : list nat)
           (xs : list pyval) : list stream :=
  imap (λ i x, fresh_stream
                 (KArith op (sid_of (wrap_at (PStream <$> sids) i)) x)
                 (PFloat 1) (PFloat 0) true) xs.

(** Operands of the arithmetic operators, with the length of their list
    form: a number, a non-empty list of numbers, a bundle of streams. *)
Inductive operand (st : state) : pyval → nat → Prop :=
| operand_number x :
    is_number x = true → operand st x 1
| operand_list l :
    l ≠ [] → Forall (λ x, is_number x = true) l →
    operand st (PList l) (length l)
| operand_bundle c o ss :
    audio_class c = true → stream_bundle st o ss →
    operand st (PObj c o) (length ss).

(** What an in-place operator leaves behind: it returns [self], creates
    neither object nor stream, replaces the attribute read by [attr_of]
    with [x], keeps the stream list, and applies the engine setter [u]
    with the wrapped value to every stream of [self] and to no other. *)
Definition inplace_spec (run : M pyval) (attr_of : pyobj → pyval)
           (u : pyval → stream → stream) (st : state) (c : pyclass)
           (o : nat) (ss : list nat) (x : pyval) (items : list pyval)
  : Prop :=
  ∃ st',
    run st = Ok (PObj c o) st'
    ∧ length (objs st') = length (objs st)
    ∧ length (streams st') = length (streams st)
    ∧ log st' = log st
    ∧ base_of st' o = PStream <$> ss
    ∧ attr_of <$> objs st' !! o = Some x
    ∧ (∀ o', o' ≠ o → objs st' !! o' = objs st !! o')
    ∧ (∀ i s, ss !! i = Some s →
         streams st' !! s
         = u (wrap_at items (i / dup_of st o)) <$> streams st !! s)
    ∧ (∀ s, s ∉ ss → streams st' !! s = streams st !! s).

(** The object and the engine stream that [Sig(0)] leaves in the store,
    for a stream allocated at index [m]. *)
Definition zero_sig_obj (m : nat) : pyobj :=
  mkObj [PStream m] 1 [] PNone (PInt 1) (PInt 0) ∅ ∅ ∅
        {["value" := PInt 0]}.

Definition zero_sig_stream : stream :=
  mkStream (KSig (PInt 0)) (PInt 1) false (PInt 0) false true 0.

(** The engine streams of [Z - A] for a one-stream [Z] with stream [z]. *)
Definition neg_streams (z : nat) (sA : list nat) : list stream :=
  (λ x, fresh_stream (KArith Sub z (PStream x)) (PFloat 1) (PFloat 0) true)
    <$> sA.

Definition zeros_of (st : state) (o : nat) : pyval :=
  from_option _zeros PNone (objs st !! o).

(** ** Sample semantics of the engine *)

Section Samples.

(** The output of an engine-supplied unit at a sample instant. *)
Variable engine_out : nat → nat → Q.

Definition num_of (v : pyval) : option Q :=
  match v with
  | PInt z => Some (inject_Z z)
  | PFloat q => Some q
  | _ => None
  end.

Definition arith_q (op : arith) (a b : Q) : option Q :=
  match op with
  | Add => Some (a + b)%Q
  | Sub => Some (a - b)%Q
  | Mul => Some (a * b)%Q
  | Div => if Qeq_bool b 0 then None else Some (a / b)%Q
  end.

(** A scalar parameter: a number, or another stream read at the same
    instant through [rec]. *)
Definition operand_sample (rec : nat → option Q) (v : pyval) : option Q :=
  match v with
  | PStream s => rec s
  | _ => num_of v
  end.

(** Modelled from the spec: the sample a stream outputs at instant [t],
    in exact arithmetic (the engine's sample loop is not part of the
    Python layer).  A [Sig] stream outputs its value; the stream built by
    an operator outputs the operator applied to the outputs of its two
    operands; both then go through the post-processing pair, [mul] then
    [add], inverted when set by [setDiv] or [setSub].  Any other stream
    is an engine unit with an output of its own.  [fuel] bounds the depth
    of the stream graph that is followed. *)
Fixpoint sample (fuel : nat) (ss : list stream) (s t : nat) : option Q :=
  match fuel with
  | 0 => None
  | S fuel =>
      r ← ss !! s;
      let rec := λ s', sample fuel ss s' t in
      match s_kind r with
      | KSig v =>
          raw ← operand_sample rec v;
          m ← operand_sample rec (s_mul r);
          a ← operand_sample rec (s_add r);
          scaled ← (if s_mul_inv r then arith_q Div raw m
                    else arith_q Mul raw m);
          if s_add_inv r then arith_q Sub scaled a else arith_q Add scaled a
      | KArith op i x =>
          u ← rec i;
          w ← operand_sample rec x;
          raw ← arith_q op u w;
          m ← operand_sample rec (s_mul r);
          a ← operand_sample rec (s_add r);
          scaled ← (if s_mul_inv r then arith_q Div raw m
                    else arith_q Mul raw m);
          if s_add_inv r then arith_q Sub scaled a else arith_q Add scaled a
      | _ => Some (engine_out s t)
      end
  end.

End Samples.

(** ** The mixer as the specification words it *)

(** [num]: the input count unless [voices] exceeds it. *)
Definition spec_num (voices : Z) (input_len : nat) : nat :=
  if (voices >? Z.of_nat input_len)%Z then Z.to_nat voices else input_len.

(** [voices], clamped to at least 1. *)
Definition spec_voices (voices : Z) : nat := Z.to_nat (Z.max voices 1).

(** Inputs [i] in [0, num), wrapped modulo the input count, that go to
    output voice [v]: those with [i mod voices = v], in order. *)
Definition voice_inputs (input_objs : list pyval) (voices num v : nat)
  : list pyval :=
  omap (λ i, if i mod voices =? v
             then input_objs !! (i mod length input_objs)
             else None)
       (seq 0 num).

Definition spec_sub_lists (input_objs : list pyval) (voices : Z)
  : list (list pyval) :=
  (λ v, voice_inputs input_objs (spec_voices voices)
                     (spec_num voices (length input_objs)) v)
    <$> seq 0 (spec_voices voices).

(** What Python's [getBaseObjects] and the flattening of [Mix] read. *)
Definition base_objects_of (os : list pyobj) (x : pyval)
  : option (list pyval) :=
  match x with
  | PObj _ o => _base_objs <$> os !! o
  | _ => None
  end.

Definition mix_inputs (os : list pyobj) (input : pyval)
  : option (list pyval) :=
  match input with
  | PList l => ll ← mapM (base_objects_of os) l; Some (concat ll)
  | _ => base_objects_of os input
  end.

(** The input lists of the output streams of mixer [o]. *)
Definition mixed_inputs (st : state) (o : nat) : list (list pyval) :=
  omap (λ x, match x with
             | PStream s =>
                 match kind_of st s with
                 | Some (KMix l) => Some l
                 | _ => None
                 end
             | _ => None
             end)
       (base_of st o).

(** A store with one bundle of five engine units. *)
Definition five_state : state :=
  mkState [generic_obj [0; 1; 2; 3; 4]] (replicate 5 unit_stream) []
          true true.

(** The object and the engine streams [Mix] leaves in the store, for the
    default [mul] and [add]. *)
Definition mix_obj (input : pyval) (base : list pyval) : pyobj :=
  mkObj base 1 [] PNone (PInt 1) (PInt 0) ∅ ∅ ∅ {["_input" := input]}.

Definition mix_stream (l : list pyval) : stream :=
  mkStream (KMix l) (PInt 1) false (PInt 0) false true 0.

Definition after_mix (st : state) (input : pyval)
           (sub_lists : list (list pyval)) : state :=
  mkState
    (objs st
     ++ [mix_obj input
           (PStream <$> seq (length (streams st)) (length sub_lists))])
    (streams st ++ (mix_stream <$> sub_lists))
    (log st) (server_created st) (server_booted st).

(** The counts the code uses with the default [mul] and [add]: as in the
    specification from one voice on, and a single voice fed by a single
    input below. *)
Definition clamped_voices (voices : Z) : nat :=
  if (voices <? 1)%Z then 1 else Z.to_nat voices.

Definition clamped_num (voices : Z) (input_len : nat) : nat :=
  if (voices <? 1)%Z then 1 else spec_num voices input_len.

(** ** What [InputFader] and [Compare] leave in the store *)

Definition fader_obj (input : pyval) (m : nat) (sA : list nat) : pyobj :=
  mkObj (PStream <$> seq m (length sA)) 1 [] PNone (PFloat 1) (PFloat 0)
        ∅ ∅ ∅ {["input" := input]}.

Definition fader_stream (x : pyval) : stream :=
  mkStream (KInputFader x) (PFloat 1) false (PFloat 0) false true 0.

Definition compare_obj (input comp mode in_fader : pyval) (base : list pyval)
  : pyobj :=
  mkObj base 1 [] PNone (PInt 1) (PInt 0) ∅ ∅ ∅
        (<["_in_fader" := in_fader]>
           (<["mode" := mode]>
              (<["comp" := comp]> (<["input" := input]> ∅)))).

Definition compare_stream (faders items : list pyval) (code i : nat)
  : stream :=
  mkStream (KCompare (wrap_at faders i) (wrap_at items i) code)
           (PInt 1) false (PInt 0) false true 0.

Definition after_compare (st : state) (input comp : pyval) (mode : string)
           (sA : list nat) (items : list pyval) (code : nat) : state :=
  let n := length (objs st) in
  let m := length (streams st) in
  let a := length sA in
  let lmax := max a (length items) in
  mkState
    (objs st
     ++ [compare_obj input comp (PStr mode) (PObj CInputFader (S n))
                     (PStream <$> seq (m + a) lmax);
         fader_obj input m sA])
    (streams st
     ++ (fader_stream <$> (PStream <$> sA))
     ++ (compare_stream (PStream <$> seq m a) items code <$> seq 0 lmax))
    (log st) (server_created st) (server_booted st).

Definition attr_of (st : state) (o : nat) (k : string) : option pyval :=
  r ← objs st !! o; attrs r !! k.

(** The comparison operators and the code the engine gets for each. *)
Definition compare_modes : list (string * nat) :=
  [("<", 0); ("<=", 1); (">", 2); (">=", 3); ("==", 4); ("!=", 5)].

(** The operator with mode [mode]: [default] is [True] for [!=] only. *)
Definition comparison_operator (mode : string) (c : pyclass) (o : nat)
           (x : pyval) : M pyval :=
  PyoObject__do_comp__ c o x mode (String.eqb mode "!=").

(** [run] returns a new [Compare] node built with [mode]: the node
    records the mode and every one of its streams carries its code. *)
Definition compare_node (st : state) (run : M pyval) (mode : string)
           (code : nat) : Prop :=
  ∃ st',
    run st = Ok (PObj CCompare (length (objs st))) st'
    ∧ attr_of st' (length (objs st)) "mode" = Some (PStr mode)
    ∧ base_of st' (length (objs st)) ≠ []
    ∧ ∀ x, x ∈ base_of st' (length (objs st)) →
           ∃ s f y, x = PStream s
                    ∧ kind_of st' s = Some (KCompare f y code).

(** ** The ramp scheduler *)

(** A value [set] can ramp to: a number or a non-empty list of numbers. *)
Definition numeric (x : pyval) : bool :=
  match x with
  | PInt _ | PFloat _ => true
  | PList (y :: l) => forallb is_number (y :: l)
  | _ => false
  end.

Definition numeric_items (x : pyval) : list pyval :=
  match x with
  | PList l => l
  | _ => [x]
  end.

(** A callback as [set] accepts it and [_reset_from_set] can call it. *)
Definition is_callback (x : pyval) : bool :=
  match x with PNone | PFun _ => true | _ => false end.

Definition callback_events (callback : pyval) : list event :=
  match callback with PFun f => [Called f] | _ => [] end.

(** What [getattr(self, attr)] reads in the record of [self]. *)
Definition attr_value (r : pyobj) (attr : string) : option pyval :=
  if String.eqb attr "mul" then Some (_mul r)
  else if String.eqb attr "add" then Some (_add r)
  else if resolvable attr then attrs r !! attr
  else None.

(** The names [getattr] finds something under: [mul], [add] and the
    resolvable names. *)
Definition addressable (attr : string) : bool :=
  String.eqb attr "mul" || String.eqb attr "add" || resolvable attr.

(** The record after [setattr(self, attr, v)]. *)
Definition assign (attr : string) (v : pyval) (r : pyobj) : pyobj :=
  if String.eqb attr "mul" then set_mul v r
  else if String.eqb attr "add" then set_add v r
  else set_attrs (<[attr := v]> (attrs r)) r.

Definition playing_of (st : state) (s : nat) : option bool :=
  s_playing <$> streams st !! s.

Definition value_of (st : state) (s : nat) : option Q :=
  s_value <$> streams st !! s.

Definition value_at (ss : list stream) (s : nat) : Q :=
  from_option s_value 0%Q (ss !! s).

Definition signal_of (st : state) (o : nat) (attr : string) : option pyval :=
  r ← objs st !! o; _signal_dict r !! attr.

Definition target_of (st : state) (o : nat) (attr : string) : option pyval :=
  r ← objs st !! o; _target_dict r !! attr.

Definition callback_of (st : state) (o : nat) (attr : string)
  : option pyval :=
  r ← objs st !! o; _callback_dict r !! attr.

Definition attribute_of (st : state) (o : nat) (attr : string)
  : option pyval :=
  r ← objs st !! o; attr_value r attr.

(** Two stream stores that differ at most in post-processing pairs. *)
Definition same_but_factors (ss ss' : list stream) : Prop :=
  length ss' = length ss
  ∧ ∀ s r, ss !! s = Some r →
      ∃ r', ss' !! s = Some r'
            ∧ s_kind r' = s_kind r
            ∧ s_playing r' = s_playing r
            ∧ s_value r' = s_value r.

(** The object and the streams [VarPort] leaves in the store when called
    by [set] (default [mul] and [add]). *)
Definition varport_obj (value time function : pyval) (base : list pyval)
  : pyobj :=
  mkObj base 1 [] PNone (PInt 1) (PInt 0) ∅ ∅ ∅
        (<["function" := function]>
           (<["time" := time]> (<["value" := value]> ∅))).

Definition varport_stream (vs ts ns : list pyval) (function arg : pyval)
           (i : nat) : stream :=
  mkStream (KVarPort (wrap_at vs i) (wrap_at ts i) (wrap_at ns i)
                     function arg)
           (PInt 1) false (PInt 0) false true 0.

(** The number of streams of the ramp [set] builds. *)
Definition ramp_len (value port init : pyval) : nat :=
  max (length (numeric_items value))
      (max (length (numeric_items port)) (length (numeric_items init))).

(** The record of [self] once [set] has returned, with [vp] the new
    ramp. *)
Definition set_record (attr : string) (value callback vp : pyval)
           (r : pyobj) : pyobj :=
  assign attr vp
    (set_signal_dict (<[attr := vp]> (_signal_dict r))
       (set_callback_dict (<[attr := callback]> (_callback_dict r))
          (set_target_dict (<[attr := value]> (_target_dict r)) r))).

(** The values [get(all=True)] reads from the streams [sP]. *)
Definition sampled (ss : list stream) (sP : list nat) : pyval :=
  PList ((λ s, PFloat (value_at ss s)) <$> sP).

(** How [set] finds the attribute [attr] of the record [r], whose current
    value is [cur]: no ramp was ever registered, the registered ramp is
    idle, or it is still playing.  The indices are the origin [set] hands
    to the new ramp and the stream store once the old ramp has been dealt
    with. *)
Inductive ramp_start (st : state) (r : pyobj) (attr : string) (cur : pyval)
  : pyval → list stream → Prop :=
| ramp_fresh :
    numeric cur = true →
    _signal_dict r !! attr = None →
    ramp_start st r attr cur cur (streams st)
| ramp_idle p sP :
    numeric cur = true →
    _signal_dict r !! attr = Some (PObj CVarPort p) →
    stream_bundle st p sP →
    playing_of st (hd 0 sP) = Some false →
    ramp_start st r attr cur cur (streams st)
| ramp_active p sP :
    _signal_dict r !! attr = Some (PObj CVarPort p) →
    stream_bundle st p sP →
    playing_of st (hd 0 sP) = Some true →
    ramp_start st r attr cur (sampled (streams st) sP)
      (alter_all (s_set_playing false) sP (streams st)).

(** The record of [self] once the completion handler has run. *)
Definition clear_callback (attr : string) (r : pyobj) : pyobj :=
  match _callback_dict r !! attr with
  | Some PNone | None => r
  | Some _ => set_callback_dict (delete attr (_callback_dict r)) r
  end.

Definition reset_record (attr : string) (target : pyval) (r : pyobj)
  : pyobj :=
  clear_callback attr (assign attr target r).

(** A store with one bundle [0] over the stream [0] whose attribute
    [freq] is the number 100. *)
Definition freq_obj : pyobj :=
  mkObj [PStream 0] 1 [] PNone (PInt 1) (PInt 0) ∅ ∅ ∅
        (<["freq" := PFloat 100]> ∅).

Definition freq_state : state :=
  mkState [freq_obj] [unit_stream] [] true true.

(** The same bundle half-way through a ramp of [freq] from 0 to 10: the
    ramp is object [1] over stream [1], is playing and currently reads 5;
    the callback registered with it is number 7. *)
Definition ramping_obj : pyobj :=
  mkObj [PStream 0] 1 [] PNone (PInt 1) (PInt 0)
        (<["freq" := PFloat 10]> ∅)
        (<["freq" := PObj CVarPort 1]> ∅)
        (<["freq" := PFun 7]> ∅)
        (<["freq" := PObj CVarPort 1]> ∅).

Definition ramping_state : state :=
  mkState
    [ramping_obj;
     varport_obj (PFloat 10) (PFloat 2) (PResetMethod 0) [PStream 1]]
    [unit_stream;
     mkStream (KVarPort (PFloat 10) (PFloat 2) (PFloat 0)
                        (PResetMethod 0) (PStr "freq"))
              (PInt 1) false (PInt 0) false true 5]
    [] true true.

(** The state after [self OP x]: the composite, the new streams, and the
    composite appended to [self]'s trace. *)
Definition after_arith (st : state) (o : nat) (r : pyobj) (n : nat)
           (news : list stream) : state :=
  mkState
    (<[o := set_keep_trace
              (_keep_trace r ++ [PObj CDummy (length (objs st))]) r]>
       (objs st
        ++ [dummy_obj (PStream <$> seq (length (streams st)) n)
                      (PStream <$> seq (length (streams st)) n)]))
    (streams st ++ news)
    (log st) (server_created st) (server_booted st).

(** The state after the first negation of a bundle: a new [Sig(0)]
    memoized in [_zeros], then the composite [Sig(0) - self]. *)
Definition after_first_neg (st : state) (o : nat) (r : pyobj) (sA : list nat)
  : state :=
  after_arith
    (mkState (<[o := set_zeros (PObj CSig (length (objs st))) r]>
                (objs st ++ [zero_sig_obj (length (streams st))]))
             (streams st ++ [zero_sig_stream])
             (log st) (server_created st) (server_booted st))
    (length (objs st)) (zero_sig_obj (length (streams st)))
    (length sA) (neg_streams (length (streams st)) sA).

(** The reflected form of each operator. *)
Definition reflected (op : arith) : pyclass → nat → pyval → M pyval :=
  match op with
  | Add => PyoObject__radd__
  | Sub => PyoObject__rsub__
  | Mul => PyoObject__rmul__
  | Div => PyoObject__rdiv__
  end.

(** The [Sig] a reflected [-] or [/] builds from the number [w]: the
    record, over the stream [m], and the stream. *)
Definition upsamp_obj (w : pyval) (m : nat) : pyobj :=
  mkObj [PStream m] 1 [] PNone (PInt 1) (PInt 0) ∅ ∅ ∅
        {["value" := w]}.

Definition upsamp_stream (w : pyval) : stream :=
  mkStream (KSig w) (PInt 1) false (PInt 0) false true 0.

(** What the loops of [__rsub__] and [__rdiv__] keep from round to round:
    the host runs and the record of [self] keeps its streams and its
    duplication factor. *)
Definition upsamp_inv (o : nat) (base : list pyval) (d : nat) (st : state)
  : Prop :=
  host_running st
  ∧ ∃ r, objs st !! o = Some r ∧ _base_objs r = base ∧ _op_duplicate r = d.

(** What each round returns: a composite, other than [self], over one
    stream. *)
Definition single_composite (o : nat) (y : pyval) (st : state) : Prop :=
  ∃ d rd s, y = PObj CDummy d ∧ d ≠ o ∧ objs st !! d = Some rd
            ∧ _base_objs rd = [PStream s].
(** ** Further definitions used in the statements *)

(** The record [r] with its iteration index at [k], and the store with
    that record at [o]. *)
Definition with_index (k : Z) (r : pyobj) : pyobj :=
  set_attrs (<[index_attr := PInt k]> (attrs r)) r.

Definition indexed (st : state) (o : nat) (r : pyobj) (k : Z) : state :=
  put_objs (<[o := with_index k r]> (objs st)) st.

(** No processing host: none was created, or it was not booted. *)
Definition server_down (st : state) : Prop :=
  server_created st = false ∨ server_booted st = false.

(** A call that is refused: it raises the exception of the argument
    validator or the one of the host check, and has neither created nor
    touched an engine stream, nor printed or called anything. *)
Definition refused {A} (run : M A) (st : state) : Prop :=
  ∃ e st', run st = Raise e st'
           ∧ streams st' = streams st ∧ log st' = log st
           ∧ match e with
             | PyoServerStateException _ | PyoArgumentTypeError _ _ _ _ =>
                 True
             | _ => False
             end.

(** Two records that differ at most in their trace of composites. *)
Definition same_but_trace (r r' : pyobj) : Prop :=
  set_keep_trace [] r = set_keep_trace [] r'.

(** From [st] to [st'] nothing was taken away or altered: the engine
    streams of [st] are a prefix of those of [st'], nothing was printed or
    called, and every object of [st] is still there, with a trace that
    may have grown and nothing else changed. *)
Definition only_adds (st st' : state) : Prop :=
  streams st `prefix_of` streams st'
  ∧ log st' = log st
  ∧ ∀ o r, objs st !! o = Some r →
      ∃ r', objs st' !! o = Some r'
            ∧ same_but_trace r r'
            ∧ _keep_trace r `prefix_of` _keep_trace r'.

Definition trace_of (st : state) (o : nat) : list pyval :=
  from_option _keep_trace [] (objs st !! o).

(** The four setters of the post-processing pair, each with the
    attribute it replaces. *)
Definition factor_setters
  : list ((pyclass → nat → pyval → M unit) * (pyval → pyobj → pyobj)) :=
  [(PyoObject_setMul, set_mul); (PyoObject_setDiv, set_mul);
   (PyoObject_setAdd, set_add); (PyoObject_setSub, set_add)].

(** The record of [self] once [set] has written the target and the
    callback of [attr], and the store with that record. *)
Definition registered (attr : string) (value callback : pyval) (r : pyobj)
  : pyobj :=
  set_callback_dict (<[attr := callback]> (_callback_dict r))
    (set_target_dict (<[attr := value]> (_target_dict r)) r).

Definition after_registration (st : state) (o : nat) (attr : string)
           (value callback : pyval) (r : pyobj) : state :=
  put_objs (<[o := registered attr value callback r]> (objs st)) st.

(** No ramp of [attr] is playing: none was registered, or the registered
    one is stopped. *)
Definition no_active_ramp (st : state) (r : pyobj) (attr : string) : Prop :=
  _signal_dict r !! attr = None
  ∨ ∃ p sP, _signal_dict r !! attr = Some (PObj CVarPort p)
            ∧ stream_bundle st p sP
            ∧ playing_of st (hd 0 sP) = Some false.

(** A bundle whose [freq] is driven by another bundle. *)
Definition modulated_obj : pyobj :=
  mkObj [PStream 0] 1 [] PNone (PInt 1) (PInt 0) ∅ ∅ ∅
        (<["freq" := PObj CGeneric 1]> ∅).

Definition modulated_state : state :=
  mkState [modulated_obj; generic_obj [1]] (replicate 2 unit_stream) []
          true true.

(** What a [Compare] constructor leaves behind when the lookup of its mode
    fails: the record of the unfinished node, without engine streams, and
    its finished input fader with one stream per stream of the input. *)
Definition after_unknown_mode (st : state) (input comp : pyval)
           (mode : string) (sA : list nat) : state :=
  mkState
    (objs st
     ++ [compare_obj input comp (PStr mode)
                     (PObj CInputFader (S (length (objs st)))) [];
         fader_obj input (length (streams st)) sA])
    (streams st ++ (fader_stream <$> (PStream <$> sA)))
    (log st) (server_created st) (server_booted st).

(** A [dur] or [delay] argument: a number or a non-empty list of
    numbers. *)
Definition timing (st : state) (x : pyval) : Prop :=
  isPyoObjectBase x = false ∧ ∃ n, operand st x n.




(** Object [o] is a [Sig]: a bundle whose streams are distinct [Sig_base]
    objects. *)
Definition sig_bundle (st : state) (o : nat) (ss : list nat) : Prop :=
  stream_bundle st o ss
  ∧ NoDup ss
  ∧ Forall (λ s, ∃ v, kind_of st s = Some (KSig v)) ss.

(** The store with the [value] attribute of [o] at [x]. *)
Definition with_value (st : state) (o : nat) (x : pyval) : list pyobj :=
  alter (λ r, set_attrs (<["value" := x]> (attrs r)) r) o (objs st).

(** A store with one [Sig] holding the number [w]. *)
Definition sig_state (w : pyval) : state :=
  mkState [upsamp_obj w 0] [upsamp_stream w] [] true true.

(** The stream [r] with the mode of its comparison at [code]. *)
Definition with_mode (code : nat) (r : stream) : stream :=
  match s_kind r with
  | KCompare input comp _ => s_set_kind (KCompare input comp code) r
  | _ => r
  end.

(** The store [set] leaves when the setter of the property refuses the
    new ramp: target, callback and signal are registered, the ramp is
    built and running, and the attribute is as it was. *)
Definition after_refused_ramp (st : state) (o : nat) (attr : string)
           (value port callback init : pyval) (r : pyobj) : state :=
  mkState
    (<[o := set_signal_dict
              (<[attr := PObj CVarPort (length (objs st))]> (_signal_dict r))
              (registered attr value callback r)]> (objs st)
     ++ [varport_obj value port (PResetMethod o)
           (PStream <$> seq (length (streams st))
                            (ramp_len value port init))])
    (streams st
     ++ (varport_stream (numeric_items value) (numeric_items port)
                        (numeric_items init) (PResetMethod o) (PStr attr)
           <$> seq 0 (ramp_len value port init)))
    (log st) (server_created st) (server_booted st).

(** A store with one ramp towards 10 over the stream [0]. *)
Definition port_obj : pyobj :=
  varport_obj (PFloat 10) (PFloat 2) PNone [PStream 0].

Definition port_state : state :=
  mkState [port_obj]
          [mkStream (KVarPort (PFloat 10) (PFloat 2) (PFloat 0) PNone PNone)
                    (PInt 1) false (PInt 0) false true 0]
          [] true true.
(** * Properties *)

(** ** The argument validator accepts any list *)

Lemma expected_for_list f l :
  list_expandable f = true → expected_for f (PList l) = "".
Proof.
  intros Hf. unfold list_expandable in Hf. cbn [existsb] in Hf.
  repeat (apply orb_prop in Hf as [Hf|Hf];
          [apply Ascii.eqb_eq in Hf; subst f; reflexivity|]).
  discriminate.
Qed.

(** No branch of the chain looks inside a list. *)
Lemma expected_for_list_indep f l l' :
  expected_for f (PList l) = expected_for f (PList l').
Proof. reflexivity. Qed.

Lemma scan_args_error name format k args j n e g :
  scan_args name format k args = Some (PyoArgumentTypeError j n e g) →
  ∃ arg f, k ≤ j ∧ args !! (j - k) = Some arg
           ∧ String.get j format = Some f
           ∧ e = expected_for f arg ∧ e ≠ "".
Proof.
  revert k. induction args as [|arg rest IH]; intros k; simpl; [done|].
  destruct (String.get k format) as [f|] eqn:Hget; [|done].
  destruct (String.eqb (expected_for f arg) "") eqn:Hexp.
  - intros H. destruct (IH _ H) as (a & f' & Hle & Hl & Hg & He & Hne).
    exists a, f'. split; [lia|]. split; [|done].
    replace (j - k) with (S (j - S k)) by lia. done.
  - intros [= <- <- <- <-]. exists arg, f.
    rewrite Nat.sub_diag. repeat split; try done.
    intros Heq. rewrite Heq in Hexp. discriminate.
Qed.

Lemma scan_args_list_indep name format k args i l l' :
  args !! i = Some (PList l) →
  scan_args name format k (<[i := PList l']> args)
  = scan_args name format k args.
Proof.
  revert k i. induction args as [|arg rest IH]; intros k i; [done|].
  destruct i as [|i]; simpl.
  - intros [= ->]. destruct (String.get k format); [|done]. simpl.
    reflexivity.
  - intros H. destruct (String.get k format); [|done].
    destruct (String.eqb _ _); [|done]. by apply IH.
Qed.

(** C10: a list at a position whose format code is list-expandable never
    raises the argument-type error for that position, and the validator's
    outcome does not depend on what the list contains. *)
Theorem pyoArgsAssert_list_unchecked name format args i f l :
  String.get i format = Some f →
  list_expandable f = true →
  args !! i = Some (PList l) →
  (∀ e g, pyoArgsAssert name format args
          ≠ Some (PyoArgumentTypeError i name e g))
  ∧ (∀ l', pyoArgsAssert name format (<[i := PList l']> args)
           = pyoArgsAssert name format args).
Proof.
  intros Hget Hf Harg. split.
  - intros e g H. apply scan_args_error in H
      as (a & f' & _ & Ha & Hg & He & Hne).
    rewrite Nat.sub_0_r in Ha. simplify_eq.
    by rewrite expected_for_list in Hne.
  - intros l'. by apply scan_args_list_indep with l.
Qed.

Lemma pyoArgsAssert_list_unchecked_witness :
  pyoArgsAssert CSig "OnfisbI" [PList [PStr "a"]; PList [PNone]; PList [POther]]
  ≠ Some (PyoArgumentTypeError 1 CSig "any number" TList)
  ∧ pyoArgsAssert CSig "OnfisbI"
      (<[1 := PList [PFloat 1]]> [PList [PStr "a"]; PList [PNone]; PList [POther]])
    = pyoArgsAssert CSig "OnfisbI" [PList [PStr "a"]; PList [PNone]; PList [POther]].
Proof.
  destruct (pyoArgsAssert_list_unchecked CSig "OnfisbI"
              [PList [PStr "a"]; PList [PNone]; PList [POther]] 1 "n"%char
              [PNone] eq_refl eq_refl eq_refl) as [H1 H2].
  split; [apply H1 | apply H2].
Defined.

(** ** Running the monad *)

Ltac norm_state :=
  unfold put_objs, put_streams, with_streams, with_objs, with_log,
    set_attrs, set_base_objs, set_keep_trace, set_zeros, set_mul, set_add,
    set_target_dict, set_signal_dict, set_callback_dict;
  cbn [objs streams log server_created server_booted
       _base_objs _op_duplicate _keep_trace _zeros _mul _add
       _target_dict _signal_dict _callback_dict attrs].

Lemma bind_Ok {A B} (m : M A) (f : A → M B) st a st' :
  m st = Ok a st' → (m ≫= f) st = f a st'.
Proof. intros H. unfold mbind, M_bind. by rewrite H. Qed.

Lemma bind_Raise {A B} (m : M A) (f : A → M B) st e st' :
  m st = Raise e st' → (m ≫= f) st = Raise e st'.
Proof. intros H. unfold mbind, M_bind. by rewrite H. Qed.

Lemma put_streams_id st : put_streams (streams st) st = st.
Proof. by destruct st. Qed.

Lemma put_objs_id st : put_objs (objs st) st = st.
Proof. by destruct st. Qed.

Lemma put_streams_twice ss ss' st :
  put_streams ss' (put_streams ss st) = put_streams ss' st.
Proof. done. Qed.

Lemma insert_snoc {A} (l : list A) (x y : A) :
  <[length l := y]> (l ++ [x]) = l ++ [y].
Proof.
  rewrite insert_app_r_alt by lia. by rewrite Nat.sub_diag.
Qed.

Lemma lookup_snoc {A} (l : list A) (x : A) : (l ++ [x]) !! length l = Some x.
Proof. by rewrite lookup_app_r, Nat.sub_diag by lia. Qed.

(** ** Reading the object store *)

Lemma len_ok st x n : len_of (objs st) x = Some n → len x st = Ok n st.
Proof.
  destruct x; simpl; try done; try (by intros [= <-]).
  unfold get_obj, mbind, M_bind. destruct (objs st !! o); simpl; [|done].
  by intros [= <-].
Qed.

Lemma mapM_len_ok st l lens :
  mapM (len_of (objs st)) l = Some lens → mapM len l st = Ok lens st.
Proof.
  revert lens. induction l as [|x l IH]; intros lens; simpl.
  - by intros [= <-].
  - destruct (len_of (objs st) x) as [n|] eqn:Hx; simpl; [|done].
    destruct (mapM (len_of (objs st)) l) as [ns|]; simpl; [|done].
    intros [= <-]. rewrite (bind_Ok _ _ _ _ _ (len_ok _ _ _ Hx)).
    by rewrite (bind_Ok _ _ _ _ _ (IH _ eq_refl)).
Qed.

Lemma convertArgsToLists_ok st args lens :
  args ≠ [] →
  mapM (len_of (objs st)) (to_list_form <$> args) = Some lens →
  convertArgsToLists args st = Ok (to_list_form <$> args, max_list lens) st.
Proof.
  intros Hne H. unfold convertArgsToLists.
  rewrite (bind_Ok _ _ _ _ _ (mapM_len_ok _ _ _ H)).
  apply length_mapM in H. rewrite length_fmap in H.
  destruct lens; [by destruct args|done].
Qed.

Lemma convertArgsToLists_1 st x n :
  len_of (objs st) (to_list_form x) = Some n →
  convertArgsToLists [x] st = Ok ([to_list_form x], n) st.
Proof.
  intros H. rewrite (convertArgsToLists_ok _ _ [n]); [|done|].
  - cbn. by rewrite Nat.max_0_r.
  - cbn. by rewrite H.
Qed.

Lemma length_items_of os x items :
  items_of os x = Some items → len_of os x = Some (length items).
Proof.
  unfold items_of. destruct (elems_of os x) as [l|] eqn:He; simpl; [|done].
  intros H. apply length_mapM in H. rewrite <- H.
  destruct x; simpl in *; try done; try (by simplify_eq).
  destruct (os !! o); simpl in *; by simplify_eq.
Qed.

Lemma wrap_ok st x items k :
  items_of (objs st) x = Some items → items ≠ [] →
  wrap x k st = Ok (wrap_at items k) st.
Proof.
  intros Hit Hne. pose proof (length_items_of _ _ _ Hit) as Hlen.
  unfold wrap. rewrite (bind_Ok _ _ _ _ _ (len_ok _ _ _ Hlen)).
  destruct (length items) as [|n] eqn:Hn; [by destruct items|].
  rewrite <- Hn. unfold items_of in Hit.
  destruct (elems_of (objs st) x) as [l|] eqn:He; simpl in Hit; [|done].
  assert (Hk : k mod length items < length items)
    by (apply Nat.mod_upper_bound; lia).
  pose proof (length_mapM _ _ _ Hit) as Hll.
  destruct (lookup_lt_is_Some_2 l (k mod length items)) as [e He'];
    [lia|].
  apply mapM_Some_1 in Hit.
  destruct (Forall2_lookup_l _ _ _ _ _ Hit He') as (w & Hw & Hfirst).
  unfold wrap_at. rewrite Hw. simpl.
  assert (Hget : getitem x (k mod length items) st = Ok e st).
  { destruct x; simpl in He; try done; simplify_eq; simpl.
    - by rewrite He'.
    - by rewrite He'.
    - unfold PyoObjectBase__getitem__, get_obj, mbind, M_bind.
      destruct (objs st !! o) as [r|]; simpl in *; [|done].
      simplify_eq. by rewrite He'. }
  rewrite (bind_Ok _ _ _ _ _ Hget).
  destruct e; simpl in *; simplify_eq; try done.
  unfold PyoObjectBase__getitem__, get_obj, mbind, M_bind.
  destruct (objs st !! o) as [r|]; simpl in *; [|done].
  by rewrite Hfirst.
Qed.

(** ** Loops over the stream store *)

(** A comprehension whose every step allocates one stream. *)
Lemma mapM_alloc_from {A} (f : A → M pyval) (g : A → stream) (l : list A)
      st ss0 :
  (∀ x ss, x ∈ l →
     f x (put_streams ss st)
     = Ok (PStream (length ss)) (put_streams (ss ++ [g x]) st)) →
  mapM f l (put_streams ss0 st)
  = Ok (PStream <$> seq (length ss0) (length l))
       (put_streams (ss0 ++ (g <$> l)) st).
Proof.
  revert ss0. induction l as [|x l IH]; intros ss0 Hf; simpl.
  - by rewrite app_nil_r.
  - rewrite (bind_Ok _ _ _ _ _ (Hf x ss0 ltac:(left))).
    rewrite (bind_Ok _ _ _ _ _
               (IH (ss0 ++ [g x]) (λ y ss Hy, Hf y ss ltac:(by right)))).
    unfold mret, M_ret. rewrite length_app. simpl.
    rewrite Nat.add_1_r, <- app_assoc. done.
Qed.

Lemma mapM_alloc {A} (f : A → M pyval) (g : A → stream) (l : list A) st :
  (∀ x ss, x ∈ l →
     f x (put_streams ss st)
     = Ok (PStream (length ss)) (put_streams (ss ++ [g x]) st)) →
  mapM f l st
  = Ok (PStream <$> seq (length (streams st)) (length l))
       (put_streams (streams st ++ (g <$> l)) st).
Proof.
  intros Hf. rewrite <- (put_streams_id st) at 1.
  by apply mapM_alloc_from.
Qed.

(** A comprehension whose every step rewrites one existing stream. *)
Lemma mapM_update_from {A B} (f : A → M B) (s : A → nat)
      (u : A → stream → stream) (b : A → B) (l : list A) st ss0 :
  (∀ x ss, x ∈ l → s x < length ss →
     f x (put_streams ss st)
     = Ok (b x) (put_streams (alter (u x) (s x) ss) st)) →
  Forall (λ x, s x < length ss0) l →
  mapM f l (put_streams ss0 st)
  = Ok (b <$> l)
       (put_streams (foldl (λ ss x, alter (u x) (s x) ss) ss0 l) st).
Proof.
  revert ss0. induction l as [|x l IH]; intros ss0 Hf Hlt; simpl; [done|].
  inversion Hlt as [|? ? Hx Hl]; subst.
  rewrite (bind_Ok _ _ _ _ _ (Hf x ss0 ltac:(left) Hx)).
  rewrite (bind_Ok _ _ _ _ _
             (IH (alter (u x) (s x) ss0)
                 (λ y ss Hy, Hf y ss ltac:(by right))
                 ltac:(by eapply Forall_impl; [exact Hl|];
                       intros; rewrite length_alter))).
  done.
Qed.

Lemma update_stream_alter s f st :
  s < length (streams st) →
  update_stream s f st = Ok tt (put_streams (alter f s (streams st)) st).
Proof.
  intros Hs. unfold update_stream, get_stream, mbind, M_bind.
  destruct (lookup_lt_is_Some_2 _ _ Hs) as [r Hr]. rewrite Hr. simpl.
  unfold modify, with_streams, put_streams. do 2 f_equal.
  apply list_eq. intros i. destruct (decide (i = s)) as [->|Hne].
  - rewrite list_lookup_insert_eq by done.
    by rewrite list_lookup_alter_eq, Hr.
  - rewrite list_lookup_insert_ne by done.
    by rewrite list_lookup_alter_ne.
Qed.

(** Looking up a stream after a loop of rewrites. *)
Lemma lookup_foldl_alter_notin {A} (s : A → nat) (u : A → stream → stream)
      (l : list A) (ss0 : list stream) k :
  (∀ x, x ∈ l → s x ≠ k) →
  foldl (λ ss x, alter (u x) (s x) ss) ss0 l !! k = ss0 !! k.
Proof.
  revert ss0. induction l as [|x l IH]; intros ss0 Hk; simpl; [done|].
  rewrite IH by (intros; apply Hk; by right).
  rewrite list_lookup_alter_ne; [done|]. apply Hk. by left.
Qed.

Lemma length_foldl_alter {A} (s : A → nat) (u : A → stream → stream)
      (l : list A) (ss0 : list stream) :
  length (foldl (λ ss x, alter (u x) (s x) ss) ss0 l) = length ss0.
Proof.
  revert ss0. induction l as [|x l IH]; intros ss0; simpl; [done|].
  by rewrite IH, length_alter.
Qed.

(** A property of records that every rewrite of the loop preserves. *)
Lemma lookup_foldl_alter_inv {A} (s : A → nat) (u : A → stream → stream)
      (P : stream → stream → Prop) (l : list A) (ss0 : list stream) k r :
  (∀ r, P r r) →
  (∀ x r r', P r r' → P r (u x r')) →
  ss0 !! k = Some r →
  ∃ r', foldl (λ ss x, alter (u x) (s x) ss) ss0 l !! k = Some r' ∧ P r r'.
Proof.
  intros Hrefl Hstep. revert ss0 r. 
  induction l as [|x l IH] using rev_ind; intros ss0 r Hr; simpl.
  - eauto.
  - rewrite foldl_app. simpl.
    destruct (IH _ _ Hr) as (r' & Hr' & HP).
    destruct (decide (s x = k)) as [<-|Hne].
    + rewrite list_lookup_alter_eq, Hr'. simpl. eauto.
    + rewrite list_lookup_alter_ne by done. eauto.
Qed.

Lemma lookup_foldl_alter_in {A} (s : A → nat) (u : A → stream → stream)
      (l : list A) (ss0 : list stream) x :
  NoDup (s <$> l) → x ∈ l →
  foldl (λ ss x, alter (u x) (s x) ss) ss0 l !! s x = u x <$> ss0 !! s x.
Proof.
  revert ss0. induction l as [|y l IH]; intros ss0 Hnd Hx.
  - by apply elem_of_nil in Hx.
  - rewrite fmap_cons in Hnd. apply NoDup_cons in Hnd as [Hy Hnd]. simpl.
    apply elem_of_cons in Hx as [->|Hx].
    + rewrite lookup_foldl_alter_notin.
      * by rewrite list_lookup_alter_eq.
      * intros z Hz Heq. apply Hy. rewrite <- Heq.
        by apply list_elem_of_fmap_2.
    + rewrite IH by done. rewrite list_lookup_alter_ne; [done|].
      intros Heq. apply Hy. rewrite Heq. by apply list_elem_of_fmap_2.
Qed.

Lemma alter_all_new f (ss0 news : list stream) :
  alter_all f (seq (length ss0) (length news)) (ss0 ++ news)
  = ss0 ++ (f <$> news).
Proof.
  apply list_eq. intros k. unfold alter_all.
  destruct (decide (k < length ss0)) as [Hk|Hk].
  - rewrite (lookup_foldl_alter_notin id (λ _, f)).
    + by rewrite !lookup_app_l by done.
    + intros x Hx. apply elem_of_seq in Hx. unfold id. lia.
  - destruct (decide (k < length ss0 + length news)) as [Hk'|Hk'].
    + pose proof (lookup_foldl_alter_in id (λ _, f)
                    (seq (length ss0) (length news)) (ss0 ++ news) k) as H.
      unfold id in H. rewrite H.
      * rewrite !lookup_app_r by lia. by rewrite list_lookup_fmap.
      * rewrite list_fmap_id. apply NoDup_seq.
      * apply elem_of_seq. lia.
    + rewrite !lookup_ge_None_2; [done| |].
      * rewrite length_app, length_fmap. lia.
      * rewrite (length_foldl_alter id (λ _, f)), length_app. lia.
Qed.

(** ** Allocating objects *)

Lemma update_obj_ok o f st r :
  objs st !! o = Some r →
  update_obj o f st = Ok tt (put_objs (<[o := f r]> (objs st)) st).
Proof.
  intros H. unfold update_obj, get_obj, mbind, M_bind. by rewrite H.
Qed.

Lemma get_obj_ok o st r : objs st !! o = Some r → get_obj o st = Ok r st.
Proof. intros H. unfold get_obj. by rewrite H. Qed.

Lemma PyoObject__init___ok st mul add :
  host_running st →
  PyoObject__init__ mul add st
  = Ok (length (objs st))
       (put_objs (objs st ++ [mkObj [] 1 [] PNone mul add ∅ ∅ ∅ ∅]) st).
Proof.
  intros [Hc Hb]. destruct st as [os ss lg sc sb]. simpl in *. subst.
  unfold PyoObject__init__, PyoObjectBase__init__, alloc_obj, update_obj,
    get_obj, gets, modify, mbind, M_bind, mret, M_ret, put_objs, with_objs.
  simpl. rewrite lookup_snoc. simpl. by rewrite insert_snoc.
Qed.

Lemma store_attr_new os r k v st :
  objs st = os ++ [r] →
  store_attr (length os) k v st
  = Ok tt (put_objs (os ++ [set_attrs (<[k := v]> (attrs r)) r]) st).
Proof.
  intros H. unfold store_attr.
  rewrite (update_obj_ok _ _ _ r) by (rewrite H; apply lookup_snoc).
  by rewrite H, insert_snoc.
Qed.

Lemma base_of_app_l st os o :
  o < length (objs st) →
  base_of (put_objs (objs st ++ os) st) o = base_of st o.
Proof. intros H. unfold base_of. simpl. by rewrite lookup_app_l. Qed.

Lemma Dummy_fill_ok st0 st l acc :
  (∀ o, PObj CDummy o ∈ l → o < length (objs st0)) →
  (∀ o, o < length (objs st0) → objs st !! o = objs st0 !! o) →
  Dummy_fill l acc st = Ok (acc ++ flattened st0 l) st.
Proof.
  intros Hl Hst. revert acc.
  induction l as [|x l IH]; intros acc; simpl.
  - unfold flattened. simpl. by rewrite app_nil_r.
  - unfold flattened in *. rewrite fmap_cons. simpl.
    assert (Hl' : ∀ o, PObj CDummy o ∈ l → o < length (objs st0))
      by (intros; apply Hl; by right).
    destruct (isDummy x) eqn:Hd.
    + destruct x as [| | | | | | |c o| | | | | | |]; try done.
      destruct c; try done. simpl.
      assert (Ho : o < length (objs st0)) by (apply Hl; left).
      destruct (lookup_lt_is_Some_2 _ _ Ho) as [r Hr].
      unfold get_obj, mbind, M_bind at 1 2. rewrite Hst, Hr by done.
      simpl. rewrite IH by done. unfold base_of. rewrite Hr. simpl.
      by rewrite app_assoc.
    + rewrite IH by done. rewrite <- app_assoc.
      destruct x as [| | | | | | |c o| | | | | | |]; try done.
      by destruct c.
Qed.

Lemma Dummy__init___ok st l :
  host_running st →
  (∀ o, PObj CDummy o ∈ l → o < length (objs st)) →
  Dummy__init__ l st
  = Ok (PObj CDummy (length (objs st)))
       (put_objs (objs st ++ [dummy_obj l (flattened st l)]) st).
Proof.
  intros Hh Hl. unfold Dummy__init__.
  erewrite bind_Ok by (by apply PyoObject__init___ok).
  erewrite bind_Ok by (by apply store_attr_new).
  simpl. rewrite insert_empty.
  erewrite bind_Ok.
  2:{ apply (Dummy_fill_ok st); [done|].
      intros o Ho. simpl. by rewrite lookup_app_l. }
  erewrite bind_Ok by (apply update_obj_ok; simpl; apply lookup_snoc).
  simpl. unfold mret, M_ret, put_objs. simpl.
  by rewrite insert_snoc.
Qed.

Lemma flattened_streams st (sids : list nat) :
  flattened st (PStream <$> sids) = PStream <$> sids.
Proof.
  unfold flattened. induction sids as [|s l IH]; [done|].
  rewrite !fmap_cons. simpl. by rewrite IH.
Qed.

(** ** Passing the validator *)

Lemma scan_args_ok name format i args :
  (∀ k arg, args !! k = Some arg →
     ∃ f, String.get (i + k) format = Some f ∧ expected_for f arg = "") →
  scan_args name format i args = None.
Proof.
  revert i. induction args as [|arg rest IH]; intros i H; [done|].
  cbn [scan_args].
  destruct (H 0 arg eq_refl) as (f & Hf & He).
  rewrite Nat.add_0_r in Hf. rewrite Hf, He. cbn [String.eqb].
  apply IH. intros k a Ha.
  destruct (H (S k) a Ha) as (f' & Hf' & He').
  exists f'. split; [|done]. by rewrite <- Hf', Nat.add_succ_r.
Qed.

Lemma assert_args_ok name format args st :
  (∀ k arg, args !! k = Some arg →
     ∃ f, String.get k format = Some f ∧ expected_for f arg = "") →
  assert_args name format args st = Ok tt st.
Proof.
  intros H. unfold assert_args, pyoArgsAssert.
  by rewrite scan_args_ok.
Qed.

(** Discharges the premise of [assert_args_ok] for a concrete format and
    argument list; arguments that are variables are looked up among the
    hypotheses. *)
Ltac solve_args :=
  let k := fresh "k" in
  let arg := fresh "arg" in
  let H := fresh "H" in
  intros k arg H;
  repeat (destruct k as [|k];
          [injection H as <-; eexists; split; [reflexivity|];
           first [assumption | reflexivity]|]);
  discriminate H.

(** ** Composites are flat *)

Lemma contribution_flat st x :
  flat_store st → Forall (λ y, isDummy y = false) (contribution st x).
Proof.
  intros Hflat. unfold contribution, base_of.
  destruct x as [| | | | | | |c o| | | | | | |];
    try (by apply Forall_singleton).
  destruct c; try (by apply Forall_singleton).
  destruct (objs st !! o) as [r|] eqn:Hr; simpl; [|done].
  by eapply Hflat.
Qed.

Lemma flattened_flat st l :
  flat_store st → Forall (λ y, isDummy y = false) (flattened st l).
Proof.
  intros Hflat. unfold flattened. induction l as [|x l IH]; simpl; [done|].
  apply Forall_app. split; [by apply contribution_flat|done].
Qed.

(** C9: [Dummy(objs_list)] builds its stream list by replacing, in place,
    every element that is a composite by that composite's base objects
    and keeping every other element; no existing object changes, and when
    the composites of the store are flat the new one is flat too, and so
    is the store afterwards. *)
Theorem Dummy_flattens_one_level st objs_list :
  host_running st →
  (∀ o, PObj CDummy o ∈ objs_list → o < length (objs st)) →
  ∃ st',
    Dummy__init__ objs_list st = Ok (PObj CDummy (length (objs st))) st'
    ∧ base_of st' (length (objs st))
      = concat (contribution st <$> objs_list)
    ∧ (∀ o, o < length (objs st) → objs st' !! o = objs st !! o)
    ∧ (flat_store st →
       Forall (λ x, isDummy x = false) (base_of st' (length (objs st)))
       ∧ flat_store st').
Proof.
  intros Hh Hl. eexists. split; [by apply Dummy__init___ok|].
  split; [|split].
  - unfold base_of. simpl. by rewrite lookup_snoc.
  - intros o Ho. simpl. by rewrite lookup_app_l.
  - intros Hflat. split.
    + unfold base_of. simpl. rewrite lookup_snoc. simpl.
      by apply flattened_flat.
    + intros o r. simpl. intros Hr.
      apply lookup_app_Some in Hr as [Hr|[_ Hr]]; [by eapply Hflat|].
      destruct (o - length (objs st)); simpl in Hr; [|done].
      simplify_eq. simpl. by apply flattened_flat.
Qed.

Lemma Dummy_flattens_one_level_witness :
  ∃ st',
    Dummy__init__ [PObj CDummy 0; PStream 4; PObj CGeneric 1]
      (put_objs [dummy_obj [PStream 0; PStream 1] [PStream 0; PStream 1];
                 generic_obj [2; 3]] example_state)
    = Ok (PObj CDummy 2) st'
    ∧ base_of st' 2
      = [PStream 0; PStream 1; PStream 4; PObj CGeneric 1]
    ∧ (∀ o, o < 2 → objs st' !! o
                     = [dummy_obj [PStream 0; PStream 1]
                                  [PStream 0; PStream 1];
                        generic_obj [2; 3]] !! o)
    ∧ (flat_store
         (put_objs [dummy_obj [PStream 0; PStream 1] [PStream 0; PStream 1];
                    generic_obj [2; 3]] example_state) →
       Forall (λ x, isDummy x = false) (base_of st' 2) ∧ flat_store st').
Proof.
  apply (Dummy_flattens_one_level
           (put_objs [dummy_obj [PStream 0; PStream 1] [PStream 0; PStream 1];
                      generic_obj [2; 3]] example_state)
           [PObj CDummy 0; PStream 4; PObj CGeneric 1]).
  - split; reflexivity.
  - intros o Ho. simpl.
    apply elem_of_cons in Ho as [Ho|Ho]; [injection Ho as ->; lia|].
    apply elem_of_cons in Ho as [Ho|Ho]; [discriminate|].
    apply elem_of_cons in Ho as [Ho|Ho]; [discriminate|].
    by apply elem_of_nil in Ho.
Defined.

(** ** Starting and stopping a bundle *)

Lemma snd_enumerate {A} (l : list A) : snd <$> enumerate l = l.
Proof.
  apply list_eq. intros i. unfold enumerate.
  rewrite list_lookup_fmap, list_lookup_imap.
  by destruct (l !! i).
Qed.

Lemma sid_of_streams (sids : list nat) : sid_of <$> (PStream <$> sids) = sids.
Proof. rewrite <- list_fmap_compose. apply list_fmap_id. Qed.

Lemma elem_of_enumerate {A} (l : list A) i x :
  (i, x) ∈ enumerate l ↔ l !! i = Some x.
Proof.
  unfold enumerate. rewrite elem_of_lookup_imap. split.
  - by intros (j & y & [= -> ->] & H).
  - intros H. eauto.
Qed.

Lemma foldl_alter_enumerate (f : stream → stream) (sids : list nat)
      (ss0 : list stream) :
  foldl (λ ss (x : nat * pyval), alter f (sid_of x.2) ss) ss0
        (enumerate (PStream <$> sids))
  = alter_all f sids ss0.
Proof.
  unfold alter_all.
  rewrite <- (sid_of_streams sids) at 2.
  rewrite <- (snd_enumerate (PStream <$> sids)) at 2.
  by rewrite !foldl_fmap.
Qed.

Lemma wrap_scalar st x k :
  isPyoObjectBase x = false →
  wrap (PList [x]) k st = Ok x st.
Proof.
  intros Hx. rewrite (wrap_ok st (PList [x]) [x] k).
  - unfold wrap_at. cbn [length]. by rewrite Nat.mod_1_r.
  - unfold items_of. simpl. by destruct x.
  - done.
Qed.

Lemma PyoObject_play_ok c o st r sids :
  objs st !! o = Some r →
  _base_objs r = PStream <$> sids →
  Forall (λ s, s < length (streams st)) sids →
  PyoObject_play c o (PInt 0) (PInt 0) st
  = Ok (PObj c o)
       (put_streams (alter_all (s_set_playing true) sids (streams st)) st).
Proof.
  intros Hr Hb Hs. unfold PyoObject_play.
  erewrite bind_Ok by reflexivity.
  erewrite bind_Ok by reflexivity.
  simpl. erewrite bind_Ok by (by apply get_obj_ok).
  rewrite Hb. rewrite <- (put_streams_id st) at 1.
  erewrite bind_Ok.
  2:{ apply (mapM_update_from _ (λ x, sid_of x.2)
               (λ _, s_set_playing true) (λ _, tt)).
      - intros [i obj] ss Hin Hlt.
        apply elem_of_enumerate in Hin.
        rewrite list_lookup_fmap in Hin.
        destruct (sids !! i) as [s|]; simpl in Hin; [|done].
        simplify_eq. simpl in *.
        erewrite bind_Ok by (by apply wrap_scalar).
        erewrite bind_Ok by (by apply wrap_scalar).
        unfold base_play, on_stream. cbn [is_number andb starts_now Z.eqb].
        by rewrite update_stream_alter.
      - apply Forall_forall. intros [i obj] Hin.
        apply elem_of_enumerate in Hin.
        rewrite list_lookup_fmap in Hin.
        destruct (sids !! i) as [s|] eqn:Hi; simpl in Hin; [|done].
        simplify_eq. simpl.
        eapply Forall_forall in Hs; [exact Hs|].
        by eapply list_elem_of_lookup_2. }
  by rewrite foldl_alter_enumerate.
Qed.

Lemma PyoObject_stop_ok c o st r sids :
  objs st !! o = Some r →
  _base_objs r = PStream <$> sids →
  Forall (λ s, s < length (streams st)) sids →
  PyoObject_stop c o st
  = Ok (PObj c o)
       (put_streams (alter_all (s_set_playing false) sids (streams st)) st).
Proof.
  intros Hr Hb Hs. unfold PyoObject_stop.
  erewrite bind_Ok by (by apply get_obj_ok).
  rewrite Hb. rewrite <- (put_streams_id st) at 1.
  erewrite bind_Ok.
  2:{ apply (mapM_update_from _ sid_of
               (λ _, s_set_playing false) (λ _, tt)).
      - intros obj ss Hin Hlt.
        apply list_elem_of_fmap in Hin as (s & -> & Hin). simpl in *.
        unfold base_stop, on_stream.
        by rewrite update_stream_alter.
      - apply Forall_fmap. by eapply Forall_impl; [exact Hs|]. }
  unfold alter_all. by rewrite foldl_fmap.
Qed.

(** ** Broadcasting arithmetic *)

Lemma arith_streams_enumerate op d items (sids : list nat) :
  (λ x : nat * pyval,
     fresh_stream (KArith op (sid_of x.2) (wrap_at items (x.1 / d)))
                  (PFloat 1) (PFloat 0) true)
    <$> enumerate (PStream <$> sids)
  = arith_streams op d items sids.
Proof.
  apply list_eq. intros i. unfold arith_streams, enumerate.
  rewrite list_lookup_fmap, !list_lookup_imap, list_lookup_fmap.
  by destruct (sids !! i).
Qed.

Lemma no_dummy_in_streams (l : list nat) o :
  PObj CDummy o ∈ PStream <$> l → o < 0.
Proof. intros H. apply list_elem_of_fmap in H as (s & Hs & _). done. Qed.

Lemma floordiv_ok i d st : 1 ≤ d → floordiv i d st = Ok (i / d) st.
Proof. intros Hd. unfold floordiv. destruct d; [lia|done]. Qed.

(** What the engine accepts as the other operand. *)
Lemma engine_operand_streams (sids : list nat) :
  Forall (λ y, engine_operand y = true) (PStream <$> sids).
Proof. apply Forall_fmap, Forall_forall. by intros. Qed.

Lemma engine_operand_numbers l :
  Forall (λ y, is_number y = true) l →
  Forall (λ y, engine_operand y = true) l.
Proof.
  intros H. eapply Forall_impl; [exact H|].
  intros y Hy. unfold engine_operand. by rewrite Hy.
Qed.

Lemma wrap_at_Forall (P : pyval → Prop) items k :
  items ≠ [] → Forall P items → P (wrap_at items k).
Proof.
  intros Hne HP. unfold wrap_at.
  assert (Hk : k mod length items < length items).
  { apply Nat.mod_upper_bound. by destruct items. }
  destruct (lookup_lt_is_Some_2 _ _ Hk) as [y Hy]. rewrite Hy.
  eapply Forall_forall; [exact HP|]. by eapply list_elem_of_lookup_2.
Qed.

Lemma base_arith_ok op s x st :
  engine_operand x = true →
  base_arith op (PStream s) x st
  = Ok (PStream (length (streams st)))
       (put_streams
          (streams st
           ++ [fresh_stream (KArith op s x) (PFloat 1) (PFloat 0) true]) st).
Proof. intros Hx. unfold base_arith. by rewrite Hx. Qed.

(** The branch [len(self) >= lmax] of the binary operators. *)
Lemma PyoObject_arith_self_longer fuel op c o x st r sids items :
  host_running st →
  objs st !! o = Some r →
  _base_objs r = PStream <$> sids →
  1 ≤ _op_duplicate r →
  items_of (objs st) (to_list_form x) = Some items →
  items ≠ [] →
  Forall (λ y, engine_operand y = true) items →
  length items ≤ length sids →
  PyoObject_arith (S fuel) op c o x st
  = Ok (PObj CDummy (length (objs st)))
       (mkState
          (<[o := set_keep_trace
                    (_keep_trace r ++ [PObj CDummy (length (objs st))]) r]>
             (objs st
              ++ [dummy_obj
                    (PStream <$> seq (length (streams st)) (length sids))
                    (PStream <$> seq (length (streams st)) (length sids))]))
          (streams st ++ arith_streams op (_op_duplicate r) items sids)
          (log st) (server_created st) (server_booted st)).
Proof.
  intros Hh Hr Hb Hd Hit Hne Hval Hle. cbn [PyoObject_arith].
  pose proof (length_items_of _ _ _ Hit) as Hlen.
  erewrite bind_Ok by (by apply convertArgsToLists_1).
  cbn beta iota zeta. change ([to_list_form x] !!! 0) with (to_list_form x).
  erewrite bind_Ok by (by apply get_obj_ok).
  rewrite Hb, length_fmap.
  destruct (Nat.leb_spec (length items) (length sids)) as [_|]; [|lia].
  cbn beta iota.
  erewrite bind_Ok.
  2:{ erewrite bind_Ok.
      2:{ apply (mapM_alloc _
                   (λ x : nat * pyval,
                      fresh_stream
                        (KArith op (sid_of x.2)
                                (wrap_at items (x.1 / _op_duplicate r)))
                        (PFloat 1) (PFloat 0) true)).
          intros [i obj] ss Hin. apply elem_of_enumerate in Hin.
          rewrite list_lookup_fmap in Hin.
          destruct (sids !! i) as [s|]; simpl in Hin; [|done].
          simplify_eq.
          erewrite bind_Ok by (by apply floordiv_ok).
          erewrite bind_Ok by (by apply wrap_ok).
          cbn [snd sid_of fst].
          rewrite base_arith_ok by (by apply wrap_at_Forall).
          reflexivity. }
      apply Dummy__init___ok; [done|].
      intros o' Ho'. apply no_dummy_in_streams in Ho'. lia. }
  rewrite arith_streams_enumerate, flattened_streams.
  unfold enumerate. rewrite length_imap, length_fmap.
  assert (Ho : o < length (objs st)) by (by eapply lookup_lt_Some).
  erewrite bind_Ok.
  2:{ apply (update_obj_ok _ _ _ r). simpl. by rewrite lookup_app_l. }
  destruct Hh as [Hc Hbt]. destruct st; simpl in *. by subst.
Qed.

Lemma stream_bundle_inv st o ss :
  stream_bundle st o ss →
  ∃ r, objs st !! o = Some r
       ∧ _base_objs r = PStream <$> ss
       ∧ ss ≠ []
       ∧ Forall (λ s, s < length (streams st)) ss
       ∧ 1 ≤ _op_duplicate r
       ∧ dup_of st o = _op_duplicate r.
Proof.
  intros ([r Hr] & Hb & Hne & Hv & Hd). exists r.
  unfold base_of, dup_of in *. rewrite Hr in *. simpl in *. done.
Qed.

Lemma mapM_first_of_streams os (sids : list nat) :
  mapM (first_of os) (PStream <$> sids) = Some (PStream <$> sids).
Proof.
  induction sids as [|s l IH]; [done|].
  rewrite fmap_cons. cbn. rewrite IH. done.
Qed.

Lemma items_of_bundle os c o r sids :
  os !! o = Some r →
  _base_objs r = PStream <$> sids →
  items_of os (PObj c o) = Some (PStream <$> sids).
Proof.
  intros Hr Hb. unfold items_of. cbn. rewrite Hr. cbn. rewrite Hb.
  apply mapM_first_of_streams.
Qed.

Lemma wrap_at_streams (sids : list nat) k :
  sids ≠ [] →
  ∃ y, sids !! (k mod length sids) = Some y
       ∧ wrap_at (PStream <$> sids) k = PStream y.
Proof.
  intros Hne. unfold wrap_at. rewrite length_fmap, list_lookup_fmap.
  destruct (lookup_lt_is_Some_2 sids (k mod length sids)) as [y Hy].
  - apply Nat.mod_upper_bound. by destruct sids.
  - exists y. by rewrite Hy.
Qed.

Lemma fmap_nil_inv_ne {A B} (f : A → B) (l : list A) : l ≠ [] → f <$> l ≠ [].
Proof. by destruct l. Qed.

(** [wrap] on a list element that is a bundle returns the bundle's
    first stream. *)
Lemma wrap_bundle_element st l k c o s :
  l !! (k mod length l) = Some (PObj c o) →
  base_of st o !! 0 = Some s →
  wrap (PList l) k st = Ok s st.
Proof.
  intros Hl Hs. unfold wrap. cbn [len]. unfold mbind, M_bind, mret, M_ret.
  destruct (length l) as [|n] eqn:Hn.
  { destruct l; [done|discriminate]. }
  rewrite <- Hn in Hl |- *. cbn [getitem]. rewrite Hl. cbn.
  unfold PyoObjectBase__getitem__, get_obj, mbind, M_bind.
  unfold base_of in Hs. destruct (objs st !! o) as [r|]; simpl in *; [|done].
  by rewrite Hs.
Qed.

(** C1: for bundles [A] (streams [sA]) and [B] (streams [sB]), [A + B]
    returns a new composite with [max (length sA) (length sB)] fresh
    streams.  When [A] is at least as long, stream [i] is
    [sA[i] + sB[(i // op_duplicate) mod length sB]] with [A]'s duplication
    factor; when [B] is longer the sum is delegated to [B + A].  The
    composite is appended to [A]'s trace.  A list element that is a bundle
    is replaced by its first stream when [wrap] returns it. *)
Theorem add_bundles st cA oA sA cB oB sB :
  host_running st →
  stream_bundle st oA sA →
  stream_bundle st oB sB →
  audio_class cB = true →
  ∃ st',
    PyoObject__add__ cA oA (PObj cB oB) st
    = Ok (PObj CDummy (length (objs st))) st'
    ∧ length (objs st') = S (length (objs st))
    ∧ base_of st' (length (objs st))
      = PStream <$> seq (length (streams st))
                        (max (length sA) (length sB))
    ∧ length (base_of st' (length (objs st)))
      = max (length sA) (length sB)
    ∧ (length sB ≤ length sA →
       ∀ i x, sA !! i = Some x →
         ∃ y, sB !! ((i / dup_of st oA) mod length sB) = Some y
              ∧ kind_of st' (length (streams st) + i)
                = Some (KArith Add x (PStream y)))
    ∧ (length sA < length sB →
       ∀ i y, sB !! i = Some y →
         ∃ x, sA !! ((i / dup_of st oB) mod length sA) = Some x
              ∧ kind_of st' (length (streams st) + i)
                = Some (KArith Add y (PStream x)))
    ∧ (∃ r, objs st' !! oA = Some r
            ∧ PObj CDummy (length (objs st)) ∈ _keep_trace r
            ∧ _base_objs r = PStream <$> sA)
    ∧ (∀ l k c o s,
         l !! (k mod length l) = Some (PObj c o) →
         base_of st o !! 0 = Some s →
         wrap (PList l) k st = Ok s st).
Proof.
  intros Hh HA HB HcB.
  destruct (stream_bundle_inv _ _ _ HA) as (rA & HrA & HbA & HneA & _ & HdA & HdupA).
  destruct (stream_bundle_inv _ _ _ HB) as (rB & HrB & HbB & HneB & _ & HdB & HdupB).
  pose proof (lookup_lt_Some _ _ _ HrA) as HoA.
  pose proof (lookup_lt_Some _ _ _ HrB) as HoB.
  rewrite HdupA, HdupB.
  destruct (decide (length sB ≤ length sA)) as [Hle|Hgt].
  - (* A is at least as long *)
    eexists. split.
    { unfold PyoObject__add__.
      apply (PyoObject_arith_self_longer 1 Add cA oA (PObj cB oB) st rA sA
               (PStream <$> sB)); try done.
      - by eapply items_of_bundle.
      - by apply fmap_nil_inv_ne.
      - apply engine_operand_streams.
      - by rewrite length_fmap. }
    rewrite Nat.max_l by done.
    split; [|split; [|split; [|split; [|split; [|split]]]]].
    + cbn. by rewrite length_insert, length_app, Nat.add_1_r.
    + unfold base_of. cbn.
      rewrite list_lookup_insert_ne by lia. by rewrite lookup_snoc.
    + unfold base_of. cbn.
      rewrite list_lookup_insert_ne by lia. rewrite lookup_snoc. cbn.
      by rewrite length_fmap, length_seq.
    + intros _ i x Hx.
      destruct (wrap_at_streams sB (i / _op_duplicate rA) HneB)
        as (y & Hy & Hw).
      exists y. split; [done|]. unfold kind_of. cbn.
      rewrite lookup_app_r by lia.
      replace (length (streams st) + i - length (streams st)) with i by lia.
      unfold arith_streams. rewrite list_lookup_imap, Hx. cbn.
      by rewrite Hw.
    + intros Hlt. lia.
    + exists (set_keep_trace
                (_keep_trace rA ++ [PObj CDummy (length (objs st))]) rA).
      cbn. split; [|split; [|done]].
      * rewrite list_lookup_insert_eq; [done|]. rewrite length_app. lia.
      * apply elem_of_app. right. by left.
    + intros. by eapply wrap_bundle_element.
  - (* B is longer: [x + self] *)
    assert (Hlt : length sA < length sB) by lia.
    assert (Hne : oA ≠ oB).
    { intros ->. simplify_eq. rewrite HbA in HbB.
      apply (f_equal length) in HbB. rewrite !length_fmap in HbB. lia. }
    eexists. split.
    { unfold PyoObject__add__. cbn [PyoObject_arith].
      erewrite bind_Ok.
      2:{ apply convertArgsToLists_1. cbn. by rewrite HrB. }
      cbn beta iota zeta.
      change ([to_list_form (PObj cB oB)] !!! 0) with (PObj cB oB).
      erewrite bind_Ok by (by apply get_obj_ok).
      rewrite HbA, HbB, !length_fmap.
      destruct (Nat.leb_spec (length sB) (length sA)) as [|_]; [lia|].
      cbn [isPyoObject commutes]. rewrite HcB. cbn beta iota.
      erewrite bind_Ok.
      2:{ apply (PyoObject_arith_self_longer 0 Add cB oB (PObj cA oA) st rB
                   sB (PStream <$> sA)); try done.
          - by eapply items_of_bundle.
          - by apply fmap_nil_inv_ne.
          - apply engine_operand_streams.
          - rewrite length_fmap. lia. }
      erewrite bind_Ok.
      2:{ apply (update_obj_ok _ _ _ rA). cbn.
          rewrite list_lookup_insert_ne by done. by rewrite lookup_app_l. }
      reflexivity. }
    rewrite Nat.max_r by lia.
    split; [|split; [|split; [|split; [|split; [|split]]]]].
    + cbn. by rewrite !length_insert, length_app, Nat.add_1_r.
    + unfold base_of. cbn.
      rewrite !list_lookup_insert_ne by lia. by rewrite lookup_snoc.
    + unfold base_of. cbn.
      rewrite !list_lookup_insert_ne by lia. rewrite lookup_snoc. cbn.
      by rewrite length_fmap, length_seq.
    + intros Hle. lia.
    + intros _ i y Hy.
      destruct (wrap_at_streams sA (i / _op_duplicate rB) HneA)
        as (x & Hx & Hw).
      exists x. split; [done|]. unfold kind_of. cbn.
      rewrite lookup_app_r by lia.
      replace (length (streams st) + i - length (streams st)) with i by lia.
      unfold arith_streams. rewrite list_lookup_imap, Hy. cbn.
      by rewrite Hw.
    + exists (set_keep_trace
                (_keep_trace rA ++ [PObj CDummy (length (objs st))]) rA).
      cbn. split; [|split; [|done]].
      * rewrite list_lookup_insert_eq; [done|].
        rewrite length_insert, length_app. lia.
      * apply elem_of_app. right. by left.
    + intros. by eapply wrap_bundle_element.
Qed.

Ltac solve_host := split; reflexivity.

Ltac solve_bundle :=
  unfold stream_bundle, base_of, dup_of;
  split; [eexists; reflexivity|];
  split; [reflexivity|];
  split; [discriminate|];
  split; [repeat constructor; cbn; lia | cbn; lia].

Lemma add_bundles_witness :
  ∃ st',
    PyoObject__add__ CGeneric 0 (PObj CGeneric 1) example_state
    = Ok (PObj CDummy 2) st'
    ∧ length (base_of st' 2) = 3
    ∧ kind_of st' 7 = Some (KArith Add 2 (PStream 3)).
Proof.
  destruct (add_bundles example_state CGeneric 0 [0; 1; 2] CGeneric 1 [3; 4]
              ltac:(solve_host) ltac:(solve_bundle) ltac:(solve_bundle)
              eq_refl)
    as (st' & Hrun & _ & _ & Hlen & Hge & _).
  exists st'. split; [exact Hrun|]. split; [exact Hlen|].
  destruct (Hge ltac:(cbn; lia) 2 2 eq_refl) as (y & Hy & Hk).
  cbn in Hy. injection Hy as <-. exact Hk.
Defined.

Lemma items_of_stream_list os (sids : list nat) :
  items_of os (PList (PStream <$> sids)) = Some (PStream <$> sids).
Proof. unfold items_of. cbn. apply mapM_first_of_streams. Qed.

Lemma base_arith_wrapped op (sids : list nat) i x st :
  sids ≠ [] →
  engine_operand x = true →
  base_arith op (wrap_at (PStream <$> sids) i) x st
  = Ok (PStream (length (streams st)))
       (put_streams
          (streams st
           ++ [fresh_stream
                 (KArith op (sid_of (wrap_at (PStream <$> sids) i)) x)
                 (PFloat 1) (PFloat 0) true]) st).
Proof.
  intros Hne Hx. destruct (wrap_at_streams sids i Hne) as (y & _ & ->).
  by apply base_arith_ok.
Qed.

Lemma arith_streams_wrapped_enumerate op (sids : list nat) (l : list pyval) :
  (λ x : nat * pyval,
     fresh_stream (KArith op (sid_of (wrap_at (PStream <$> sids) x.1)) x.2)
                  (PFloat 1) (PFloat 0) true) <$> enumerate l
  = arith_streams_wrapped op sids l.
Proof.
  apply list_eq. intros i. unfold arith_streams_wrapped, enumerate.
  rewrite list_lookup_fmap, !list_lookup_imap.
  by destruct (l !! i).
Qed.

Lemma arith_streams_wrapped_seq op (sids : list nat) items n :
  n = length items →
  (λ i, fresh_stream
          (KArith op (sid_of (wrap_at (PStream <$> sids) i))
                  (wrap_at items i))
          (PFloat 1) (PFloat 0) true) <$> seq 0 n
  = arith_streams_wrapped op sids items.
Proof.
  intros ->. apply list_eq. intros i. unfold arith_streams_wrapped.
  rewrite list_lookup_fmap, list_lookup_imap.
  destruct (items !! i) as [x|] eqn:Hx.
  - pose proof (lookup_lt_Some _ _ _ Hx) as Hlt.
    rewrite lookup_seq_lt by done. cbn. unfold wrap_at at 2.
    by rewrite Nat.mod_small, Hx by done.
  - apply lookup_ge_None in Hx. by rewrite lookup_seq_ge.
Qed.

(** The branch for a plain list longer than [self]. *)
Lemma PyoObject_arith_list_longer fuel op c o l st r sids :
  host_running st →
  objs st !! o = Some r →
  _base_objs r = PStream <$> sids →
  sids ≠ [] →
  Forall (λ y, engine_operand y = true) l →
  length sids < length l →
  PyoObject_arith (S fuel) op c o (PList l) st
  = Ok (PObj CDummy (length (objs st)))
       (after_arith st o r (length l) (arith_streams_wrapped op sids l)).
Proof.
  intros Hh Hr Hb Hne Hval Hlt. cbn [PyoObject_arith].
  erewrite bind_Ok by (by apply convertArgsToLists_1).
  cbn beta iota zeta. change ([to_list_form (PList l)] !!! 0) with (PList l).
  erewrite bind_Ok by (by apply get_obj_ok).
  rewrite Hb, length_fmap.
  destruct (Nat.leb_spec (length l) (length sids)) as [|_]; [lia|].
  cbn [isPyoObject]. cbn beta iota.
  erewrite bind_Ok.
  2:{ erewrite bind_Ok by reflexivity.
      erewrite bind_Ok.
      2:{ apply (mapM_alloc _
                   (λ x : nat * pyval,
                      fresh_stream
                        (KArith op (sid_of (wrap_at (PStream <$> sids) x.1))
                                x.2)
                        (PFloat 1) (PFloat 0) true)).
          intros [i obj] ss Hin.
          assert (Hobj : engine_operand obj = true).
          { apply elem_of_enumerate in Hin.
            eapply (Forall_forall (λ y, engine_operand y = true));
              [exact Hval|]. by eapply list_elem_of_lookup_2. }
          erewrite bind_Ok.
          2:{ apply wrap_ok; [apply items_of_stream_list|].
              by apply fmap_nil_inv_ne. }
          rewrite base_arith_wrapped by done. reflexivity. }
      apply Dummy__init___ok; [done|].
      intros o' Ho'. apply no_dummy_in_streams in Ho'. lia. }
  rewrite arith_streams_wrapped_enumerate, flattened_streams.
  unfold enumerate. rewrite length_imap.
  assert (Ho : o < length (objs st)) by (by eapply lookup_lt_Some).
  erewrite bind_Ok.
  2:{ apply (update_obj_ok _ _ _ r). simpl. by rewrite lookup_app_l. }
  destruct Hh as [Hc Hbt]. destruct st; simpl in *. by subst.
Qed.

(** The branch of [-] and [/] for a bundle longer than [self]. *)
Lemma PyoObject_arith_bundle_longer fuel op c o cx ox st r sids rx xs :
  host_running st →
  commutes op = false →
  audio_class cx = true →
  objs st !! o = Some r →
  _base_objs r = PStream <$> sids →
  sids ≠ [] →
  objs st !! ox = Some rx →
  _base_objs rx = PStream <$> xs →
  length sids < length xs →
  PyoObject_arith (S fuel) op c o (PObj cx ox) st
  = Ok (PObj CDummy (length (objs st)))
       (after_arith st o r (length xs)
          (arith_streams_wrapped op sids (PStream <$> xs))).
Proof.
  intros Hh Hop Hcx Hr Hb Hne Hrx Hbx Hlt. cbn [PyoObject_arith].
  erewrite bind_Ok.
  2:{ apply convertArgsToLists_1. cbn. by rewrite Hrx. }
  cbn beta iota zeta.
  change ([to_list_form (PObj cx ox)] !!! 0) with (PObj cx ox).
  erewrite bind_Ok by (by apply get_obj_ok).
  rewrite Hb, Hbx, !length_fmap.
  destruct (Nat.leb_spec (length xs) (length sids)) as [|_]; [lia|].
  cbn [isPyoObject]. rewrite Hcx, Hop. cbn beta iota.
  assert (Hxne : xs ≠ []) by (destruct xs; [simpl in Hlt; lia|done]).
  erewrite bind_Ok.
  2:{ erewrite bind_Ok.
      2:{ apply (mapM_alloc _
                   (λ i : nat,
                      fresh_stream
                        (KArith op (sid_of (wrap_at (PStream <$> sids) i))
                                (wrap_at (PStream <$> xs) i))
                        (PFloat 1) (PFloat 0) true)).
          intros i ss Hin.
          erewrite bind_Ok.
          2:{ apply wrap_ok; [apply items_of_stream_list|].
              by apply fmap_nil_inv_ne. }
          erewrite bind_Ok.
          2:{ apply wrap_ok; [by eapply items_of_bundle|].
              by apply fmap_nil_inv_ne. }
          rewrite base_arith_wrapped; [reflexivity|done|].
          apply (wrap_at_Forall (λ y, engine_operand y = true));
            [by apply fmap_nil_inv_ne|apply engine_operand_streams]. }
      apply Dummy__init___ok; [done|].
      intros o' Ho'. apply no_dummy_in_streams in Ho'. lia. }
  rewrite arith_streams_wrapped_seq by (by rewrite length_fmap).
  rewrite flattened_streams, length_seq.
  assert (Ho : o < length (objs st)) by (by eapply lookup_lt_Some).
  erewrite bind_Ok.
  2:{ apply (update_obj_ok _ _ _ r). simpl. by rewrite lookup_app_l. }
  destruct Hh as [Hc Hbt]. destruct st; simpl in *. by subst.
Qed.

Lemma PyoObject_arith_self_longer' fuel op c o x st r sids items :
  host_running st →
  objs st !! o = Some r →
  _base_objs r = PStream <$> sids →
  1 ≤ _op_duplicate r →
  items_of (objs st) (to_list_form x) = Some items →
  items ≠ [] →
  Forall (λ y, engine_operand y = true) items →
  length items ≤ length sids →
  PyoObject_arith (S fuel) op c o x st
  = Ok (PObj CDummy (length (objs st)))
       (after_arith st o r (length sids)
          (arith_streams op (_op_duplicate r) items sids)).
Proof. apply PyoObject_arith_self_longer. Qed.

(** The branch of [+] and [*] for a bundle longer than [self]: the work
    is done by [x OP self], then [self] records the composite too. *)
Lemma PyoObject_arith_delegated fuel op c o cx ox st r sids rx xs :
  host_running st →
  commutes op = true →
  audio_class cx = true →
  objs st !! o = Some r →
  _base_objs r = PStream <$> sids →
  sids ≠ [] →
  objs st !! ox = Some rx →
  _base_objs rx = PStream <$> xs →
  1 ≤ _op_duplicate rx →
  length sids < length xs →
  PyoObject_arith (S (S fuel)) op c o (PObj cx ox) st
  = Ok (PObj CDummy (length (objs st)))
       (put_objs
          (<[o := set_keep_trace
                    (_keep_trace r ++ [PObj CDummy (length (objs st))]) r]>
             (objs (after_arith st ox rx (length xs)
                      (arith_streams op (_op_duplicate rx)
                                     (PStream <$> sids) xs))))
          (after_arith st ox rx (length xs)
             (arith_streams op (_op_duplicate rx) (PStream <$> sids) xs))).
Proof.
  intros Hh Hop Hcx Hr Hb Hne Hrx Hbx Hdx Hlt.
  assert (Hox : o ≠ ox).
  { intros ->. simplify_eq. rewrite Hb in Hbx.
    apply (f_equal length) in Hbx. rewrite !length_fmap in Hbx. lia. }
  pose proof (lookup_lt_Some _ _ _ Hr) as Ho.
  remember (S fuel) as fuel' eqn:Hfuel.
  cbn [PyoObject_arith]. subst fuel'.
  erewrite bind_Ok.
  2:{ apply convertArgsToLists_1. cbn. by rewrite Hrx. }
  cbn beta iota zeta.
  change ([to_list_form (PObj cx ox)] !!! 0) with (PObj cx ox).
  erewrite bind_Ok by (by apply get_obj_ok).
  rewrite Hb, Hbx, !length_fmap.
  destruct (Nat.leb_spec (length xs) (length sids)) as [|_]; [lia|].
  cbn [isPyoObject]. rewrite Hcx, Hop. cbn beta iota.
  erewrite bind_Ok.
  2:{ apply (PyoObject_arith_self_longer' fuel op cx ox (PObj c o) st rx
               xs (PStream <$> sids)); try done.
      - by eapply items_of_bundle.
      - by apply fmap_nil_inv_ne.
      - apply engine_operand_streams.
      - rewrite length_fmap. lia. }
  erewrite bind_Ok.
  2:{ apply (update_obj_ok _ _ _ r). cbn.
      rewrite list_lookup_insert_ne by done. by rewrite lookup_app_l. }
  reflexivity.
Qed.

Lemma after_arith_base st o r n news :
  o < length (objs st) →
  base_of (after_arith st o r n news) (length (objs st))
  = PStream <$> seq (length (streams st)) n.
Proof.
  intros Ho. unfold base_of. cbn.
  rewrite list_lookup_insert_ne by lia. by rewrite lookup_snoc.
Qed.

Lemma after_arith_lookup_other st o r n news o' :
  o' ≠ o → o' < length (objs st) →
  objs (after_arith st o r n news) !! o' = objs st !! o'.
Proof.
  intros Hne Hlt. cbn. rewrite list_lookup_insert_ne by done.
  by rewrite lookup_app_l.
Qed.

Lemma after_arith_objs_length st o r n news :
  length (objs (after_arith st o r n news)) = S (length (objs st)).
Proof. cbn. rewrite length_insert, length_app. cbn. lia. Qed.

Lemma after_arith_streams st o r n news :
  streams (after_arith st o r n news) = streams st ++ news.
Proof. done. Qed.

(** An operand with no element makes the first [wrap] divide by zero. *)
Lemma PyoObject_arith_empty fuel op c o x st r sids :
  objs st !! o = Some r →
  _base_objs r = PStream <$> sids →
  sids ≠ [] →
  len_of (objs st) (to_list_form x) = Some 0 →
  PyoObject_arith (S fuel) op c o x st = Raise ZeroDivisionError st.
Proof.
  intros Hr Hb Hne Hlen. cbn [PyoObject_arith].
  erewrite bind_Ok by (by apply convertArgsToLists_1).
  cbn beta iota zeta. change ([to_list_form x] !!! 0) with (to_list_form x).
  erewrite bind_Ok by (by apply get_obj_ok).
  cbn [Nat.leb]. cbn beta iota.
  apply bind_Raise. apply bind_Raise.
  rewrite Hb. destruct sids as [|s sids]; [done|].
  rewrite fmap_cons. unfold enumerate. rewrite imap_cons.
  cbn [mapM]. apply bind_Raise.
  unfold floordiv. destruct (_op_duplicate r); [done|].
  erewrite bind_Ok by reflexivity.
  apply bind_Raise. unfold wrap.
  erewrite bind_Ok by (by apply len_ok). done.
Qed.

Lemma mapM_first_of_numbers os (l : list pyval) :
  Forall (λ x, is_number x = true) l → mapM (first_of os) l = Some l.
Proof.
  induction 1 as [|x l Hx _ IH]; [done|].
  cbn. rewrite IH. by destruct x.
Qed.

Lemma operand_items_valid st x n items :
  operand st x n →
  items_of (objs st) (to_list_form x) = Some items →
  Forall (λ y, engine_operand y = true) items.
Proof.
  intros [x' Hx|l Hne Hl|c o ss Hc Hb] Hit.
  - assert (items = [x']) as ->.
    { destruct x'; try done; unfold items_of in Hit; cbn in Hit;
        by injection Hit. }
    constructor; [|done]. unfold engine_operand. by rewrite Hx.
  - unfold items_of in Hit. cbn in Hit.
    rewrite mapM_first_of_numbers in Hit by done.
    injection Hit as <-. by apply engine_operand_numbers.
  - destruct (stream_bundle_inv _ _ _ Hb) as (r & Hr & Hbo & _).
    cbn [to_list_form] in Hit.
    rewrite (items_of_bundle _ c _ _ _ Hr Hbo) in Hit.
    injection Hit as <-. apply engine_operand_streams.
Qed.

Lemma operand_items st x n :
  operand st x n →
  ∃ items, items_of (objs st) (to_list_form x) = Some items
           ∧ length items = n ∧ items ≠ [].
Proof.
  intros [x' Hx|l Hne Hl|c o ss Hc Hb].
  - exists [x']. by destruct x'.
  - exists l. split; [|done]. unfold items_of. cbn.
    by apply mapM_first_of_numbers.
  - destruct (stream_bundle_inv _ _ _ Hb) as (r & Hr & Hbo & Hne & _).
    exists (PStream <$> ss). rewrite length_fmap.
    split; [by eapply items_of_bundle|]. split; [done|].
    by apply fmap_nil_inv_ne.
Qed.

(** ** In-place operators *)

Lemma elems_of_insert os o r r' x :
  os !! o = Some r → _base_objs r' = _base_objs r →
  elems_of (<[o := r']> os) x = elems_of os x.
Proof.
  intros Hr Hb. destruct x; try done. cbn.
  destruct (decide (o = o0)) as [<-|Hne].
  - rewrite list_lookup_insert_eq by (by eapply lookup_lt_Some).
    rewrite Hr. cbn. by rewrite Hb.
  - by rewrite list_lookup_insert_ne.
Qed.

Lemma first_of_insert os o r r' x :
  os !! o = Some r → _base_objs r' = _base_objs r →
  first_of (<[o := r']> os) x = first_of os x.
Proof.
  intros Hr Hb. destruct x; try done. cbn.
  destruct (decide (o = o0)) as [<-|Hne].
  - rewrite list_lookup_insert_eq by (by eapply lookup_lt_Some).
    rewrite Hr. cbn. by rewrite Hb.
  - by rewrite list_lookup_insert_ne.
Qed.

Lemma items_of_insert os o r r' x :
  os !! o = Some r → _base_objs r' = _base_objs r →
  items_of (<[o := r']> os) x = items_of os x.
Proof.
  intros Hr Hb. unfold items_of.
  rewrite (elems_of_insert _ _ _ _ _ Hr Hb).
  destruct (elems_of os x) as [l|]; [|done]. cbn.
  apply mapM_ext. intros y. by eapply first_of_insert.
Qed.

Lemma operand_valid st x n : operand st x n → expected_for "O" x = "".
Proof.
  intros [x' Hx|l _ _|c o ss Hc _].
  - by destruct x'.
  - done.
  - by destruct c.
Qed.

Lemma assert_args_O name x st :
  expected_for "O" x = "" → assert_args name "O" [x] st = Ok tt st.
Proof.
  intros Hx. unfold assert_args, pyoArgsAssert. cbn [scan_args].
  change (String.get 0 "O") with (Some "O"%char). cbv beta iota zeta.
  by rewrite Hx.
Qed.

Lemma set_factor_ok store base_set (u : pyval → stream → stream)
      c o x st r sids items :
  (∀ s w st', s < length (streams st') →
     base_set (PStream s) w st'
     = Ok tt (put_streams (alter (u w) s (streams st')) st')) →
  (∀ r, _base_objs (store x r) = _base_objs r
        ∧ _op_duplicate (store x r) = _op_duplicate r) →
  expected_for "O" x = "" →
  objs st !! o = Some r →
  _base_objs r = PStream <$> sids →
  Forall (λ s, s < length (streams st)) sids →
  1 ≤ _op_duplicate r →
  items_of (objs st) (to_list_form x) = Some items →
  items ≠ [] →
  set_factor store base_set c o x st
  = Ok tt
       (mkState (<[o := store x r]> (objs st))
          (foldl (λ ss (p : nat * pyval),
                    alter (u (wrap_at items (p.1 / _op_duplicate r)))
                          (sid_of p.2) ss)
                 (streams st) (enumerate (PStream <$> sids)))
          (log st) (server_created st) (server_booted st)).
Proof.
  intros Hset Hstore Hx Hr Hb Hv Hd Hit Hne. unfold set_factor.
  destruct (Hstore r) as [Hsb Hsd].
  pose proof (lookup_lt_Some _ _ _ Hr) as Ho.
  erewrite bind_Ok by (by apply assert_args_O).
  erewrite bind_Ok by (by apply update_obj_ok).
  assert (Hit' : items_of (<[o := store x r]> (objs st)) (to_list_form x)
                 = Some items)
    by (by rewrite (items_of_insert _ _ r)).
  erewrite bind_Ok.
  2:{ apply convertArgsToLists_1. cbn [objs put_objs].
      by eapply length_items_of. }
  cbn beta iota zeta. change ([to_list_form x] !!! 0) with (to_list_form x).
  erewrite bind_Ok.
  2:{ apply get_obj_ok. cbn. by apply list_lookup_insert_eq. }
  rewrite Hsb, Hsd, Hb.
  erewrite bind_Ok.
  2:{ rewrite <- (put_streams_id (put_objs _ st)).
      apply (mapM_update_from _ (λ p : nat * pyval, sid_of p.2)
               (λ p : nat * pyval,
                  u (wrap_at items (p.1 / _op_duplicate r)))
               (λ _, tt)).
      - intros [i obj] ss Hin Hlt. apply elem_of_enumerate in Hin.
        rewrite list_lookup_fmap in Hin.
        destruct (sids !! i) as [s|]; simpl in Hin; [|done].
        simplify_eq. cbn [fst snd sid_of] in *.
        erewrite bind_Ok by (by apply floordiv_ok).
        erewrite bind_Ok by (by apply wrap_ok).
        by rewrite Hset.
      - apply Forall_forall. intros [i obj] Hin.
        apply elem_of_enumerate in Hin.
        rewrite list_lookup_fmap in Hin.
        destruct (sids !! i) as [s|] eqn:Hi; simpl in Hin; [|done].
        simplify_eq. cbn.
        eapply Forall_forall in Hv; [exact Hv|].
        by eapply list_elem_of_lookup_2. }
  reflexivity.
Qed.

Lemma sids_of_enumerate (sids : list nat) :
  (λ p : nat * pyval, sid_of p.2) <$> enumerate (PStream <$> sids) = sids.
Proof.
  rewrite <- (sid_of_streams sids) at 2.
  rewrite <- (snd_enumerate (PStream <$> sids)) at 2.
  by rewrite <- list_fmap_compose.
Qed.

Lemma inplace_spec_intro store base_set (u : pyval → stream → stream)
      attr_of c o x st ss n :
  (∀ s w st', s < length (streams st') →
     base_set (PStream s) w st'
     = Ok tt (put_streams (alter (u w) s (streams st')) st')) →
  (∀ r, _base_objs (store x r) = _base_objs r
        ∧ _op_duplicate (store x r) = _op_duplicate r
        ∧ attr_of (store x r) = x) →
  stream_bundle st o ss →
  NoDup ss →
  operand st x n →
  ∃ items,
    items_of (objs st) (to_list_form x) = Some items
    ∧ length items = n
    ∧ inplace_spec (set_factor store base_set c o x;; mret (PObj c o))
                   attr_of u st c o ss x items.
Proof.
  intros Hset Hstore Hself Hnd Hop.
  destruct (stream_bundle_inv _ _ _ Hself)
    as (r & Hr & Hb & Hne & Hv & Hd & Hdup).
  destruct (operand_items _ _ _ Hop) as (items & Hit & Hlen & Hine).
  pose proof (lookup_lt_Some _ _ _ Hr) as Ho.
  exists items. split; [done|]. split; [done|].
  eexists. split.
  { erewrite bind_Ok; [reflexivity|].
    eapply (set_factor_ok store base_set u); try done.
    - intros r'. by destruct (Hstore r') as (? & ? & ?).
    - by eapply operand_valid. }
  destruct (Hstore r) as (Hsb & Hsd & Hsa).
  cbn [objs streams log].
  split; [by rewrite length_insert|].
  split; [by rewrite (length_foldl_alter (λ p : nat * pyval, sid_of p.2))|].
  split; [done|].
  split; [unfold base_of; cbn;
          rewrite list_lookup_insert_eq by done; cbn; by rewrite Hsb|].
  split; [rewrite list_lookup_insert_eq by done; cbn; by rewrite Hsa|].
  split; [intros o' Ho'; by rewrite list_lookup_insert_ne|].
  split.
  - intros i s Hs. rewrite Hdup.
    assert (Hin : (i, PStream s) ∈ enumerate (PStream <$> ss)).
    { apply elem_of_enumerate. by rewrite list_lookup_fmap, Hs. }
    pose proof (lookup_foldl_alter_in
                  (λ p : nat * pyval, sid_of p.2)
                  (λ p : nat * pyval,
                     u (wrap_at items (p.1 / _op_duplicate r)))
                  (enumerate (PStream <$> ss)) (streams st)
                  (i, PStream s)) as H.
    cbn [fst snd sid_of] in H. apply H; [|done].
    by rewrite sids_of_enumerate.
  - intros s Hs.
    apply (lookup_foldl_alter_notin (λ p : nat * pyval, sid_of p.2)).
    intros [i obj] Hin Heq. apply elem_of_enumerate in Hin.
    rewrite list_lookup_fmap in Hin.
    destruct (ss !! i) as [s'|] eqn:Hi; simpl in Hin; [|done].
    simplify_eq. cbn in Hs. apply Hs. by eapply list_elem_of_lookup_2.
Qed.

Lemma base_set_alter (f : pyval → stream → stream) s w st :
  s < length (streams st) →
  on_stream (PStream s) (λ s, update_stream s (f w)) st
  = Ok tt (put_streams (alter (f w) s (streams st)) st).
Proof. intros H. cbn. by apply update_stream_alter. Qed.

(** C7: each of [+=], [-=], [*=], [/=] returns [self] and creates no
    object and no stream; the bundle keeps its stream list; [+=] and [-=]
    replace the [add] attribute and [*=] and [/=] the [mul] attribute by
    the operand; every stream of the bundle gets the wrapped operand
    value through the engine setter [setAdd], [setSub] (inverted),
    [setMul], [setDiv] (inverted) respectively, and no other stream or
    object changes. *)
Theorem inplace_operators st c o ss x n :
  stream_bundle st o ss →
  NoDup ss →
  operand st x n →
  ∃ items,
    items_of (objs st) (to_list_form x) = Some items
    ∧ inplace_spec (PyoObject__iadd__ c o x) _add
                   (λ w, s_set_add w false) st c o ss x items
    ∧ inplace_spec (PyoObject__isub__ c o x) _add
                   (λ w, s_set_add w true) st c o ss x items
    ∧ inplace_spec (PyoObject__imul__ c o x) _mul
                   (λ w, s_set_mul w false) st c o ss x items
    ∧ inplace_spec (PyoObject__idiv__ c o x) _mul
                   (λ w, s_set_mul w true) st c o ss x items.
Proof.
  intros Hself Hnd Hop.
  destruct (inplace_spec_intro set_add base_setAdd (λ w, s_set_add w false)
              _add c o x st ss n) as (items & Hit & _ & Hadd); try done.
  { intros. by apply (base_set_alter (λ w, s_set_add w false)). }
  exists items. split; [done|]. split; [exact Hadd|].
  split; [|split].
  - destruct (inplace_spec_intro set_add base_setSub
                (λ w, s_set_add w true) _add c o x st ss n)
      as (items' & Hit' & _ & H); try done.
    { intros. by apply (base_set_alter (λ w, s_set_add w true)). }
    by simplify_eq.
  - destruct (inplace_spec_intro set_mul base_setMul
                (λ w, s_set_mul w false) _mul c o x st ss n)
      as (items' & Hit' & _ & H); try done.
    { intros. by apply (base_set_alter (λ w, s_set_mul w false)). }
    by simplify_eq.
  - destruct (inplace_spec_intro set_mul base_setDiv
                (λ w, s_set_mul w true) _mul c o x st ss n)
      as (items' & Hit' & _ & H); try done.
    { intros. by apply (base_set_alter (λ w, s_set_mul w true)). }
    by simplify_eq.
Qed.

Lemma inplace_operators_witness :
  ∃ items,
    items_of (objs example_state) (to_list_form (PFloat 0.5)) = Some items
    ∧ inplace_spec (PyoObject__iadd__ CGeneric 0 (PFloat 0.5)) _add
                   (λ w, s_set_add w false) example_state CGeneric 0
                   [0; 1; 2] (PFloat 0.5) items
    ∧ inplace_spec (PyoObject__isub__ CGeneric 0 (PFloat 0.5)) _add
                   (λ w, s_set_add w true) example_state CGeneric 0
                   [0; 1; 2] (PFloat 0.5) items
    ∧ inplace_spec (PyoObject__imul__ CGeneric 0 (PFloat 0.5)) _mul
                   (λ w, s_set_mul w false) example_state CGeneric 0
                   [0; 1; 2] (PFloat 0.5) items
    ∧ inplace_spec (PyoObject__idiv__ CGeneric 0 (PFloat 0.5)) _mul
                   (λ w, s_set_mul w true) example_state CGeneric 0
                   [0; 1; 2] (PFloat 0.5) items.
Proof.
  apply (inplace_operators example_state CGeneric 0 [0; 1; 2] (PFloat 0.5) 1).
  - solve_bundle.
  - exact (NoDup_seq 0 3).
  - by apply operand_number.
Defined.

(** ** Negation *)

Lemma Sig_zero_ok st :
  host_running st →
  Sig__init__ (PInt 0) (PInt 1) (PInt 0) st
  = Ok (PObj CSig (length (objs st)))
       (mkState (objs st ++ [zero_sig_obj (length (streams st))])
                (streams st ++ [zero_sig_stream])
                (log st) (server_created st) (server_booted st)).
Proof.
  intros Hh. unfold Sig__init__.
  erewrite bind_Ok by reflexivity.
  erewrite bind_Ok by (by apply PyoObject__init___ok).
  erewrite bind_Ok by (by apply store_attr_new).
  erewrite bind_Ok by reflexivity.
  cbn beta iota zeta.
  erewrite bind_Ok by reflexivity.
  erewrite bind_Ok by (apply update_obj_ok; cbn; apply lookup_snoc).
  norm_state. rewrite insert_snoc.
  erewrite bind_Ok.
  2:{ eapply (PyoObject_play_ok _ _ _ _ [length (streams st)]).
      - cbn. apply lookup_snoc.
      - reflexivity.
      - repeat constructor. cbn. rewrite length_app. cbn. lia. }
  norm_state.
  pose proof (alter_all_new (s_set_playing true) (streams st)
                [fresh_stream (KSig (PInt 0)) (PInt 1) (PInt 0) false]) as H.
  cbn [length seq] in H. rewrite H. reflexivity.
Qed.

Lemma wrap_at_single x i : wrap_at [x] i = x.
Proof. unfold wrap_at. cbn [length]. by rewrite Nat.mod_1_r. Qed.

(** [Z - A] for a bundle [Z] with the single stream [z]. *)
Lemma sub_from_single fuel cz oz c o st rz z r sA :
  host_running st →
  audio_class c = true →
  objs st !! oz = Some rz →
  _base_objs rz = [PStream z] →
  1 ≤ _op_duplicate rz →
  objs st !! o = Some r →
  _base_objs r = PStream <$> sA →
  sA ≠ [] →
  PyoObject_arith (S fuel) Sub cz oz (PObj c o) st
  = Ok (PObj CDummy (length (objs st)))
       (after_arith st oz rz (length sA) (neg_streams z sA)).
Proof.
  intros Hh Hc Hrz Hbz Hdz Hr Hb Hne.
  destruct (decide (length sA ≤ 1)) as [Hle|Hgt].
  - destruct sA as [|x [|??]]; [done| |simpl in Hle; lia].
    rewrite (PyoObject_arith_self_longer' fuel Sub cz oz (PObj c o) st rz
               [z] [PStream x]); try done.
    + by eapply (items_of_bundle _ _ _ _ [x]).
    + by repeat constructor.
  - rewrite (PyoObject_arith_bundle_longer fuel Sub cz oz c o st rz [z] r sA);
      try done; [|cbn; lia].
    f_equal. f_equal. unfold arith_streams_wrapped, neg_streams.
    apply list_eq. intros i.
    rewrite list_lookup_imap, !list_lookup_fmap.
    destruct (sA !! i); [|done]. cbn.
    change (PStream <$> [z]) with [PStream z].
    by rewrite wrap_at_single.
Qed.

Lemma neg_first c o st r sA :
  host_running st →
  audio_class c = true →
  objs st !! o = Some r →
  _zeros r = PNone →
  _base_objs r = PStream <$> sA →
  sA ≠ [] →
  PyoObject__neg__ c o st
  = Ok (PObj CDummy (S (length (objs st)))) (after_first_neg st o r sA).
Proof.
  intros Hh Hc Hr Hz Hb Hne. unfold PyoObject__neg__.
  pose proof (lookup_lt_Some _ _ _ Hr) as Ho.
  erewrite bind_Ok by (by apply get_obj_ok).
  rewrite Hz.
  erewrite bind_Ok.
  2:{ erewrite bind_Ok by (by apply Sig_zero_ok).
      apply (update_obj_ok _ _ _ r). cbn. by rewrite lookup_app_l. }
  norm_state.
  erewrite bind_Ok.
  2:{ apply get_obj_ok. cbn. rewrite list_lookup_insert_eq; [done|].
      rewrite length_app. lia. }
  norm_state. unfold PyoObject__sub__.
  erewrite (sub_from_single 1 CSig (length (objs st)) c o _
              (zero_sig_obj (length (streams st))) (length (streams st))
              (set_zeros (PObj CSig (length (objs st))) r) sA); try done.
  - norm_state. unfold after_first_neg.
    rewrite length_insert, length_app. cbn [length].
    by rewrite Nat.add_1_r.
  - cbn. rewrite list_lookup_insert_ne by lia. apply lookup_snoc.
  - cbn. rewrite list_lookup_insert_eq; [done|]. rewrite length_app. lia.
Qed.

(** A later negation finds [_zeros] set and only builds the composite. *)
Lemma neg_memoized c o st r sA oz rz z :
  host_running st →
  audio_class c = true →
  objs st !! o = Some r →
  _zeros r = PObj CSig oz →
  _base_objs r = PStream <$> sA →
  sA ≠ [] →
  objs st !! oz = Some rz →
  _base_objs rz = [PStream z] →
  1 ≤ _op_duplicate rz →
  PyoObject__neg__ c o st
  = Ok (PObj CDummy (length (objs st)))
       (after_arith st oz rz (length sA) (neg_streams z sA)).
Proof.
  intros Hh Hc Hr Hz Hb Hne Hrz Hbz Hdz. unfold PyoObject__neg__.
  erewrite bind_Ok by (by apply get_obj_ok).
  rewrite Hz.
  erewrite bind_Ok by reflexivity.
  erewrite bind_Ok by (by apply get_obj_ok).
  rewrite Hz. unfold PyoObject__sub__.
  by eapply sub_from_single.
Qed.

(** *** The state after a first negation *)

Section AfterFirstNeg.
Context (st : state) (o : nat) (r : pyobj) (sA : list nat).
Hypothesis Ho : o < length (objs st).

Lemma afn_streams :
  streams (after_first_neg st o r sA)
  = streams st ++ zero_sig_stream :: neg_streams (length (streams st)) sA.
Proof. unfold after_first_neg. cbn. by rewrite <- app_assoc. Qed.

Lemma afn_streams_length :
  length (streams (after_first_neg st o r sA))
  = S (length (streams st) + length sA).
Proof.
  rewrite afn_streams, length_app. cbn. unfold neg_streams.
  rewrite length_fmap. lia.
Qed.

Lemma afn_objs_length :
  length (objs (after_first_neg st o r sA)) = S (S (length (objs st))).
Proof.
  unfold after_first_neg. cbn.
  rewrite length_insert, length_app, length_insert, length_app. cbn. lia.
Qed.

Lemma afn_lookup_self :
  objs (after_first_neg st o r sA) !! o
  = Some (set_zeros (PObj CSig (length (objs st))) r).
Proof.
  unfold after_first_neg. cbn.
  rewrite list_lookup_insert_ne by lia.
  rewrite lookup_app_l by (rewrite length_insert, length_app; lia).
  rewrite list_lookup_insert_eq; [done|]. rewrite length_app. lia.
Qed.

Lemma afn_lookup_sig :
  objs (after_first_neg st o r sA) !! length (objs st)
  = Some (set_keep_trace [PObj CDummy (S (length (objs st)))]
            (zero_sig_obj (length (streams st)))).
Proof.
  unfold after_first_neg. cbn.
  rewrite list_lookup_insert_eq.
  - rewrite length_insert, length_app. cbn. by rewrite Nat.add_1_r.
  - rewrite length_app, length_insert, length_app. cbn. lia.
Qed.

Lemma afn_lookup_dummy :
  objs (after_first_neg st o r sA) !! S (length (objs st))
  = Some (dummy_obj
            (PStream <$> seq (S (length (streams st))) (length sA))
            (PStream <$> seq (S (length (streams st))) (length sA))).
Proof.
  unfold after_first_neg. cbn.
  rewrite list_lookup_insert_ne by lia.
  rewrite lookup_app_r by (rewrite length_insert, length_app; cbn; lia).
  rewrite length_insert, length_app. cbn.
  replace (S (length (objs st)) - (length (objs st) + 1)) with 0 by lia.
  cbn. rewrite length_app. cbn. by rewrite Nat.add_1_r.
Qed.

Lemma afn_host : host_running st → host_running (after_first_neg st o r sA).
Proof. by intros [??]. Qed.

Lemma afn_lookup_old_stream s :
  s < length (streams st) →
  streams (after_first_neg st o r sA) !! s = streams st !! s.
Proof. intros Hs. rewrite afn_streams. by rewrite lookup_app_l. Qed.

Lemma afn_lookup_zero :
  streams (after_first_neg st o r sA) !! length (streams st)
  = Some zero_sig_stream.
Proof. rewrite afn_streams. by rewrite list_lookup_middle. Qed.

Lemma afn_lookup_neg i x :
  sA !! i = Some x →
  streams (after_first_neg st o r sA) !! (S (length (streams st)) + i)
  = Some (fresh_stream (KArith Sub (length (streams st)) (PStream x))
                       (PFloat 1) (PFloat 0) true).
Proof.
  intros Hx. rewrite afn_streams.
  rewrite lookup_app_r by lia.
  replace (S (length (streams st)) + i - length (streams st)) with (S i)
    by lia.
  rewrite lookup_cons_ne_0 by lia. cbn [Nat.pred].
  unfold neg_streams. by rewrite list_lookup_fmap, Hx.
Qed.

End AfterFirstNeg.

(** *** Samples *)

Lemma operand_sample_mono (rec rec' : nat → option Q) x v :
  (∀ s q, rec s = Some q → rec' s = Some q) →
  operand_sample rec x = Some v → operand_sample rec' x = Some v.
Proof. intros H. destruct x; cbn; auto. Qed.

Lemma sample_extend engine_out fuel ss ext s t v :
  sample engine_out fuel ss s t = Some v →
  sample engine_out fuel (ss ++ ext) s t = Some v.
Proof.
  revert s v. induction fuel as [|fuel IH]; intros s v; [done|].
  cbn [sample]. destruct (ss !! s) as [r|] eqn:Hr; [|done].
  rewrite (lookup_app_l_Some _ _ _ _ Hr). cbn [mbind option_bind].
  assert (Hop : ∀ x q,
    operand_sample (λ s', sample engine_out fuel ss s' t) x = Some q →
    operand_sample (λ s', sample engine_out fuel (ss ++ ext) s' t) x
    = Some q).
  { intros x q. apply operand_sample_mono. intros. by apply IH. }
  destruct (s_kind r); try done.
  - destruct (sample engine_out fuel ss input t) as [u|] eqn:Hu; [|done].
    rewrite (IH _ _ Hu). cbn [mbind option_bind].
    destruct (operand_sample _ x) as [w|] eqn:Hw; [|done].
    rewrite (Hop _ _ Hw). cbn [mbind option_bind].
    destruct (arith_q op u w) as [raw|]; [|done]. cbn [mbind option_bind].
    destruct (operand_sample _ (s_mul r)) as [m|] eqn:Hm; [|done].
    rewrite (Hop _ _ Hm). cbn [mbind option_bind].
    destruct (operand_sample _ (s_add r)) as [a|] eqn:Ha; [|done].
    rewrite (Hop _ _ Ha). done.
  - destruct (operand_sample _ value) as [raw|] eqn:Hw; [|done].
    rewrite (Hop _ _ Hw). cbn [mbind option_bind].
    destruct (operand_sample _ (s_mul r)) as [m|] eqn:Hm; [|done].
    rewrite (Hop _ _ Hm). cbn [mbind option_bind].
    destruct (operand_sample _ (s_add r)) as [a|] eqn:Ha; [|done].
    rewrite (Hop _ _ Ha). done.
Qed.

Lemma sample_zero_sig engine_out fuel ss z t :
  ss !! z = Some zero_sig_stream →
  ∃ q, sample engine_out (S fuel) ss z t = Some q ∧ (q == 0)%Q.
Proof.
  intros Hz. cbn [sample]. rewrite Hz. cbn. eexists. split; [done|].
  reflexivity.
Qed.

Lemma sample_neg_stream engine_out fuel ss s z x t qz qx :
  ss !! s = Some (fresh_stream (KArith Sub z (PStream x))
                               (PFloat 1) (PFloat 0) true) →
  sample engine_out fuel ss z t = Some qz →
  sample engine_out fuel ss x t = Some qx →
  ∃ q, sample engine_out (S fuel) ss s t = Some q ∧ (q == qz - qx)%Q.
Proof.
  intros Hs Hz Hx. cbn [sample]. rewrite Hs. cbn. rewrite Hz, Hx. cbn.
  eexists. split; [done|]. ring.
Qed.

(** C6: the first negation of a bundle [A] creates one zero-valued
    one-stream [Sig], stores it in [A._zeros] and returns [Z - A]; a later
    negation of [A] builds [Z - A] again from the stored [Z] and
    allocates no second [Sig]; and every stream of [-(-A)] outputs, at
    every instant, the sample that the matching stream of [A] outputs. *)
Theorem negation_memoized_involutive st c o sA :
  host_running st →
  audio_class c = true →
  stream_bundle st o sA →
  zeros_of st o = PNone →
  ∃ st1 st2 st3,
    (* first negation *)
    PyoObject__neg__ c o st = Ok (PObj CDummy (S (length (objs st)))) st1
    ∧ zeros_of st1 o = PObj CSig (length (objs st))
    ∧ base_of st1 (length (objs st)) = [PStream (length (streams st))]
    ∧ streams st1 !! length (streams st) = Some zero_sig_stream
    ∧ base_of st1 (S (length (objs st)))
      = PStream <$> seq (S (length (streams st))) (length sA)
    ∧ (∀ i x, sA !! i = Some x →
         kind_of st1 (S (length (streams st)) + i)
         = Some (KArith Sub (length (streams st)) (PStream x)))
    (* a later negation of the same bundle *)
    ∧ PyoObject__neg__ c o st1 = Ok (PObj CDummy (length (objs st1))) st2
    ∧ length (objs st2) = S (length (objs st1))
    ∧ zeros_of st2 o = PObj CSig (length (objs st))
    ∧ base_of st2 (length (objs st1))
      = PStream <$> seq (length (streams st1)) (length sA)
    ∧ (∀ i x, sA !! i = Some x →
         kind_of st2 (length (streams st1) + i)
         = Some (KArith Sub (length (streams st)) (PStream x)))
    (* the negation of the negation *)
    ∧ PyoObject__neg__ CDummy (S (length (objs st))) st1
      = Ok (PObj CDummy (S (length (objs st1)))) st3
    ∧ base_of st3 (S (length (objs st1)))
      = PStream <$> seq (S (length (streams st1))) (length sA)
    ∧ (∀ engine_out fuel t i x v,
         sA !! i = Some x →
         sample engine_out fuel (streams st) x t = Some v →
         ∃ v', sample engine_out (S (S fuel)) (streams st3)
                      (S (length (streams st1)) + i) t = Some v'
               ∧ (v' == v)%Q).
Proof.
  intros Hh Hc Hself Hz.
  destruct (stream_bundle_inv _ _ _ Hself)
    as (r & Hr & Hb & Hne & _ & Hd & _).
  pose proof (lookup_lt_Some _ _ _ Hr) as Ho.
  unfold zeros_of in Hz. rewrite Hr in Hz. cbn in Hz.
  set (n := length (objs st)). set (m := length (streams st)).
  set (st1 := after_first_neg st o r sA).
  set (rz := set_keep_trace [PObj CDummy (S n)] (zero_sig_obj m)).
  set (L := PStream <$> seq (S m) (length sA)).
  set (st2 := after_arith st1 n rz (length sA) (neg_streams m sA)).
  set (st3 := after_first_neg st1 (S n) (dummy_obj L L) (seq (S m) (length sA))).
  assert (Hlen1 : length (objs st1) = S (S n)) by (by apply afn_objs_length).
  assert (Hslen1 : length (streams st1) = S (m + length sA))
    by (by apply afn_streams_length).
  assert (Hself1 : objs st1 !! o = Some (set_zeros (PObj CSig n) r))
    by (by apply afn_lookup_self).
  assert (Hsig1 : objs st1 !! n = Some rz) by (by apply afn_lookup_sig).
  assert (Hdum1 : objs st1 !! S n = Some (dummy_obj L L))
    by (by apply afn_lookup_dummy).
  assert (Hh1 : host_running st1) by (by apply afn_host).
  assert (Hseq : seq (S m) (length sA) ≠ []).
  { destruct sA; [done|]. done. }
  exists st1, st2, st3.
  split; [by apply neg_first|].
  split; [unfold zeros_of; by rewrite Hself1|].
  split; [unfold base_of; by rewrite Hsig1|].
  split; [by apply afn_lookup_zero|].
  split; [unfold base_of; by rewrite Hdum1|].
  split.
  { intros i x Hx. unfold kind_of. subst st1 m.
    by erewrite afn_lookup_neg. }
  split.
  { subst st2. eapply neg_memoized; try done. }
  split.
  { subst st2. apply after_arith_objs_length. }
  split.
  { unfold zeros_of. subst st2.
    rewrite after_arith_lookup_other
      by (rewrite ?Hlen1; unfold n; lia).
    by rewrite Hself1. }
  split.
  { subst st2. rewrite after_arith_base by (rewrite Hlen1; lia). done. }
  split.
  { intros i x Hx. unfold kind_of. subst st2.
    rewrite after_arith_streams.
    rewrite lookup_app_r by lia.
    replace (length (streams st1) + i - length (streams st1)) with i by lia.
    unfold neg_streams. by rewrite list_lookup_fmap, Hx. }
  split.
  { subst st3. apply neg_first; try done. }
  split.
  { subst st3. unfold base_of.
    rewrite afn_lookup_dummy; [|rewrite Hlen1; lia].
    cbn. by rewrite length_seq. }
  intros engine_out fuel t i x v Hx Hv.
  destruct fuel as [|fuel]; [done|].
  assert (Hi : i < length sA) by (by eapply lookup_lt_Some).
  (* the streams of [A], of [-A] and of [-(-A)] in the final store *)
  assert (Hss3 : ∃ ext, streams st3 = streams st ++ ext).
  { subst st3 st1. rewrite !afn_streams. rewrite <- app_assoc. eauto. }
  destruct Hss3 as [ext Hext].
  assert (Hvx : sample engine_out (S fuel) (streams st3) x t = Some v)
    by (rewrite Hext; by apply sample_extend).
  assert (Hz1 : streams st3 !! m = Some zero_sig_stream).
  { subst st3. rewrite afn_lookup_old_stream by lia.
    by apply afn_lookup_zero. }
  assert (Hn1 : streams st3 !! (S m + i)
                = Some (fresh_stream (KArith Sub m (PStream x))
                                     (PFloat 1) (PFloat 0) true)).
  { subst st3. rewrite afn_lookup_old_stream by lia.
    by apply afn_lookup_neg. }
  assert (Hz3 : streams st3 !! length (streams st1) = Some zero_sig_stream)
    by (by apply afn_lookup_zero).
  assert (Hn3 : streams st3 !! (S (length (streams st1)) + i)
                = Some (fresh_stream
                          (KArith Sub (length (streams st1))
                                  (PStream (S m + i)))
                          (PFloat 1) (PFloat 0) true)).
  { subst st3.
    apply afn_lookup_neg; first [by apply lookup_seq_lt | rewrite Hlen1; lia]. }
  destruct (sample_zero_sig engine_out fuel _ _ t Hz1) as (q1 & Hq1 & Eq1).
  destruct (sample_neg_stream engine_out (S fuel) _ _ _ _ t _ _ Hn1 Hq1 Hvx)
    as (q2 & Hq2 & Eq2).
  destruct (sample_zero_sig engine_out (S fuel) _ _ t Hz3)
    as (q3 & Hq3 & Eq3).
  destruct (sample_neg_stream engine_out (S (S fuel)) _ _ _ _ t _ _
              Hn3 Hq3 Hq2) as (q4 & Hq4 & Eq4).
  exists q4. split; [done|].
  rewrite Eq4, Eq3, Eq2, Eq1. ring.
Qed.

Lemma negation_memoized_involutive_witness :
  ∃ st1 st2 st3,
    PyoObject__neg__ CGeneric 1 example_state = Ok (PObj CDummy 3) st1
    ∧ zeros_of st1 1 = PObj CSig 2
    ∧ PyoObject__neg__ CGeneric 1 st1
      = Ok (PObj CDummy (length (objs st1))) st2
    ∧ zeros_of st2 1 = PObj CSig 2
    ∧ PyoObject__neg__ CDummy 3 st1
      = Ok (PObj CDummy (S (length (objs st1)))) st3
    ∧ ∃ v', sample (λ s t, inject_Z (Z.of_nat (s + t))) 3 (streams st3)
              (S (length (streams st1)) + 1) 7 = Some v'
            ∧ (v' == 11)%Q.
Proof.
  destruct (negation_memoized_involutive example_state CGeneric 1 [3; 4]
              ltac:(solve_host) eq_refl ltac:(solve_bundle) eq_refl)
    as (st1 & st2 & st3 & H1 & Hz1 & _ & _ & _ & _ & H2 & _ & Hz2 & _ & _
        & H3 & _ & Hs).
  exists st1, st2, st3.
  split; [exact H1|]. split; [exact Hz1|]. split; [exact H2|].
  split; [exact Hz2|]. split; [exact H3|].
  exact (Hs (λ s t, inject_Z (Z.of_nat (s + t))) 1 7 1 4 11%Q
            eq_refl eq_refl).
Defined.

(** ** The mixer *)

Lemma foldM_app {A B} (f : B → A → M B) (l k : list A) (b : B) st :
  foldM f b (l ++ k) st
  = match foldM f b l st with
    | Ok b' st' => foldM f b' k st'
    | Raise e st' => Raise e st'
    end.
Proof.
  revert b st. induction l as [|x l IH]; intros b st; [done|].
  cbn [foldM app]. unfold mbind, M_bind.
  destruct (f b x st); [apply IH|done].
Qed.

Lemma voice_inputs_0 input_objs nv (n : nat) :
  (λ v, voice_inputs input_objs nv 0 v) <$> seq 0 n = replicate n [].
Proof.
  unfold voice_inputs. cbn [seq omap]. generalize 0.
  induction n as [|n IH]; intros j; [done|].
  cbn [seq replicate]. rewrite fmap_cons. by rewrite IH.
Qed.

Lemma voice_inputs_S input_objs nv num v :
  voice_inputs input_objs nv (S num) v
  = voice_inputs input_objs nv num v
    ++ (if num mod nv =? v
        then option_list (input_objs !! (num mod length input_objs))
        else []).
Proof.
  unfold voice_inputs. rewrite seq_S, omap_app. cbn [Nat.add omap].
  f_equal. cbn -[Nat.modulo Nat.eqb].
  destruct (num mod nv =? v); [|done].
  by destruct (input_objs !! (num mod length input_objs)).
Qed.

Lemma pymod_ok i n st : 1 ≤ n → pymod i n st = Ok (i mod n) st.
Proof. intros H. unfold pymod. destruct n; [lia|done]. Qed.

Lemma Mix_sub_lists_ok input_objs nv num st :
  input_objs ≠ [] → 1 ≤ nv →
  Mix_sub_lists input_objs nv num st
  = Ok ((λ v, voice_inputs input_objs nv num v) <$> seq 0 nv) st.
Proof.
  intros Hne Hnv. unfold Mix_sub_lists.
  induction num as [|num IH].
  - cbn [seq foldM]. by rewrite voice_inputs_0.
  - rewrite seq_S, foldM_app, IH. cbn [Nat.add foldM].
    assert (Hlen : 1 ≤ length input_objs)
      by (destruct input_objs; [done|cbn; lia]).
    assert (Hk : num mod length input_objs < length input_objs)
      by (apply Nat.mod_upper_bound; lia).
    destruct (lookup_lt_is_Some_2 _ _ Hk) as [obj Hobj].
    assert (Hv : num mod nv < nv) by (apply Nat.mod_upper_bound; lia).
    erewrite bind_Ok.
    2:{ erewrite bind_Ok by (by apply pymod_ok).
        rewrite Hobj.
        erewrite bind_Ok by (by apply pymod_ok).
        rewrite list_lookup_fmap, lookup_seq_lt by done.
        reflexivity. }
    unfold mret, M_ret. f_equal. cbn [Nat.add].
    apply list_eq. intros j.
    destruct (decide (j = num mod nv)) as [->|Hj].
    + rewrite list_lookup_insert_eq by (by rewrite length_fmap, length_seq).
      rewrite list_lookup_fmap, lookup_seq_lt by done.
      cbn [fmap option_fmap option_map Nat.add].
      rewrite voice_inputs_S, Nat.eqb_refl, Hobj. done.
    + rewrite list_lookup_insert_ne by done.
      rewrite !list_lookup_fmap.
      destruct (seq 0 nv !! j) as [v|] eqn:Hs; [|done].
      apply lookup_seq in Hs as [-> _].
      cbn [fmap option_fmap option_map Nat.add].
      rewrite voice_inputs_S.
      destruct (Nat.eqb_spec (num mod nv) j) as [Heq|_]; [by subst|].
      by rewrite app_nil_r.
Qed.

Lemma getBaseObjects_ok os x l st :
  base_objects_of os x = Some l →
  (∀ o, o < length os → objs st !! o = os !! o) →
  getBaseObjects x st = Ok l st.
Proof.
  intros Hx Hst. destruct x; try done. cbn in *.
  destruct (os !! o) as [r|] eqn:Hr; [|done]. cbn in Hx. simplify_eq.
  unfold get_obj, mbind, M_bind.
  rewrite Hst by (by eapply lookup_lt_Some). by rewrite Hr.
Qed.

Lemma mapM_getBaseObjects_ok os l ll st :
  mapM (base_objects_of os) l = Some ll →
  (∀ o, o < length os → objs st !! o = os !! o) →
  mapM getBaseObjects l st = Ok ll st.
Proof.
  intros Hl Hst. revert ll Hl.
  induction l as [|x l IH]; intros ll; cbn.
  - by intros [= <-].
  - destruct (base_objects_of os x) as [b|] eqn:Hx; [|done]. cbn.
    destruct (mapM (base_objects_of os) l) as [bs|]; [|done]. cbn.
    intros [= <-].
    erewrite bind_Ok by (by eapply getBaseObjects_ok).
    by erewrite bind_Ok by (by apply IH).
Qed.

Lemma Mix_input_ok os input input_objs st :
  mix_inputs os input = Some input_objs →
  (∀ o, o < length os → objs st !! o = os !! o) →
  match input with
  | PList l => ll ← mapM getBaseObjects l; mret (concat ll)
  | _ => getBaseObjects input
  end st = Ok input_objs st.
Proof.
  intros Hin Hst. destruct input; try done;
    try (by eapply getBaseObjects_ok).
  cbn in Hin. destruct (mapM (base_objects_of os) l) as [ll|] eqn:Hl; [|done].
  cbn in Hin. simplify_eq.
  by erewrite bind_Ok by (by eapply mapM_getBaseObjects_ok).
Qed.

Lemma Mix__init___ok st input voices input_objs :
  host_running st →
  expected_for "o" input = "" →
  mix_inputs (objs st) input = Some input_objs →
  input_objs ≠ [] →
  1 ≤ (Mix_counts voices (length input_objs) 1).1 →
  Mix__init__ input voices (PInt 1) (PInt 0) st
  = Ok (PObj CMix (length (objs st)))
       (after_mix st input
          ((λ v, voice_inputs input_objs
                   (Mix_counts voices (length input_objs) 1).1
                   (Mix_counts voices (length input_objs) 1).2 v)
             <$> seq 0 (Mix_counts voices (length input_objs) 1).1)).
Proof.
  intros Hh Hin Hobjs Hne Hnv. unfold Mix__init__.
  erewrite bind_Ok by (apply assert_args_ok; solve_args).
  erewrite bind_Ok by (by apply PyoObject__init___ok).
  erewrite bind_Ok by (by apply store_attr_new).
  erewrite bind_Ok by reflexivity.
  cbn beta iota zeta.
  erewrite bind_Ok.
  2:{ eapply (Mix_input_ok (objs st)); [done|].
      intros o Ho. cbn. by rewrite lookup_app_l. }
  change (max_list [length [PInt 1]; length [PInt 0]]) with 1.
  change ((to_list_form <$> [PInt 1; PInt 0]) !!! 0) with (PList [PInt 1]).
  change ((to_list_form <$> [PInt 1; PInt 0]) !!! 1) with (PList [PInt 0]).
  norm_state. rewrite insert_empty.
  destruct (Mix_counts voices (length input_objs) 1) as [nv num] eqn:Hcounts.
  cbn [fst snd] in *.
  erewrite bind_Ok by (by apply Mix_sub_lists_ok).
  set (sub_lists := (λ v, voice_inputs input_objs nv num v) <$> seq 0 nv).
  erewrite bind_Ok.
  2:{ apply (mapM_alloc _ (λ p : nat * list pyval, fresh_stream (KMix p.2) (PInt 1) (PInt 0) false)).
      intros [i l] ss Hl.
      erewrite bind_Ok by (by apply wrap_scalar).
      erewrite bind_Ok by (by apply wrap_scalar).
      reflexivity. }
  norm_state.
  erewrite bind_Ok by (apply update_obj_ok; cbn; apply lookup_snoc).
  norm_state. rewrite insert_snoc.
  unfold enumerate. rewrite length_imap.
  erewrite bind_Ok.
  2:{ eapply (PyoObject_play_ok _ _ _ _
                (seq (length (streams st)) (length sub_lists))).
      - cbn. apply lookup_snoc.
      - reflexivity.
      - apply Forall_forall. intros s Hs. apply elem_of_seq in Hs.
        cbn. rewrite length_app, length_fmap, length_imap. lia. }
  norm_state.
  pose proof (alter_all_new (s_set_playing true) (streams st)
                ((λ p : nat * list pyval, fresh_stream (KMix p.2) (PInt 1) (PInt 0) false)
                   <$> imap (λ i x, (i, x)) sub_lists)) as H.
  rewrite length_fmap, length_imap in H. rewrite H.
  assert (Hstreams :
    s_set_playing true
      <$> ((λ p : nat * list pyval,
              fresh_stream (KMix p.2) (PInt 1) (PInt 0) false)
             <$> imap (λ i x, (i, x)) sub_lists)
    = mix_stream <$> sub_lists).
  { rewrite <- list_fmap_compose.
    rewrite <- (snd_enumerate sub_lists) at 2.
    by rewrite <- list_fmap_compose. }
  rewrite Hstreams. reflexivity.
Qed.

Lemma Mix_counts_default voices input_len :
  1 ≤ input_len →
  Mix_counts voices input_len 1
  = (clamped_voices voices, clamped_num voices input_len).
Proof.
  intros Hlen. unfold Mix_counts, clamped_voices, clamped_num, spec_num.
  destruct (Z.ltb_spec voices 1); [done|].
  destruct (Z.gtb_spec voices (Z.of_nat input_len)).
  - destruct (Z.gtb_spec voices (Z.of_nat 1)); [done|lia].
  - cbn [andb]. destruct (Nat.ltb_spec input_len 1); [lia|done].
Qed.

Lemma clamped_voices_spec voices : clamped_voices voices = spec_voices voices.
Proof.
  unfold clamped_voices, spec_voices.
  destruct (Z.ltb_spec voices 1).
  - by rewrite Z.max_r by lia.
  - by rewrite Z.max_l by lia.
Qed.

Lemma omap_kinds (f : pyval → option (list pyval)) L j :
  (∀ i l, L !! i = Some l → f (PStream (j + i)) = Some l) →
  omap f (PStream <$> seq j (length L)) = L.
Proof.
  revert j. induction L as [|x L IH]; intros j H; [done|].
  cbn [length seq]. rewrite fmap_cons. cbn [omap list_omap].
  rewrite <- (Nat.add_0_r j) at 1. rewrite (H 0 x eq_refl).
  f_equal. apply IH. intros i l Hl.
  replace (S j + i) with (j + S i) by lia. by apply H.
Qed.

Lemma mixed_inputs_after_mix st input sub_lists :
  mixed_inputs (after_mix st input sub_lists) (length (objs st)) = sub_lists.
Proof.
  unfold mixed_inputs, base_of. cbn [objs after_mix].
  rewrite lookup_snoc. cbn [from_option mix_obj _base_objs].
  apply omap_kinds. intros i l Hl. unfold kind_of. cbn [streams after_mix].
  rewrite lookup_app_r by lia.
  replace (length (streams st) + i - length (streams st)) with i by lia.
  by rewrite list_lookup_fmap, Hl.
Qed.

(** C4, as amended: with the default [mul] and [add] and at least one
    input stream, [Mix(input, voices)] uses [num = input_len] unless
    [voices > input_len], where [num = voices], and unless [voices < 1],
    where [voices] becomes 1 and [num] is 1 as well; the result has
    exactly that many voices, and input [i] of [0, num), wrapped modulo
    [input_len], is mixed into voice [i mod voices].  From one voice on
    this is the distribution of the specification; below one voice the
    single output voice mixes input stream 0 alone. *)
Theorem Mix_round_robin st input voices input_objs :
  host_running st →
  expected_for "o" input = "" →
  mix_inputs (objs st) input = Some input_objs →
  input_objs ≠ [] →
  Mix_counts voices (length input_objs) 1
  = (clamped_voices voices, clamped_num voices (length input_objs))
  ∧ clamped_voices voices = spec_voices voices
  ∧ ∃ st',
      Mix__init__ input voices (PInt 1) (PInt 0) st
      = Ok (PObj CMix (length (objs st))) st'
      ∧ length (base_of st' (length (objs st))) = clamped_voices voices
      ∧ mixed_inputs st' (length (objs st))
        = (λ v, voice_inputs input_objs (clamped_voices voices)
                  (clamped_num voices (length input_objs)) v)
            <$> seq 0 (clamped_voices voices)
      ∧ ((1 ≤ voices)%Z →
         mixed_inputs st' (length (objs st))
         = spec_sub_lists input_objs voices)
      ∧ ((voices < 1)%Z →
         mixed_inputs st' (length (objs st))
         = [option_list (input_objs !! 0)]).
Proof.
  intros Hh Hin Hobjs Hne.
  assert (Hlen : 1 ≤ length input_objs)
    by (destruct input_objs; [done|cbn; lia]).
  pose proof (Mix_counts_default voices _ Hlen) as Hcounts.
  split; [done|]. split; [apply clamped_voices_spec|].
  assert (Hnv : 1 ≤ clamped_voices voices).
  { unfold clamped_voices. destruct (Z.ltb_spec voices 1); lia. }
  eexists. split.
  { apply (Mix__init___ok st input voices input_objs); try done.
    by rewrite Hcounts. }
  rewrite mixed_inputs_after_mix, Hcounts. cbn [fst snd].
  split; [|split; [done|split]].
  - unfold base_of. cbn [objs after_mix]. rewrite lookup_snoc.
    cbn [from_option mix_obj _base_objs].
    by rewrite !length_fmap, !length_seq.
  - intros Hv. unfold spec_sub_lists. rewrite <- clamped_voices_spec.
    unfold clamped_num. destruct (Z.ltb_spec voices 1); [lia|done].
  - intros Hv. unfold clamped_voices, clamped_num.
    destruct (Z.ltb_spec voices 1); [|lia].
    cbn [seq fmap list_fmap]. unfold voice_inputs. cbn [seq omap list_omap].
    cbn [Nat.modulo Nat.divmod fst snd Nat.sub Nat.eqb].
    rewrite ?Nat.Div0.mod_0_l.
    by destruct (input_objs !! 0).
Qed.

(** With five inputs and two voices: streams 0, 2, 4 and streams 1, 3. *)
Lemma Mix_round_robin_witness :
  ∃ st',
    Mix__init__ (PObj CGeneric 0) 2 (PInt 1) (PInt 0) five_state
    = Ok (PObj CMix 1) st'
    ∧ length (base_of st' 1) = 2
    ∧ mixed_inputs st' 1
      = [[PStream 0; PStream 2; PStream 4]; [PStream 1; PStream 3]].
Proof.
  destruct (Mix_round_robin five_state (PObj CGeneric 0) 2
              (PStream <$> [0; 1; 2; 3; 4])
              ltac:(solve_host) eq_refl eq_refl ltac:(discriminate))
    as (_ & _ & st' & Hrun & Hlen & Hmix & _).
  exists st'. split; [exact Hrun|]. split; [exact Hlen|]. exact Hmix.
Defined.

(** The claim as stated fails below one voice: [Mix(input, 0)] on five
    input streams mixes stream 0 alone, where the stated rule
    ([num = input_len = 5], one voice) would mix all five. *)
Lemma Mix_below_one_voice_counterexample :
  ∃ st',
    Mix__init__ (PObj CGeneric 0) 0 (PInt 1) (PInt 0) five_state
    = Ok (PObj CMix 1) st'
    ∧ mixed_inputs st' 1 = [[PStream 0]]
    ∧ spec_sub_lists (base_of five_state 0) 0
      = [[PStream 0; PStream 1; PStream 2; PStream 3; PStream 4]]
    ∧ mixed_inputs st' 1 ≠ spec_sub_lists (base_of five_state 0) 0.
Proof.
  eexists. split; [vm_compute; reflexivity|].
  split; [vm_compute; reflexivity|].
  split; [vm_compute; reflexivity|].
  vm_compute. discriminate.
Qed.

(** ** Comparisons *)

Lemma fmap_wrap_at_seq {B} (h : pyval → B) (items : list pyval) :
  (λ i, h (wrap_at items i)) <$> seq 0 (length items) = h <$> items.
Proof.
  apply list_eq. intros i. rewrite !list_lookup_fmap.
  destruct (items !! i) as [x|] eqn:Hx.
  - pose proof (lookup_lt_Some _ _ _ Hx) as Hlt.
    rewrite lookup_seq_lt by done. cbn. unfold wrap_at.
    by rewrite Nat.mod_small, Hx by done.
  - apply lookup_ge_None in Hx. by rewrite lookup_seq_ge.
Qed.

Lemma elems_first_app os ext x :
  (∀ l, elems_of os x = Some l → elems_of (os ++ ext) x = Some l)
  ∧ (∀ y, first_of os x = Some y → first_of (os ++ ext) x = Some y).
Proof.
  split; intros y; destruct x; try done; cbn.
  - destruct (os !! o) as [r|] eqn:Hr; [|done].
    by rewrite (lookup_app_l_Some _ _ _ _ Hr).
  - destruct (os !! o) as [r|] eqn:Hr; [|done].
    by rewrite (lookup_app_l_Some _ _ _ _ Hr).
Qed.

Lemma items_of_app os ext x items :
  items_of os x = Some items → items_of (os ++ ext) x = Some items.
Proof.
  unfold items_of. destruct (elems_of os x) as [l|] eqn:He; [|done].
  rewrite (proj1 (elems_first_app os ext x) _ He). cbn.
  intros H. apply mapM_Some in H. apply mapM_Some.
  eapply Forall2_impl; [exact H|]. intros a b Hab.
  by apply (proj2 (elems_first_app os ext a)).
Qed.

Lemma insert_app_head {A} (l : list A) x y k :
  <[length l := y]> (l ++ x :: k) = l ++ y :: k.
Proof. rewrite insert_app_r_alt by lia. by rewrite Nat.sub_diag. Qed.

Lemma lookup_app_head {A} (l : list A) x k :
  (l ++ x :: k) !! length l = Some x.
Proof. by rewrite list_lookup_middle. Qed.

Lemma InputFader__init___ok st c o r sA :
  host_running st →
  audio_class c = true →
  objs st !! o = Some r →
  _base_objs r = PStream <$> sA →
  sA ≠ [] →
  InputFader__init__ (PObj c o) st
  = Ok (PObj CInputFader (length (objs st)))
       (mkState (objs st ++ [fader_obj (PObj c o) (length (streams st)) sA])
                (streams st ++ (fader_stream <$> (PStream <$> sA)))
                (log st) (server_created st) (server_booted st)).
Proof.
  intros Hh Hc Hr Hb Hne. unfold InputFader__init__.
  assert (Hin : expected_for "o" (PObj c o) = "") by (by destruct c).
  erewrite bind_Ok by (apply assert_args_ok; solve_args).
  erewrite bind_Ok by (by apply PyoObject__init___ok).
  erewrite bind_Ok by (by apply store_attr_new).
  norm_state. rewrite insert_empty.
  assert (Hit : ∀ ext, items_of (objs st ++ ext) (PObj c o)
                       = Some (PStream <$> sA)).
  { intros ext. apply items_of_app. by eapply items_of_bundle. }
  erewrite bind_Ok.
  2:{ apply convertArgsToLists_1. eapply length_items_of. apply Hit. }
  cbn beta iota zeta.
  change ([to_list_form (PObj c o)] !!! 0) with (PObj c o).
  erewrite bind_Ok.
  2:{ apply (mapM_alloc _
               (λ i, fresh_stream (KInputFader (wrap_at (PStream <$> sA) i))
                                  (PFloat 1) (PFloat 0) false)).
      intros i ss Hi.
      erewrite bind_Ok.
      2:{ apply wrap_ok; [apply Hit|]. by apply fmap_nil_inv_ne. }
      reflexivity. }
  norm_state.
  rewrite (fmap_wrap_at_seq
             (λ x, fresh_stream (KInputFader x) (PFloat 1) (PFloat 0) false)).
  erewrite bind_Ok by (apply update_obj_ok; cbn; apply lookup_snoc).
  norm_state. rewrite insert_snoc.
  rewrite length_seq, !length_fmap.
  erewrite bind_Ok.
  2:{ eapply (PyoObject_play_ok _ _ _ _
                (seq (length (streams st)) (length sA))).
      - cbn. apply lookup_snoc.
      - reflexivity.
      - apply Forall_forall. intros s Hs. apply elem_of_seq in Hs.
        cbn. rewrite length_app, !length_fmap. lia. }
  norm_state.
  pose proof (alter_all_new (s_set_playing true) (streams st)
                ((λ x, fresh_stream (KInputFader x) (PFloat 1) (PFloat 0)
                                    false) <$> (PStream <$> sA))) as H.
  rewrite !length_fmap in H. rewrite H.
  rewrite <- (list_fmap_compose _ (s_set_playing true)).
  reflexivity.
Qed.

Lemma lookup_app_second {A} (l : list A) x y :
  (l ++ [x; y]) !! S (length l) = Some y.
Proof.
  rewrite lookup_app_r by lia.
  by replace (S (length l) - length l) with 1 by lia.
Qed.

Lemma Compare__init___ok st c o r sA comp nx items mode code :
  host_running st →
  audio_class c = true →
  objs st !! o = Some r →
  _base_objs r = PStream <$> sA →
  sA ≠ [] →
  operand st comp nx →
  items_of (objs st) (to_list_form comp) = Some items →
  (∀ st', comp_dict (PStr mode) st' = Ok code st') →
  Compare__init__ (PObj c o) comp (PStr mode) (PInt 1) (PInt 0) st
  = Ok (PObj CCompare (length (objs st)))
       (after_compare st (PObj c o) comp mode sA items code).
Proof.
  intros Hh Hc Hr Hb Hne Hop Hit Hcode. unfold Compare__init__.
  assert (Hin : expected_for "o" (PObj c o) = "") by (by destruct c).
  pose proof (operand_valid _ _ _ Hop) as Hcomp.
  destruct (operand_items _ _ _ Hop) as (items' & Hit' & Hnx & Hine).
  rewrite Hit in Hit'. injection Hit' as <-.
  erewrite bind_Ok by (apply assert_args_ok; solve_args).
  erewrite bind_Ok by (by apply PyoObject__init___ok).
  erewrite bind_Ok by (by apply store_attr_new).
  norm_state.
  erewrite bind_Ok by (by apply store_attr_new).
  norm_state.
  erewrite bind_Ok by (by apply store_attr_new).
  norm_state.
  erewrite bind_Ok.
  2:{ apply (InputFader__init___ok _ c o r sA); try done.
      cbn. by apply lookup_app_l_Some. }
  norm_state. rewrite length_app. cbn [length]. rewrite Nat.add_1_r.
  rewrite <- app_assoc. cbn [app].
  erewrite bind_Ok.
  2:{ unfold store_attr. eapply update_obj_ok. cbn.
      apply lookup_app_head. }
  norm_state. rewrite insert_app_head.
  set (cobj := mkObj _ _ _ _ _ _ _ _ _ _).
  set (os' := objs st ++ [cobj; fader_obj (PObj c o) (length (streams st)) sA]).
  assert (Hfad : items_of os' (PObj CInputFader (S (length (objs st))))
                 = Some (PStream <$> seq (length (streams st)) (length sA))).
  { eapply items_of_bundle; [apply lookup_app_second|done]. }
  assert (Hitems : items_of os' (to_list_form comp) = Some items)
    by (by apply items_of_app).
  erewrite bind_Ok.
  2:{ apply (convertArgsToLists_ok _ _
               [length sA; length items; 1; 1; 1]); [done|].
      cbn [fmap list_fmap mapM]. norm_state. fold os'.
      change (to_list_form (PObj CInputFader (S (length (objs st)))))
        with (PObj CInputFader (S (length (objs st)))).
      rewrite (length_items_of _ _ _ Hfad), (length_items_of _ _ _ Hitems).
      cbn. by rewrite length_fmap, length_seq. }
  cbn beta iota zeta.
  assert (Hmax : max_list [length sA; length items; 1; 1; 1]
                 = max (length sA) (length items)).
  { cbn [max_list_with id]. destruct items; [done|]. cbn [length]. lia. }
  rewrite Hmax.
  change ((to_list_form
             <$> [PObj CInputFader (S (length (objs st))); comp; PStr mode;
                  PInt 1; PInt 0]) !!! 0)
    with (PObj CInputFader (S (length (objs st)))).
  change ((to_list_form
             <$> [PObj CInputFader (S (length (objs st))); comp; PStr mode;
                  PInt 1; PInt 0]) !!! 1)
    with (to_list_form comp).
  change ((to_list_form
             <$> [PObj CInputFader (S (length (objs st))); comp; PStr mode;
                  PInt 1; PInt 0]) !!! 2)
    with (PList [PStr mode]).
  change ((to_list_form
             <$> [PObj CInputFader (S (length (objs st))); comp; PStr mode;
                  PInt 1; PInt 0]) !!! 3)
    with (PList [PInt 1]).
  change ((to_list_form
             <$> [PObj CInputFader (S (length (objs st))); comp; PStr mode;
                  PInt 1; PInt 0]) !!! 4)
    with (PList [PInt 0]).
  erewrite bind_Ok.
  2:{ apply (mapM_alloc _
               (λ i, fresh_stream
                       (KCompare
                          (wrap_at (PStream <$> seq (length (streams st))
                                                    (length sA)) i)
                          (wrap_at items i) code)
                       (PInt 1) (PInt 0) false)).
      intros i ss Hi.
      erewrite bind_Ok.
      2:{ apply wrap_ok; [exact Hfad|]. apply fmap_nil_inv_ne.
          destruct sA; [done|]. done. }
      erewrite bind_Ok by (by apply wrap_ok).
      erewrite bind_Ok by (by apply wrap_scalar).
      erewrite bind_Ok by apply Hcode.
      erewrite bind_Ok by (by apply wrap_scalar).
      erewrite bind_Ok by (by apply wrap_scalar).
      reflexivity. }
  norm_state. fold os'.
  erewrite bind_Ok.
  2:{ eapply update_obj_ok. cbn. apply lookup_app_head. }
  norm_state. unfold os'. rewrite insert_app_head.
  rewrite length_seq, length_app, !length_fmap.
  erewrite bind_Ok.
  2:{ eapply (PyoObject_play_ok _ _ _ _
                (seq (length (streams st) + length sA)
                     (max (length sA) (length items)))).
      - cbn. apply lookup_app_head.
      - reflexivity.
      - apply Forall_forall. intros s Hs. apply elem_of_seq in Hs.
        cbn. rewrite !length_app, !length_fmap, length_seq. lia. }
  norm_state.
  pose proof (alter_all_new (s_set_playing true)
                (streams st ++ (fader_stream <$> (PStream <$> sA)))
                ((λ i, fresh_stream
                         (KCompare
                            (wrap_at (PStream <$> seq (length (streams st))
                                                      (length sA)) i)
                            (wrap_at items i) code)
                         (PInt 1) (PInt 0) false)
                   <$> seq 0 (max (length sA) (length items)))) as H.
  rewrite length_app, !length_fmap, length_seq in H. rewrite H.
  rewrite <- (list_fmap_compose _ (s_set_playing true)).
  unfold mret, M_ret, after_compare. rewrite <- app_assoc. reflexivity.
Qed.

Lemma comp_dict_modes mode code st :
  (mode, code) ∈ compare_modes → comp_dict (PStr mode) st = Ok code st.
Proof.
  unfold compare_modes. intros H.
  repeat (apply elem_of_cons in H as [[= -> ->]|H]; [reflexivity|]).
  by apply elem_of_nil in H.
Qed.

Lemma compare_node_after st c o r sA comp nx items mode code :
  host_running st →
  audio_class c = true →
  objs st !! o = Some r →
  _base_objs r = PStream <$> sA →
  sA ≠ [] →
  operand st comp nx →
  items_of (objs st) (to_list_form comp) = Some items →
  (mode, code) ∈ compare_modes →
  compare_node st
    (Compare__init__ (PObj c o) comp (PStr mode) (PInt 1) (PInt 0))
    mode code.
Proof.
  intros Hh Hc Hr Hb Hne Hop Hit Hmode.
  eexists. split.
  { eapply Compare__init___ok; try done.
    intros. by apply comp_dict_modes. }
  assert (Hlmax : 1 ≤ max (length sA) (length items)).
  { destruct sA; [done|]. cbn [length]. lia. }
  split; [|split].
  - unfold attr_of, after_compare. cbn [objs].
    rewrite lookup_app_head. cbn. by simplify_map_eq.
  - unfold base_of, after_compare. cbn [objs].
    rewrite lookup_app_head. cbn.
    destruct (max (length sA) (length items)); [lia|done].
  - intros x. unfold base_of, after_compare. cbn [objs].
    rewrite lookup_app_head. cbn [from_option compare_obj _base_objs].
    intros Hx. apply list_elem_of_fmap in Hx as (s & -> & Hs).
    apply elem_of_seq in Hs.
    exists s. do 2 eexists. split; [done|].
    unfold kind_of. cbn [streams].
    rewrite lookup_app_r by lia.
    rewrite lookup_app_r by (rewrite !length_fmap; lia).
    rewrite !length_fmap, list_lookup_fmap.
    rewrite lookup_seq_lt by lia. reflexivity.
Qed.

(** C5: against [None] the operators [<], [<=], [==], [>], [>=] return
    [False] and [!=] returns [True], leaving the store as it was (no node
    is built); against any other operand each operator is the [Compare]
    constructor applied with the operator's own mode, and for a bundle of
    streams compared with a number, a list of numbers or a bundle it
    returns a new [Compare] node carrying that mode. *)
Theorem comparison_operators st c o :
  (PyoObject__lt__ c o PNone st = Ok (PBool false) st
   ∧ PyoObject__le__ c o PNone st = Ok (PBool false) st
   ∧ PyoObject__eq__ c o PNone st = Ok (PBool false) st
   ∧ PyoObject__gt__ c o PNone st = Ok (PBool false) st
   ∧ PyoObject__ge__ c o PNone st = Ok (PBool false) st
   ∧ PyoObject__ne__ c o PNone st = Ok (PBool true) st)
  ∧ (PyoObject__lt__ = comparison_operator "<"
     ∧ PyoObject__le__ = comparison_operator "<="
     ∧ PyoObject__eq__ = comparison_operator "=="
     ∧ PyoObject__gt__ = comparison_operator ">"
     ∧ PyoObject__ge__ = comparison_operator ">="
     ∧ PyoObject__ne__ = comparison_operator "!=")
  ∧ (∀ mode code x,
       (mode, code) ∈ compare_modes →
       x ≠ PNone →
       comparison_operator mode c o x st
       = Compare__init__ (PObj c o) x (PStr mode) (PInt 1) (PInt 0) st
       ∧ (∀ sA nx,
            host_running st →
            audio_class c = true →
            stream_bundle st o sA →
            operand st x nx →
            compare_node st (comparison_operator mode c o x) mode code)).
Proof.
  split; [by repeat split|]. split; [by repeat split|].
  intros mode code x Hmode Hx.
  assert (Heq : comparison_operator mode c o x
                = Compare__init__ (PObj c o) x (PStr mode) (PInt 1) (PInt 0))
    by (by destruct x).
  split; [by rewrite Heq|].
  intros sA nx Hh Hc Hself Hop. rewrite Heq.
  destruct (stream_bundle_inv _ _ _ Hself) as (r & Hr & Hb & Hne & _).
  destruct (operand_items _ _ _ Hop) as (items & Hit & _).
  by eapply compare_node_after.
Qed.

Lemma comparison_operators_witness :
  PyoObject__ne__ CGeneric 0 PNone example_state
  = Ok (PBool true) example_state
  ∧ PyoObject__eq__ CGeneric 0 PNone example_state
    = Ok (PBool false) example_state
  ∧ compare_node example_state
      (comparison_operator "<=" CGeneric 0 (PFloat 0.5)) "<=" 1.
Proof.
  destruct (comparison_operators example_state CGeneric 0)
    as ((_ & _ & Heq & _ & _ & Hne) & _ & Hnode).
  split; [exact Hne|]. split; [exact Heq|].
  destruct (Hnode "<=" 1 (PFloat 0.5)
              ltac:(right; left) ltac:(discriminate)) as [_ H].
  apply (H [0; 1; 2] 1 ltac:(solve_host) eq_refl ltac:(solve_bundle)).
  by apply operand_number.
Defined.

(** ** The ramp scheduler *)

Lemma numeric_inv x :
  numeric x = true →
  Forall (λ y, is_number y = true) (numeric_items x)
  ∧ numeric_items x ≠ []
  ∧ to_list_form x = PList (numeric_items x)
  ∧ expected_for "n" x = ""
  ∧ expected_for "O" x = "".
Proof.
  destruct x; try done; cbn [numeric numeric_items].
  - intros _. repeat split; try done. by repeat constructor.
  - intros _. repeat split; try done. by repeat constructor.
  - destruct l as [|y l]; [done|]. intros H.
    repeat split; try done. apply Forall_forall. intros z Hz.
    rewrite forallb_forall in H. apply H. by apply list_elem_of_In.
Qed.

Lemma numeric_items_of os x :
  numeric x = true →
  items_of os (to_list_form x) = Some (numeric_items x).
Proof.
  intros H. destruct (numeric_inv _ H) as (Hall & _ & -> & _).
  unfold items_of. cbn. by apply mapM_first_of_numbers.
Qed.

Lemma numeric_len_of os x :
  numeric x = true →
  len_of os (to_list_form x) = Some (length (numeric_items x)).
Proof. intros H. apply length_items_of. by apply numeric_items_of. Qed.

Lemma numeric_items_length x :
  numeric x = true → 1 ≤ length (numeric_items x).
Proof.
  intros H. destruct (numeric_inv _ H) as (_ & Hne & _).
  destruct (numeric_items x); [done|cbn; lia].
Qed.

Lemma VarPort__init___ok st value time init o attr :
  host_running st →
  numeric value = true →
  numeric time = true →
  numeric init = true →
  VarPort__init__ value time init (PResetMethod o) (PStr attr)
                  (PInt 1) (PInt 0) st
  = Ok (PObj CVarPort (length (objs st)))
       (mkState
          (objs st
           ++ [varport_obj value time (PResetMethod o)
                 (PStream
                    <$> seq (length (streams st))
                          (max (length (numeric_items value))
                               (max (length (numeric_items time))
                                    (length (numeric_items init)))))])
          (streams st
           ++ (varport_stream (numeric_items value) (numeric_items time)
                              (numeric_items init) (PResetMethod o)
                              (PStr attr)
                 <$> seq 0 (max (length (numeric_items value))
                                (max (length (numeric_items time))
                                     (length (numeric_items init))))))
          (log st) (server_created st) (server_booted st)).
Proof.
  intros Hh Hv Ht Hi. unfold VarPort__init__.
  destruct (numeric_inv _ Hv) as (_ & Hvne & _ & Hvn & _).
  destruct (numeric_inv _ Ht) as (_ & Htne & _ & Htn & _).
  destruct (numeric_inv _ Hi) as (_ & Hine & _ & Hin & _).
  pose proof (numeric_items_length _ Hv) as Hvl.
  pose proof (numeric_items_length _ Ht) as Htl.
  pose proof (numeric_items_length _ Hi) as Hil.
  set (lmax := max (length (numeric_items value))
                   (max (length (numeric_items time))
                        (length (numeric_items init)))).
  erewrite bind_Ok by (apply assert_args_ok; solve_args).
  erewrite bind_Ok by (by apply PyoObject__init___ok).
  erewrite bind_Ok by (by apply store_attr_new).
  norm_state.
  erewrite bind_Ok by (by apply store_attr_new).
  norm_state.
  erewrite bind_Ok by (by apply store_attr_new).
  norm_state.
  erewrite bind_Ok.
  2:{ apply (convertArgsToLists_ok _ _
               [length (numeric_items value); length (numeric_items time);
                length (numeric_items init); 1; 1; 1; 1]); [done|].
      cbn [fmap list_fmap mapM]. norm_state.
      rewrite (numeric_len_of _ value), (numeric_len_of _ time),
        (numeric_len_of _ init) by done.
      reflexivity. }
  cbn beta iota zeta.
  assert (Hmax : max_list [length (numeric_items value);
                           length (numeric_items time);
                           length (numeric_items init); 1; 1; 1; 1] = lmax).
  { cbn [max_list_with id]. unfold lmax. lia. }
  rewrite Hmax.
  cbn [fmap list_fmap lookup_total list_lookup_total].
  change (to_list_form (PResetMethod o)) with (PList [PResetMethod o]).
  change (to_list_form (PStr attr)) with (PList [PStr attr]).
  change (to_list_form (PInt 1)) with (PList [PInt 1]).
  change (to_list_form (PInt 0)) with (PList [PInt 0]).
  erewrite bind_Ok.
  2:{ apply (mapM_alloc _
               (λ i, fresh_stream
                       (KVarPort (wrap_at (numeric_items value) i)
                                 (wrap_at (numeric_items time) i)
                                 (wrap_at (numeric_items init) i)
                                 (PResetMethod o) (PStr attr))
                       (PInt 1) (PInt 0) false)).
      intros i ss Hin'.
      erewrite bind_Ok by (apply wrap_ok; [by apply numeric_items_of|done]).
      erewrite bind_Ok by (apply wrap_ok; [by apply numeric_items_of|done]).
      erewrite bind_Ok by (apply wrap_ok; [by apply numeric_items_of|done]).
      erewrite bind_Ok by (by apply wrap_scalar).
      erewrite bind_Ok by (by apply wrap_scalar).
      erewrite bind_Ok by (by apply wrap_scalar).
      erewrite bind_Ok by (by apply wrap_scalar).
      reflexivity. }
  norm_state.
  erewrite bind_Ok by (apply update_obj_ok; cbn; apply lookup_snoc).
  norm_state. rewrite insert_snoc, length_seq.
  erewrite bind_Ok.
  2:{ eapply (PyoObject_play_ok _ _ _ _ (seq (length (streams st)) lmax)).
      - cbn. apply lookup_snoc.
      - reflexivity.
      - apply Forall_forall. intros s Hs. apply elem_of_seq in Hs.
        cbn. rewrite length_app, length_fmap, length_seq. lia. }
  norm_state.
  pose proof (alter_all_new (s_set_playing true) (streams st)
                ((λ i, fresh_stream
                         (KVarPort (wrap_at (numeric_items value) i)
                                   (wrap_at (numeric_items time) i)
                                   (wrap_at (numeric_items init) i)
                                   (PResetMethod o) (PStr attr))
                         (PInt 1) (PInt 0) false) <$> seq 0 lmax)) as H.
  rewrite length_fmap, length_seq in H. rewrite H.
  rewrite <- (list_fmap_compose _ (s_set_playing true)).
  reflexivity.
Qed.

Lemma getattr_ok o attr st r v :
  objs st !! o = Some r → attr_value r attr = Some v →
  getattr o attr st = Ok v st.
Proof.
  intros Hr Hv. unfold getattr, attr_value in *.
  erewrite bind_Ok by (by apply get_obj_ok).
  destruct (String.eqb attr "mul"); [by simplify_eq|].
  destruct (String.eqb attr "add"); [by simplify_eq|].
  destruct (resolvable attr); [|done].
  by rewrite Hv.
Qed.

Lemma attr_value_addressable r attr v :
  attr_value r attr = Some v → addressable attr = true.
Proof.
  unfold attr_value, addressable.
  destruct (String.eqb attr "mul"); [done|].
  destruct (String.eqb attr "add"); [done|].
  by destruct (resolvable attr).
Qed.

Lemma mapM_read {A B} (f : A → M B) (g : A → B) (l : list A) st :
  (∀ x, x ∈ l → f x st = Ok (g x) st) →
  mapM f l st = Ok (g <$> l) st.
Proof.
  induction l as [|x l IH]; intros H; [done|]. cbn [mapM].
  erewrite bind_Ok by (apply H; by left).
  erewrite bind_Ok by (apply IH; intros; apply H; by right).
  done.
Qed.

Lemma PyoObject_get_all_ok p st rp sP :
  objs st !! p = Some rp →
  _base_objs rp = PStream <$> sP →
  Forall (λ s, s < length (streams st)) sP →
  PyoObject_get_all CVarPort p st = Ok (sampled (streams st) sP) st.
Proof.
  intros Hr Hb Hv. unfold PyoObject_get_all.
  erewrite bind_Ok by reflexivity.
  erewrite bind_Ok by (by apply get_obj_ok).
  rewrite Hb.
  erewrite bind_Ok.
  2:{ apply (mapM_read _ (λ x, PFloat (value_at (streams st) (sid_of x)))).
      intros x Hx. apply list_elem_of_fmap in Hx as (s & -> & Hs).
      eapply Forall_forall in Hv; [|exact Hs].
      destruct (lookup_lt_is_Some_2 _ _ Hv) as [rs Hrs].
      cbn. unfold get_stream, value_at, mbind, M_bind. by rewrite Hrs. }
  unfold sampled. by rewrite <- list_fmap_compose.
Qed.

Lemma PyoObject_isPlaying_ok p st rp x sP rs :
  objs st !! p = Some rp →
  _base_objs rp = PStream <$> (x :: sP) →
  streams st !! x = Some rs →
  PyoObject_isPlaying CVarPort p st = Ok (s_playing rs) st.
Proof.
  intros Hr Hb Hx. unfold PyoObject_isPlaying.
  erewrite bind_Ok by reflexivity.
  erewrite bind_Ok by (by apply get_obj_ok).
  rewrite Hb. cbn. unfold get_stream, mbind, M_bind. by rewrite Hx.
Qed.

Lemma same_but_factors_refl ss : same_but_factors ss ss.
Proof. split; [done|]. intros s r Hr. eauto. Qed.

Lemma same_but_factors_foldl {A} (s : A → nat) (u : A → stream → stream)
      (l : list A) (ss : list stream) :
  (∀ x r, s_kind (u x r) = s_kind r
          ∧ s_playing (u x r) = s_playing r
          ∧ s_value (u x r) = s_value r) →
  same_but_factors ss (foldl (λ ss x, alter (u x) (s x) ss) ss l).
Proof.
  intros Hu. split; [apply length_foldl_alter|].
  intros k r Hr.
  apply (lookup_foldl_alter_inv s u
           (λ r r', s_kind r' = s_kind r ∧ s_playing r' = s_playing r
                    ∧ s_value r' = s_value r)); [done| |done].
  intros x r0 r' (H1 & H2 & H3). destruct (Hu x r') as (H1' & H2' & H3').
  repeat split; congruence.
Qed.

Lemma assign_fields attr v r :
  addressable attr = true →
  attr_value (assign attr v r) attr = Some v
  ∧ _base_objs (assign attr v r) = _base_objs r
  ∧ _op_duplicate (assign attr v r) = _op_duplicate r
  ∧ _signal_dict (assign attr v r) = _signal_dict r
  ∧ _target_dict (assign attr v r) = _target_dict r
  ∧ _callback_dict (assign attr v r) = _callback_dict r.
Proof.
  unfold assign, attr_value, addressable.
  destruct (String.eqb attr "mul") eqn:Hm; [done|].
  destruct (String.eqb attr "add") eqn:Ha; [done|].
  cbn. intros ->. cbn. by rewrite lookup_insert_eq.
Qed.

(** [setattr] replaces the attribute and touches nothing else but the
    post-processing pairs of the bundle's own streams. *)
Lemma setattr_ok c o attr v st r sS nv :
  addressable attr = true →
  core_setter c attr = None →
  objs st !! o = Some r →
  _base_objs r = PStream <$> sS →
  Forall (λ s, s < length (streams st)) sS →
  1 ≤ _op_duplicate r →
  operand st v nv →
  ∃ ss',
    setattr c o attr v st
    = Ok tt (mkState (<[o := assign attr v r]> (objs st)) ss' (log st)
                     (server_created st) (server_booted st))
    ∧ same_but_factors (streams st) ss'.
Proof.
  intros Haddr Hplain Hr Hb Hv Hd Hop. unfold setattr, assign.
  unfold addressable in Haddr.
  destruct (operand_items _ _ _ Hop) as (items & Hit & _ & Hine).
  pose proof (operand_valid _ _ _ Hop) as Hx.
  destruct (String.eqb attr "mul") eqn:Hm.
  { eexists. split.
    - unfold PyoObject_setMul.
      apply (set_factor_ok set_mul base_setMul (λ w, s_set_mul w false));
        try done.
      intros. by apply (base_set_alter (λ w, s_set_mul w false)).
    - by apply same_but_factors_foldl. }
  destruct (String.eqb attr "add") eqn:Ha.
  { eexists. split.
    - unfold PyoObject_setAdd.
      apply (set_factor_ok set_add base_setAdd (λ w, s_set_add w false));
        try done.
      intros. by apply (base_set_alter (λ w, s_set_add w false)).
    - by apply same_but_factors_foldl. }
  cbn in Haddr. rewrite Haddr, Hplain.
  exists (streams st). split; [|apply same_but_factors_refl].
  unfold store_attr. by erewrite update_obj_ok.
Qed.

Lemma numeric_sampled ss sP : sP ≠ [] → numeric (sampled ss sP) = true.
Proof.
  intros Hne. unfold sampled. destruct sP as [|s sP]; [done|].
  assert (∀ l, forallb is_number ((λ s, PFloat (value_at ss s)) <$> l)
               = true) as H by (induction l; [done|by cbn]).
  exact (H (s :: sP)).
Qed.

(** Replacing the record of [o] by one with the same streams keeps every
    bundle of the store. *)
Lemma bundle_after_insert st o r r' p sP :
  objs st !! o = Some r →
  _base_objs r' = _base_objs r →
  stream_bundle st p sP →
  ∃ rp, <[o := r']> (objs st) !! p = Some rp
        ∧ _base_objs rp = PStream <$> sP.
Proof.
  intros Hr Hb Hp.
  destruct (stream_bundle_inv _ _ _ Hp) as (rp & Hrp & Hbp & _).
  destruct (decide (p = o)) as [->|Hne].
  - exists r'. split.
    + apply list_lookup_insert_eq. by eapply lookup_lt_Some.
    + rewrite Hb. congruence.
  - exists rp. by rewrite list_lookup_insert_ne.
Qed.

Lemma ramp_origin_ok st o r r2 attr cur init ss1 :
  objs st !! o = Some r →
  _base_objs r2 = _base_objs r →
  _signal_dict r2 = _signal_dict r →
  ramp_start st r attr cur init ss1 →
  ramp_origin r2 attr cur (put_objs (<[o := r2]> (objs st)) st)
  = Ok init (mkState (<[o := r2]> (objs st)) ss1 (log st)
                     (server_created st) (server_booted st))
  ∧ numeric init = true
  ∧ length ss1 = length (streams st).
Proof.
  intros Hr Hb Hs Hstart. unfold ramp_origin. rewrite Hs.
  destruct Hstart as [Hn Hnone|p sP Hn Hsome Hp Hpl|p sP Hsome Hp Hpl].
  - rewrite Hnone. done.
  - rewrite Hsome.
    destruct (bundle_after_insert _ _ _ r2 _ _ Hr Hb Hp) as (rp & Hrp & Hbp).
    destruct (stream_bundle_inv _ _ _ Hp) as (_ & _ & _ & Hne & Hv & _).
    destruct sP as [|x sP]; [done|]. cbn [hd] in Hpl.
    unfold playing_of in Hpl.
    destruct (streams st !! x) as [rs|] eqn:Hx; [|done].
    injection Hpl as Hpl.
    erewrite bind_Ok by (eapply PyoObject_isPlaying_ok; eauto).
    rewrite Hpl. done.
  - rewrite Hsome.
    destruct (bundle_after_insert _ _ _ r2 _ _ Hr Hb Hp) as (rp & Hrp & Hbp).
    destruct (stream_bundle_inv _ _ _ Hp) as (_ & _ & _ & Hne & Hv & _).
    split; [|split; [by apply numeric_sampled
                    |apply length_foldl_alter]].
    destruct sP as [|x sP]; [done|]. cbn [hd] in Hpl.
    unfold playing_of in Hpl.
    destruct (streams st !! x) as [rs|] eqn:Hx; [|done].
    injection Hpl as Hpl.
    erewrite bind_Ok by (eapply PyoObject_isPlaying_ok; eauto).
    rewrite Hpl.
    erewrite bind_Ok by (eapply PyoObject_get_all_ok; eauto).
    erewrite bind_Ok by (eapply PyoObject_stop_ok; eauto).
    done.
Qed.

(** [set] on a bundle whose attribute is in one of the three situations
    of [ramp_start]. *)
Lemma set_core c o attr value port callback st r sS cur init ss1 :
  core_setter c attr = None →
  host_running st →
  objs st !! o = Some r →
  _base_objs r = PStream <$> sS →
  Forall (λ s, s < length (streams st)) sS →
  1 ≤ _op_duplicate r →
  numeric value = true → numeric port = true →
  is_callback callback = true →
  attr_value r attr = Some cur →
  ramp_start st r attr cur init ss1 →
  ∃ ss4,
    PyoObject_set c o attr value port callback st
    = Ok tt (mkState
        (<[o := set_record attr value callback
                   (PObj CVarPort (length (objs st))) r]> (objs st)
         ++ [varport_obj value port (PResetMethod o)
               (PStream <$> seq (length (streams st))
                              (ramp_len value port init))])
        ss4 (log st) (server_created st) (server_booted st))
    ∧ same_but_factors
        (ss1 ++ (varport_stream (numeric_items value) (numeric_items port)
                                (numeric_items init) (PResetMethod o)
                                (PStr attr)
                   <$> seq 0 (ramp_len value port init)))
        ss4.
Proof.
  intros Hplain Hh Hr Hb Hv Hd Hnv Hnp Hcb Hcur Hstart.
  pose proof (attr_value_addressable _ _ _ Hcur) as Haddr.
  unfold PyoObject_set.
  destruct (numeric_inv _ Hnv) as (_ & _ & _ & Hvn & _).
  destruct (numeric_inv _ Hnp) as (_ & _ & _ & Hpn & _).
  assert (expected_for "C" callback = "") as HC by (by destruct callback).
  erewrite bind_Ok by (apply assert_args_ok; solve_args).
  erewrite bind_Ok by (by apply update_obj_ok).
  pose proof (lookup_lt_Some _ _ _ Hr) as Hlt.
  erewrite bind_Ok.
  2:{ apply update_obj_ok. norm_state. by apply list_lookup_insert_eq. }
  norm_state. rewrite list_insert_insert_eq.
  set (r2 := mkObj _ _ _ _ _ _ _ _ _ _).
  assert (Hr2 : <[o := r2]> (objs st) !! o = Some r2)
    by (by apply list_lookup_insert_eq).
  erewrite bind_Ok by (by eapply (getattr_ok _ _ _ r2 cur)).
  erewrite bind_Ok by (by apply get_obj_ok).
  destruct (ramp_origin_ok st o r r2 attr cur init ss1 Hr eq_refl eq_refl
              Hstart) as (Hro & Hni & Hl1).
  erewrite bind_Ok by exact Hro.
  erewrite bind_Ok by (by apply VarPort__init___ok).
  norm_state. rewrite length_insert, Hl1.
  fold (ramp_len value port init).
  set (vobj := varport_obj _ _ _ _).
  set (vss := _ <$> seq 0 _).
  erewrite bind_Ok.
  2:{ apply update_obj_ok. norm_state.
      rewrite lookup_app_l by (by rewrite length_insert). exact Hr2. }
  norm_state.
  rewrite insert_app_l by (by rewrite length_insert).
  rewrite list_insert_insert_eq.
  set (r3 := mkObj _ _ _ _ _ _ _ _ _ _).
  assert (Hr3 : (<[o := r3]> (objs st) ++ [vobj]) !! o = Some r3).
  { rewrite lookup_app_l by (by rewrite length_insert).
    by apply list_lookup_insert_eq. }
  erewrite bind_Ok by (by apply get_obj_ok).
  assert (Hsig : _signal_dict r3 !! attr
                 = Some (PObj CVarPort (length (objs st))))
    by apply lookup_insert_eq.
  rewrite Hsig.
  pose proof (numeric_items_length _ Hnv) as Hvl.
  set (st5 := mkState _ _ _ _ _).
  assert (Hop : operand st5 (PObj CVarPort (length (objs st)))
                        (length (seq (length (streams st))
                                     (ramp_len value port init)))).
  { apply operand_bundle; [done|].
    unfold stream_bundle, base_of, dup_of, st5. norm_state.
    rewrite lookup_app_r by (by rewrite length_insert).
    rewrite length_insert, Nat.sub_diag. cbn [lookup list_lookup from_option].
    split; [by eexists|]. split; [done|].
    split; [unfold ramp_len; destruct (Nat.max _ _) eqn:E; [lia|done]|].
    split; [|done].
    apply Forall_forall. intros s Hs. apply elem_of_seq in Hs.
    rewrite length_app. unfold vss. rewrite length_fmap, length_seq. lia. }
  assert (Hv5 : Forall (λ s, s < length (streams st5)) sS).
  { unfold st5. norm_state. eapply Forall_impl; [exact Hv|].
    intros s Hs. cbn beta in Hs. rewrite length_app. lia. }
  destruct (setattr_ok c o attr _ st5 r3 sS _ Haddr Hplain Hr3 Hb Hv5 Hd Hop)
    as (ss4 & Hset & Hsame).
  exists ss4. split; [|exact Hsame].
  rewrite Hset. unfold st5. norm_state.
  rewrite insert_app_l by (by rewrite length_insert).
  rewrite list_insert_insert_eq.
  reflexivity.
Qed.

Lemma numeric_operand st x :
  numeric x = true → operand st x (length (numeric_items x)).
Proof.
  intros H. destruct (numeric_inv _ H) as (Hall & Hne & _).
  destruct x; try done; cbn [numeric_items] in *.
  - by apply operand_number.
  - by apply operand_number.
  - by apply operand_list.
Qed.

Lemma clear_callback_fields attr r :
  _base_objs (clear_callback attr r) = _base_objs r
  ∧ _op_duplicate (clear_callback attr r) = _op_duplicate r
  ∧ _signal_dict (clear_callback attr r) = _signal_dict r
  ∧ _target_dict (clear_callback attr r) = _target_dict r
  ∧ attr_value (clear_callback attr r) attr = attr_value r attr.
Proof.
  unfold clear_callback.
  destruct (_callback_dict r !! attr) as [[]|]; done.
Qed.

(** The completion handler while the attribute still holds a ramp. *)
Lemma reset_fires c o attr st r sS cur target callback cp q sQ :
  core_setter c attr = None →
  objs st !! o = Some r →
  _base_objs r = PStream <$> sS →
  Forall (λ s, s < length (streams st)) sS →
  1 ≤ _op_duplicate r →
  attr_value r attr = Some cur →
  isVarPort cur = true →
  _target_dict r !! attr = Some target →
  numeric target = true →
  _callback_dict r !! attr = Some callback →
  is_callback callback = true →
  _signal_dict r !! attr = Some (PObj cp q) →
  stream_bundle st q sQ →
  ∃ ss',
    PyoObject__reset_from_set c o attr st
    = Ok tt (mkState (<[o := reset_record attr target r]> (objs st))
                     (alter_all (s_set_playing false) sQ ss')
                     (log st ++ callback_events callback)
                     (server_created st) (server_booted st))
    ∧ same_but_factors (streams st) ss'.
Proof.
  intros Hplain Hr Hb Hv Hd Hcur Hvp Ht Hnt Hc Hcb Hs Hq.
  pose proof (attr_value_addressable _ _ _ Hcur) as Haddr.
  unfold PyoObject__reset_from_set.
  erewrite bind_Ok by (by eapply getattr_ok).
  rewrite Hvp.
  destruct (setattr_ok c o attr target st r sS _ Haddr Hplain Hr Hb Hv Hd
              (numeric_operand st _ Hnt)) as (ss' & Hset & Hsame).
  destruct (assign_fields attr target r Haddr)
    as (Ha1 & Ha2 & Ha3 & Ha4 & Ha5 & Ha6).
  pose proof (lookup_lt_Some _ _ _ Hr) as Hlt.
  set (r1 := assign attr target r) in *.
  assert (Hr1 : <[o := r1]> (objs st) !! o = Some r1)
    by (by apply list_lookup_insert_eq).
  destruct (clear_callback_fields attr r1) as (Hc1 & Hc2 & Hc3 & Hc4 & Hc5).
  assert (Hfirst :
    (r0 ← get_obj o;
     match _target_dict r0 !! attr with
     | None => raise (KeyError attr)
     | Some target =>
         setattr c o attr target;;
         r0 ← get_obj o;
         match _callback_dict r0 !! attr with
         | None => raise (KeyError attr)
         | Some PNone => mret tt
         | Some cb =>
             call0 cb;;
             update_obj o (λ r, set_callback_dict
                                  (delete attr (_callback_dict r)) r)
         end
     end) st
    = Ok tt (mkState (<[o := reset_record attr target r]> (objs st)) ss'
                     (log st ++ callback_events callback)
                     (server_created st) (server_booted st))).
  { erewrite bind_Ok by (by apply get_obj_ok).
    rewrite Ht.
    erewrite bind_Ok by exact Hset.
    erewrite bind_Ok by (by apply get_obj_ok).
    unfold reset_record, clear_callback. fold r1. rewrite Ha6, Hc.
    destruct callback; try done.
    - cbn [callback_events]. by rewrite app_nil_r.
    - cbn [call0 callback_events].
      erewrite bind_Ok by reflexivity.
      erewrite update_obj_ok by (norm_state; exact Hr1).
      norm_state. rewrite list_insert_insert_eq, ?Ha6. reflexivity. }
  erewrite bind_Ok by exact Hfirst.
  set (r2 := reset_record attr target r).
  assert (Hr2 : <[o := r2]> (objs st) !! o = Some r2)
    by (by apply list_lookup_insert_eq).
  erewrite bind_Ok by (by apply get_obj_ok).
  unfold stop_signal.
  assert (Hs2 : _signal_dict r2 !! attr = Some (PObj cp q)).
  { unfold r2, reset_record. fold r1. by rewrite Hc3, Ha4. }
  rewrite Hs2.
  destruct (bundle_after_insert st o r r2 q sQ Hr) as (rq & Hrq & Hbq);
    [unfold r2, reset_record; fold r1; by rewrite Hc1, Ha2|done|].
  destruct (stream_bundle_inv _ _ _ Hq) as (_ & _ & _ & _ & Hvq & _).
  destruct Hsame as [Hlen Hsame].
  erewrite bind_Ok.
  2:{ eapply PyoObject_stop_ok; [exact Hrq|exact Hbq|].
      norm_state. by rewrite Hlen. }
  exists ss'. split; [done|]. split; done.
Qed.

(** The completion handler once the attribute holds something else than
    a ramp: only the registered signal is stopped. *)
Lemma reset_idle c o attr st r cur cp q sQ :
  objs st !! o = Some r →
  attr_value r attr = Some cur →
  isVarPort cur = false →
  _signal_dict r !! attr = Some (PObj cp q) →
  stream_bundle st q sQ →
  PyoObject__reset_from_set c o attr st
  = Ok tt (put_streams (alter_all (s_set_playing false) sQ (streams st)) st).
Proof.
  intros Hr Hcur Hvp Hs Hq.
  unfold PyoObject__reset_from_set.
  erewrite bind_Ok by (by eapply getattr_ok).
  rewrite Hvp.
  erewrite bind_Ok by reflexivity.
  erewrite bind_Ok by (by apply get_obj_ok).
  unfold stop_signal. rewrite Hs.
  destruct (stream_bundle_inv _ _ _ Hq) as (rq & Hrq & Hbq & _ & Hvq & _).
  erewrite bind_Ok by (by eapply PyoObject_stop_ok).
  done.
Qed.

Lemma set_record_fields attr value callback vp r :
  addressable attr = true →
  attr_value (set_record attr value callback vp r) attr = Some vp
  ∧ _base_objs (set_record attr value callback vp r) = _base_objs r
  ∧ _op_duplicate (set_record attr value callback vp r) = _op_duplicate r
  ∧ _signal_dict (set_record attr value callback vp r) !! attr = Some vp
  ∧ _target_dict (set_record attr value callback vp r) !! attr = Some value
  ∧ _callback_dict (set_record attr value callback vp r) !! attr
    = Some callback.
Proof.
  intros Haddr. unfold set_record.
  match goal with |- context [assign attr vp ?x] =>
    destruct (assign_fields attr vp x Haddr) as (H1 & H2 & H3 & H4 & H5 & H6)
  end.
  rewrite H1, H2, H3, H4, H5, H6. norm_state.
  by rewrite !lookup_insert_eq.
Qed.

Lemma reset_record_fields attr target r callback :
  addressable attr = true →
  _callback_dict r !! attr = Some callback →
  is_callback callback = true →
  attr_value (reset_record attr target r) attr = Some target
  ∧ _base_objs (reset_record attr target r) = _base_objs r
  ∧ _signal_dict (reset_record attr target r) = _signal_dict r
  ∧ _callback_dict (reset_record attr target r) !! attr
    = match callback with PNone => Some PNone | _ => None end.
Proof.
  intros Haddr Hc Hcb. unfold reset_record.
  destruct (assign_fields attr target r Haddr)
    as (H1 & H2 & H3 & H4 & H5 & H6).
  destruct (clear_callback_fields attr (assign attr target r))
    as (G1 & G2 & G3 & G4 & G5).
  rewrite G5, G1, G3, H1, H2, H4. repeat split; try done.
  unfold clear_callback. rewrite H6, Hc.
  destruct callback; try done.
  - by rewrite H6.
  - norm_state. by rewrite lookup_delete_eq.
Qed.

(** The ramp [set] has just built is a bundle of the store. *)
Lemma new_ramp_bundle st' os r' o vobj m n :
  objs st' = <[o := r']> os ++ [vobj] →
  _base_objs vobj = PStream <$> seq m n →
  _op_duplicate vobj = 1 →
  1 ≤ n →
  length (streams st') = m + n →
  stream_bundle st' (length os) (seq m n).
Proof.
  intros Ho Hb Hd Hn Hl. unfold stream_bundle, base_of, dup_of.
  rewrite Ho, lookup_app_r by (by rewrite length_insert).
  rewrite length_insert, Nat.sub_diag. cbn [lookup list_lookup from_option].
  split; [by eexists|]. split; [done|].
  split; [destruct n; [lia|done]|].
  split; [|lia].
  apply Forall_forall. intros s Hs. apply elem_of_seq in Hs. lia.
Qed.

Lemma ramp_len_pos value port init :
  numeric value = true → 1 ≤ ramp_len value port init.
Proof.
  intros H. pose proof (numeric_items_length _ H). unfold ramp_len. lia.
Qed.

Lemma ramp_start_inv st r attr cur init ss1 :
  ramp_start st r attr cur init ss1 →
  numeric init = true ∧ length ss1 = length (streams st).
Proof.
  intros [Hn _|p sP Hn _ _ _|p sP _ Hp _]; try done.
  destruct (stream_bundle_inv _ _ _ Hp) as (_ & _ & _ & Hne & _).
  split; [by apply numeric_sampled|apply length_foldl_alter].
Qed.

Lemma numeric_not_ramp x : numeric x = true → isVarPort x = false.
Proof. by destruct x. Qed.

Lemma set_completes c o attr value port callback st r sS cur init ss1 :
  core_setter c attr = None →
  host_running st →
  objs st !! o = Some r →
  _base_objs r = PStream <$> sS →
  Forall (λ s, s < length (streams st)) sS →
  1 ≤ _op_duplicate r →
  numeric value = true →
  numeric port = true →
  is_callback callback = true →
  attr_value r attr = Some cur →
  ramp_start st r attr cur init ss1 →
  ∃ ss4 ss5,
    PyoObject_set c o attr value port callback st
    = Ok tt (mkState (<[o := (set_record attr value callback (PObj CVarPort (length (objs st))) r)]> (objs st) ++ [varport_obj value port (PResetMethod o) (PStream <$> seq (length (streams st)) (ramp_len value port init))]) ss4 (log st)
                     (server_created st) (server_booted st))
    ∧ same_but_factors (ss1 ++ (varport_stream (numeric_items value) (numeric_items port) (numeric_items init) (PResetMethod o) (PStr attr) <$> seq 0 (ramp_len value port init))) ss4
    ∧ PyoObject__reset_from_set c o attr
        (mkState (<[o := (set_record attr value callback (PObj CVarPort (length (objs st))) r)]> (objs st) ++ [varport_obj value port (PResetMethod o) (PStream <$> seq (length (streams st)) (ramp_len value port init))]) ss4 (log st)
                 (server_created st) (server_booted st))
      = Ok tt (mkState (<[o := (reset_record attr value (set_record attr value callback (PObj CVarPort (length (objs st))) r))]> (objs st) ++ [varport_obj value port (PResetMethod o) (PStream <$> seq (length (streams st)) (ramp_len value port init))])
                       (alter_all (s_set_playing false) (seq (length (streams st)) (ramp_len value port init)) ss5)
                       (log st ++ callback_events callback)
                       (server_created st) (server_booted st))
    ∧ same_but_factors ss4 ss5
    ∧ PyoObject__reset_from_set c o attr
        (mkState (<[o := (reset_record attr value (set_record attr value callback (PObj CVarPort (length (objs st))) r))]> (objs st) ++ [varport_obj value port (PResetMethod o) (PStream <$> seq (length (streams st)) (ramp_len value port init))])
                 (alter_all (s_set_playing false) (seq (length (streams st)) (ramp_len value port init)) ss5)
                 (log st ++ callback_events callback)
                 (server_created st) (server_booted st))
      = Ok tt (mkState (<[o := (reset_record attr value (set_record attr value callback (PObj CVarPort (length (objs st))) r))]> (objs st) ++ [varport_obj value port (PResetMethod o) (PStream <$> seq (length (streams st)) (ramp_len value port init))])
                 (alter_all (s_set_playing false) (seq (length (streams st)) (ramp_len value port init))
                    (alter_all (s_set_playing false) (seq (length (streams st)) (ramp_len value port init)) ss5))
                 (log st ++ callback_events callback)
                 (server_created st) (server_booted st)).
Proof.
  intros Hplain Hh Hr Hb Hv Hd Hnv Hnp Hcb Hcur Hstart.
  pose proof (attr_value_addressable _ _ _ Hcur) as Haddr.
  set (n := length (objs st)).
  set (m := length (streams st)).
  set (k := ramp_len value port init).
  set (vobj := varport_obj value port (PResetMethod o) (PStream <$> seq m k)).
  set (vss := varport_stream (numeric_items value) (numeric_items port)
                (numeric_items init) (PResetMethod o) (PStr attr)
              <$> seq 0 k).
  set (r1 := set_record attr value callback (PObj CVarPort n) r).
  set (r2 := reset_record attr value r1).
  destruct (set_core c o attr value port callback st r sS cur init ss1)
    as (ss4 & Hset & Hsame4); try done.
  fold n m k vobj vss r1 in Hset, Hsame4.
  destruct (ramp_start_inv _ _ _ _ _ _ Hstart) as [Hni Hl1].
  pose proof (ramp_len_pos value port init Hnv) as Hk. fold k in Hk.
  pose proof (lookup_lt_Some _ _ _ Hr) as Hlt.
  destruct (set_record_fields attr value callback (PObj CVarPort n) r Haddr)
    as (F1 & F2 & F3 & F4 & F5 & F6). fold r1 in F1, F2, F3, F4, F5, F6.
  destruct Hsame4 as [Hl4 Hs4].
  assert (Hlen4 : length ss4 = m + k).
  { rewrite Hl4, length_app, Hl1. unfold vss.
    by rewrite length_fmap, length_seq. }
  set (st1 := mkState (<[o := r1]> (objs st) ++ [vobj]) ss4 (log st)
                      (server_created st) (server_booted st)).
  assert (Hr1 : objs st1 !! o = Some r1).
  { unfold st1. norm_state.
    rewrite lookup_app_l by (by rewrite length_insert).
    by apply list_lookup_insert_eq. }
  destruct (reset_fires c o attr st1 r1 sS (PObj CVarPort n) value callback
              CVarPort n (seq m k)) as (ss5 & Hreset & Hsame5); try done.
  { congruence. }
  { unfold st1. norm_state. eapply Forall_impl; [exact Hv|].
    intros s Hs. cbn beta in Hs. fold m in Hs. lia. }
  { lia. }
  { by apply (new_ramp_bundle st1 (objs st) r1 o vobj). }
  exists ss4, ss5. split; [exact Hset|]. split; [done|].
  unfold st1 in Hreset.
  cbn [objs streams log server_created server_booted] in Hreset.
  rewrite insert_app_l, list_insert_insert_eq in Hreset
    by (by rewrite length_insert).
  fold r2 in Hreset.
  split; [exact Hreset|]. split; [exact Hsame5|].
  destruct (reset_record_fields attr value r1 callback Haddr F6 Hcb)
    as (G1 & G2 & G3 & G4). fold r2 in G1, G2, G3, G4.
  set (st2 := mkState _ (alter_all _ _ ss5) _ _ _).
  rewrite (reset_idle c o attr st2 r2 value CVarPort n (seq m k)); try done.
  - unfold st2. norm_state.
    rewrite lookup_app_l by (by rewrite length_insert).
    by apply list_lookup_insert_eq.
  - by apply numeric_not_ramp.
  - by rewrite G3.
  - apply (new_ramp_bundle st2 (objs st) r2 o vobj); try done.
    unfold st2. norm_state. unfold alter_all.
    rewrite length_foldl_alter. destruct Hsame5 as [-> _]. done.
Qed.


Lemma alter_all_stopped l ss s :
  s ∈ l → s < length ss →
  s_playing <$> alter_all (s_set_playing false) l ss !! s = Some false.
Proof.
  intros Hs Hlt. unfold alter_all.
  induction l as [|x l IH] using rev_ind; [by apply elem_of_nil in Hs|].
  rewrite foldl_app. cbn [foldl].
  destruct (decide (x = s)) as [->|Hne].
  - rewrite list_lookup_alter_eq.
    destruct (lookup_lt_is_Some_2
                (foldl (λ ss s, alter (s_set_playing false) s ss) ss l) s)
      as [rs Hrs]; [by rewrite (length_foldl_alter id)|].
    by rewrite Hrs.
  - rewrite list_lookup_alter_ne by done. apply IH.
    apply elem_of_app in Hs as [Hs|Hs]; [done|].
    apply list_elem_of_singleton in Hs. congruence.
Qed.

Lemma same_but_factors_playing ss ss' s :
  same_but_factors ss ss' → s < length ss →
  s_playing <$> ss' !! s = s_playing <$> ss !! s.
Proof.
  intros [_ H] Hlt. destruct (lookup_lt_is_Some_2 _ _ Hlt) as [rs Hrs].
  destruct (H _ _ Hrs) as (r' & Hr' & _ & Hp & _).
  rewrite Hr', Hrs. cbn. by rewrite Hp.
Qed.

Lemma same_but_factors_kind ss ss' s :
  same_but_factors ss ss' → s < length ss →
  s_kind <$> ss' !! s = s_kind <$> ss !! s.
Proof.
  intros [_ H] Hlt. destruct (lookup_lt_is_Some_2 _ _ Hlt) as [rs Hrs].
  destruct (H _ _ Hrs) as (r' & Hr' & Hk & _).
  rewrite Hr', Hrs. cbn. by rewrite Hk.
Qed.

Lemma lookup_self_after {A} (os : list A) o (r1 vobj : A) :
  o < length os → (<[o := r1]> os ++ [vobj]) !! o = Some r1.
Proof.
  intros Hlt. rewrite lookup_app_l by (by rewrite length_insert).
  by apply list_lookup_insert_eq.
Qed.

Lemma lookup_new_after {A} (os : list A) o (r1 vobj : A) :
  (<[o := r1]> os ++ [vobj]) !! length os = Some vobj.
Proof.
  rewrite lookup_app_r by (by rewrite length_insert).
  by rewrite length_insert, Nat.sub_diag.
Qed.

(** C3: a ramp started by [set] that completes naturally.  [set] leaves
    the attribute holding the new, playing ramp.  The completion handler
    [_reset_from_set] then replaces the attribute by the literal target
    [value], invokes the callback once when it is not [None] (the log
    grows by exactly that call) and removes it from the callback
    dictionary, and stops every stream of the ramp.  A second run of the
    handler leaves the attribute, the log and the callback dictionary as
    they are.  The attribute is [mul], [add] or a name for which the
    class of the bundle has no property setter of its own in
    [_core.py]. *)
Theorem ramp_completion c o attr value port callback st r sS cur init ss1 :
  host_running st →
  core_setter c attr = None →
  stream_bundle st o sS →
  objs st !! o = Some r →
  attr_value r attr = Some cur →
  ramp_start st r attr cur init ss1 →
  numeric value = true →
  numeric port = true →
  is_callback callback = true →
  ∃ st1 st2 st3 ramp,
    PyoObject_set c o attr value port callback st = Ok tt st1
    ∧ PyoObject__reset_from_set c o attr st1 = Ok tt st2
    ∧ PyoObject__reset_from_set c o attr st2 = Ok tt st3
    ∧ ramp ≠ []
    ∧ attribute_of st1 o attr = Some (PObj CVarPort (length (objs st)))
    ∧ base_of st1 (length (objs st)) = PStream <$> ramp
    ∧ (∀ s, s ∈ ramp → playing_of st1 s = Some true)
    ∧ log st1 = log st
    ∧ attribute_of st2 o attr = Some value
    ∧ log st2 = log st ++ callback_events callback
    ∧ callback_of st2 o attr
      = match callback with PNone => Some PNone | _ => None end
    ∧ (∀ s, s ∈ ramp → playing_of st2 s = Some false)
    ∧ attribute_of st3 o attr = Some value
    ∧ log st3 = log st2
    ∧ callback_of st3 o attr = callback_of st2 o attr
    ∧ (∀ s, s ∈ ramp → playing_of st3 s = Some false).
Proof.
  intros Hh Hplain Hself Hr Hcur Hstart Hnv Hnp Hcb.
  pose proof (attr_value_addressable _ _ _ Hcur) as Haddr.
  destruct (stream_bundle_inv _ _ _ Hself) as (r' & Hr' & Hb & _ & Hv & Hd & _).
  assert (r' = r) as -> by congruence.
  destruct (set_completes c o attr value port callback st r sS cur init ss1)
    as (ss4 & ss5 & Hset & Hsame4 & Hreset & Hsame5 & Hagain); try done.
  set (m := length (streams st)) in *.
  set (k := ramp_len value port init) in *.
  set (r1 := set_record attr value callback (PObj CVarPort (length (objs st))) r) in *.
  set (r2 := reset_record attr value r1) in *.
  destruct (ramp_start_inv _ _ _ _ _ _ Hstart) as [Hni Hl1].
  pose proof (ramp_len_pos value port init Hnv) as Hk. fold k in Hk.
  pose proof (lookup_lt_Some _ _ _ Hr) as Hlt.
  destruct (set_record_fields attr value callback
              (PObj CVarPort (length (objs st))) r Haddr)
    as (F1 & F2 & F3 & F4 & F5 & F6). fold r1 in F1, F2, F3, F4, F5, F6.
  destruct (reset_record_fields attr value r1 callback Haddr F6 Hcb)
    as (G1 & G2 & G3 & G4). fold r2 in G1, G2, G3, G4.
  assert (Hlen4 : length ss4 = m + k).
  { destruct Hsame4 as [-> _]. rewrite length_app, Hl1.
    by rewrite length_fmap, length_seq. }
  assert (Hlen5 : length ss5 = m + k) by (destruct Hsame5 as [-> _]; done).
  eexists _, _, _, (seq m k).
  split; [exact Hset|]. split; [exact Hreset|]. split; [exact Hagain|].
  unfold attribute_of, callback_of, base_of, playing_of. norm_state.
  rewrite !lookup_self_after, lookup_new_after by done.
  cbn [mbind option_bind from_option].
  split; [destruct k; [lia|done]|].
  split; [exact F1|]. split; [done|].
  split.
  { intros s Hs. apply elem_of_seq in Hs.
    rewrite (same_but_factors_playing _ _ _ Hsame4)
      by (rewrite length_app, length_fmap, length_seq; lia).
    rewrite lookup_app_r by lia. rewrite list_lookup_fmap.
    rewrite lookup_seq_lt by lia. done. }
  split; [done|]. split; [exact G1|]. split; [done|]. split; [exact G4|].
  split.
  { intros s Hs. apply alter_all_stopped; [done|].
    apply elem_of_seq in Hs. lia. }
  split; [exact G1|]. split; [done|]. split; [done|].
  intros s Hs. apply alter_all_stopped; [done|].
  unfold alter_all at 1. rewrite (length_foldl_alter id).
  apply elem_of_seq in Hs. lia.
Qed.

Lemma ramp_completion_witness :
  ∃ st1 st2 st3,
    PyoObject_set CGeneric 0 "freq" (PFloat 440) (PFloat 1) (PFun 3)
                  freq_state = Ok tt st1
    ∧ PyoObject__reset_from_set CGeneric 0 "freq" st1 = Ok tt st2
    ∧ PyoObject__reset_from_set CGeneric 0 "freq" st2 = Ok tt st3
    ∧ attribute_of st2 0 "freq" = Some (PFloat 440)
    ∧ log st2 = [Called 3]
    ∧ log st3 = log st2.
Proof.
  destruct (ramp_completion CGeneric 0 "freq" (PFloat 440) (PFloat 1)
              (PFun 3) freq_state freq_obj [0] (PFloat 100) (PFloat 100)
              (streams freq_state))
    as (st1 & st2 & st3 & ramp & H1 & H2 & H3 & _ & _ & _ & _ & _ & H4 & H5
        & _ & _ & _ & H6 & _).
  - solve_host.
  - reflexivity.
  - solve_bundle.
  - reflexivity.
  - reflexivity.
  - by apply ramp_fresh.
  - reflexivity.
  - reflexivity.
  - reflexivity.
  - exists st1, st2, st3. repeat split; assumption.
Defined.

(** C2: [set] called while an earlier ramp [p] of the same attribute is
    still playing.  The new ramp takes as origin the values read from the
    streams of [p] at the call (stream [i] of the new ramp starts from the
    sample [i mod length sP]), not the attribute and not the target of
    [p]; every stream of [p] is stopped when [set] returns; [set] itself
    calls nothing, the callback dictionary now holds the new callback, and
    the completion handler, when it runs, calls the new callback only.
    The attribute is [mul], [add] or a name for which the class of the
    bundle has no property setter of its own in [_core.py]. *)
Theorem set_supersedes_active_ramp
        c o attr value port callback st sS cur p sP :
  host_running st →
  core_setter c attr = None →
  stream_bundle st o sS →
  attribute_of st o attr = Some cur →
  signal_of st o attr = Some (PObj CVarPort p) →
  stream_bundle st p sP →
  playing_of st (hd 0 sP) = Some true →
  numeric value = true →
  numeric port = true →
  is_callback callback = true →
  ∃ st1 st2 ramp,
    PyoObject_set c o attr value port callback st = Ok tt st1
    ∧ signal_of st1 o attr = Some (PObj CVarPort (length (objs st)))
    ∧ attribute_of st1 o attr = Some (PObj CVarPort (length (objs st)))
    ∧ base_of st1 (length (objs st)) = PStream <$> ramp
    ∧ ramp = seq (length (streams st))
                 (max (length (numeric_items value))
                      (max (length (numeric_items port)) (length sP)))
    ∧ (∀ i s, ramp !! i = Some s →
         kind_of st1 s
         = Some (KVarPort
                   (wrap_at (numeric_items value) i)
                   (wrap_at (numeric_items port) i)
                   (wrap_at ((λ s, PFloat (value_at (streams st) s)) <$> sP)
                            i)
                   (PResetMethod o) (PStr attr))
         ∧ playing_of st1 s = Some true)
    ∧ (∀ s, s ∈ sP → playing_of st1 s = Some false)
    ∧ log st1 = log st
    ∧ callback_of st1 o attr = Some callback
    ∧ PyoObject__reset_from_set c o attr st1 = Ok tt st2
    ∧ log st2 = log st ++ callback_events callback.
Proof.
  intros Hh Hplain Hself Hcur Hsig Hp Hpl Hnv Hnp Hcb.
  destruct (stream_bundle_inv _ _ _ Hself) as (r & Hr & Hb & _ & Hv & Hd & _).
  unfold attribute_of in Hcur. unfold signal_of in Hsig.
  rewrite Hr in Hcur, Hsig. cbn in Hcur, Hsig.
  pose proof (ramp_active st r attr cur p sP Hsig Hp Hpl) as Hstart.
  pose proof (attr_value_addressable _ _ _ Hcur) as Haddr.
  destruct (set_completes c o attr value port callback st r sS cur _ _
              Hplain Hh Hr Hb Hv Hd Hnv Hnp Hcb Hcur Hstart)
    as (ss4 & ss5 & Hset & Hsame4 & Hreset & Hsame5 & _).
  destruct (stream_bundle_inv _ _ _ Hp) as (_ & _ & _ & Hne & Hvp & _).
  set (m := length (streams st)) in *.
  set (init := sampled (streams st) sP) in *.
  assert (Hk : ramp_len value port init
               = max (length (numeric_items value))
                     (max (length (numeric_items port)) (length sP))).
  { unfold ramp_len, init, sampled. cbn [numeric_items].
    by rewrite length_fmap. }
  set (k := ramp_len value port init) in *.
  set (r1 := set_record attr value callback
               (PObj CVarPort (length (objs st))) r) in *.
  pose proof (ramp_len_pos value port init Hnv) as Hkpos. fold k in Hkpos.
  pose proof (lookup_lt_Some _ _ _ Hr) as Hlt.
  destruct (set_record_fields attr value callback
              (PObj CVarPort (length (objs st))) r Haddr)
    as (F1 & F2 & F3 & F4 & F5 & F6). fold r1 in F1, F2, F3, F4, F5, F6.
  assert (Hl1 : length (alter_all (s_set_playing false) sP (streams st)) = m)
    by apply (length_foldl_alter id).
  eexists _, _, (seq m k).
  split; [exact Hset|].
  unfold attribute_of, signal_of, callback_of, base_of, playing_of, kind_of.
  norm_state.
  rewrite !lookup_self_after, lookup_new_after by done.
  cbn [mbind option_bind from_option].
  split; [exact F4|]. split; [exact F1|]. split; [done|].
  split; [by rewrite Hk|].
  split.
  { intros i s Hi. apply lookup_seq in Hi as [-> Hi].
    rewrite (same_but_factors_playing _ _ _ Hsame4),
      (same_but_factors_kind _ _ _ Hsame4)
      by (rewrite length_app, length_fmap, length_seq; lia).
    rewrite lookup_app_r by lia. rewrite Hl1, Nat.add_comm, Nat.add_sub.
    rewrite list_lookup_fmap, lookup_seq_lt by lia.
    done. }
  split.
  { intros s Hs.
    assert (s < m) as Hsm by (eapply Forall_forall in Hvp; eauto).
    rewrite (same_but_factors_playing _ _ _ Hsame4)
      by (rewrite length_app; lia).
    rewrite lookup_app_l by lia.
    by apply alter_all_stopped. }
  split; [done|]. split; [exact F6|].
  split; [exact Hreset|done].
Qed.

Lemma set_supersedes_active_ramp_witness :
  ∃ st1 st2,
    PyoObject_set CGeneric 0 "freq" (PFloat 0) (PFloat 1) (PFun 8)
                  ramping_state = Ok tt st1
    ∧ kind_of st1 2
      = Some (KVarPort (PFloat 0) (PFloat 1) (PFloat 5)
                       (PResetMethod 0) (PStr "freq"))
    ∧ playing_of st1 1 = Some false
    ∧ log st1 = []
    ∧ PyoObject__reset_from_set CGeneric 0 "freq" st1 = Ok tt st2
    ∧ log st2 = [Called 8].
Proof.
  destruct (set_supersedes_active_ramp CGeneric 0 "freq" (PFloat 0)
              (PFloat 1) (PFun 8) ramping_state [0] (PObj CVarPort 1) 1 [1])
    as (st1 & st2 & ramp & H1 & _ & _ & _ & -> & H2 & H3 & H4 & _ & H5 & H6).
  - solve_host.
  - reflexivity.
  - solve_bundle.
  - reflexivity.
  - reflexivity.
  - solve_bundle.
  - reflexivity.
  - reflexivity.
  - reflexivity.
  - reflexivity.
  - exists st1, st2.
    split; [exact H1|].
    split; [exact (proj1 (H2 0 2 eq_refl))|].
    split; [apply H3; by left|].
    split; [exact H4|]. split; [exact H5|exact H6].
Defined.
(** ** Reflected operators *)

(** Where [__add__] and [__mul__] do not delegate, the reflected operator
    runs the same code. *)
Lemma PyoObject_rarith_arith fuel op c o x st r n :
  objs st !! o = Some r →
  len_of (objs st) (to_list_form x) = Some n →
  n ≤ length (_base_objs r) ∨ isPyoObject (to_list_form x) = false →
  PyoObject_rarith op c o x st = PyoObject_arith (S fuel) op c o x st.
Proof.
  intros Hr Hn Hcase. unfold PyoObject_rarith. cbn [PyoObject_arith].
  erewrite !bind_Ok by (by apply convertArgsToLists_1).
  cbn beta iota zeta. change ([to_list_form x] !!! 0) with (to_list_form x).
  rewrite !(bind_Ok (get_obj o) _ st r st) by (by apply get_obj_ok).
  destruct (Nat.leb_spec n (length (_base_objs r))) as [Hle|Hgt];
    [reflexivity|].
  destruct Hcase as [Hle|Hx]; [lia|]. rewrite Hx. reflexivity.
Qed.

Lemma PyoObject_rarith_upsamp_empty op c o x st r sids :
  objs st !! o = Some r →
  _base_objs r = PStream <$> sids →
  sids ≠ [] →
  len_of (objs st) (to_list_form x) = Some 0 →
  PyoObject_rarith_upsamp op c o x st = Raise ZeroDivisionError st.
Proof.
  intros Hr Hb Hne Hlen. unfold PyoObject_rarith_upsamp.
  erewrite bind_Ok by (by apply convertArgsToLists_1).
  cbn beta iota zeta. change ([to_list_form x] !!! 0) with (to_list_form x).
  erewrite bind_Ok by (by apply get_obj_ok).
  cbn [Nat.leb]. cbn beta iota.
  apply bind_Raise.
  rewrite Hb. destruct sids as [|s sids]; [done|].
  rewrite fmap_cons. unfold enumerate. rewrite imap_cons.
  cbn [mapM]. apply bind_Raise.
  erewrite bind_Ok by (by apply get_obj_ok).
  unfold floordiv. destruct (_op_duplicate r); [done|].
  erewrite bind_Ok by reflexivity.
  apply bind_Raise. unfold wrap.
  erewrite bind_Ok by (by apply len_ok). done.
Qed.

Lemma Sig_number_ok st w :
  host_running st →
  is_number w = true →
  Sig__init__ w (PInt 1) (PInt 0) st
  = Ok (PObj CSig (length (objs st)))
       (mkState (objs st ++ [upsamp_obj w (length (streams st))])
                (streams st ++ [upsamp_stream w])
                (log st) (server_created st) (server_booted st)).
Proof.
  intros Hh Hw. unfold Sig__init__.
  assert (Hform : to_list_form w = PList [w]) by (by destruct w).
  assert (HO : expected_for "O" w = "") by (by destruct w).
  erewrite bind_Ok by (apply assert_args_ok; solve_args).
  erewrite bind_Ok by (by apply PyoObject__init___ok).
  erewrite bind_Ok by (by apply store_attr_new).
  erewrite bind_Ok.
  2:{ apply (convertArgsToLists_ok _ _ [1; 1; 1]); [done|].
      cbn [fmap list_fmap mapM]. by rewrite Hform. }
  cbn beta iota zeta.
  cbn [fmap list_fmap lookup_total list_lookup_total max_list_with id
       Nat.max seq mapM].
  rewrite Hform.
  erewrite bind_Ok.
  2:{ erewrite bind_Ok.
      2:{ erewrite bind_Ok by (apply wrap_scalar; by destruct w).
          erewrite bind_Ok by reflexivity.
          erewrite bind_Ok by reflexivity.
          reflexivity. }
      erewrite bind_Ok by reflexivity. reflexivity. }
  erewrite bind_Ok by (apply update_obj_ok; cbn; apply lookup_snoc).
  norm_state. rewrite insert_snoc.
  erewrite bind_Ok.
  2:{ eapply (PyoObject_play_ok _ _ _ _ [length (streams st)]).
      - cbn. apply lookup_snoc.
      - reflexivity.
      - repeat constructor. cbn. rewrite length_app. cbn. lia. }
  norm_state.
  pose proof (alter_all_new (s_set_playing true) (streams st)
                [fresh_stream (KSig w) (PInt 1) (PInt 0) false]) as H.
  cbn [length seq] in H. rewrite H. reflexivity.
Qed.

Lemma mapM_invariant {A B} (f : A → M B) (I : state → Prop)
      (Q : B → state → Prop) (l : list A) st :
  I st →
  (∀ x st, x ∈ l → I st →
     ∃ y st', f x st = Ok y st' ∧ I st' ∧ Q y st'
              ∧ ∀ z, Q z st → Q z st') →
  ∃ ys st', mapM f l st = Ok ys st' ∧ I st' ∧ length ys = length l
            ∧ Forall (λ y, Q y st') ys
            ∧ ∀ z, Q z st → Q z st'.
Proof.
  revert st. induction l as [|x l IH]; intros st HI Hstep.
  - exists [], st. by repeat split.
  - destruct (Hstep x st ltac:(left) HI) as (y & st1 & Hf & HI1 & HQ1 & Hst1).
    destruct (IH st1 HI1) as (ys & st2 & Hm & HI2 & Hlen & HQ2 & Hst2).
    { intros x' st' Hx'. apply Hstep. by right. }
    exists (y :: ys), st2. cbn [mapM].
    erewrite bind_Ok by exact Hf.
    erewrite bind_Ok by exact Hm.
    split; [done|]. split; [done|]. split; [cbn; lia|].
    split; [constructor; auto|]. auto.
Qed.

Lemma upsamp_round op o base d w s st (k : pyval → M pyval) :
  upsamp_inv o base d st →
  is_number w = true →
  (∀ st2, streams st2 = streams st ++ [upsamp_stream w] →
          log st2 = log st →
          upsamp_inv o base d st2 →
          objs st2 !! length (objs st)
          = Some (upsamp_obj w (length (streams st))) →
          length (objs st2) = S (length (objs st)) →
          k (PObj CSig (length (objs st))) st2
          = upsamp_arith op (PObj CSig (length (objs st))) (PStream s) st2) →
  ∃ y st',
    (upsamp ← Sig__init__ w (PInt 1) (PInt 0);
     update_obj o (λ r, set_keep_trace (_keep_trace r ++ [upsamp]) r);;
     k upsamp) st = Ok y st'
    ∧ upsamp_inv o base d st'
    ∧ single_composite o y st'
    ∧ ∀ z, single_composite o z st → single_composite o z st'.
Proof.
  intros (Hh & r & Hr & Hb & Hd) Hw Hk.
  pose proof (lookup_lt_Some _ _ _ Hr) as Hlt.
  erewrite bind_Ok by (by apply Sig_number_ok).
  erewrite bind_Ok.
  2:{ apply (update_obj_ok _ _ _ r). norm_state. by rewrite lookup_app_l. }
  norm_state.
  set (n := length (objs st)) in *.
  set (m := length (streams st)) in *.
  set (r' := mkObj _ _ (_keep_trace r ++ _) _ _ _ _ _ _ _).
  set (st2 := mkState _ _ _ _ _).
  assert (Hh2 : host_running st2) by exact Hh.
  assert (Hsig : objs st2 !! n = Some (upsamp_obj w m)).
  { unfold st2. norm_state. rewrite list_lookup_insert_ne by lia.
    apply lookup_snoc. }
  rewrite Hk; try done.
  2:{ split; [done|]. exists r'. split; [|done]. unfold st2. norm_state.
      apply list_lookup_insert_eq. rewrite length_app. lia. }
  2:{ unfold st2. norm_state. rewrite length_insert, length_app. cbn. lia. }
  unfold upsamp_arith.
  rewrite (PyoObject_arith_self_longer 1 op CSig n (PStream s) st2
             (upsamp_obj w m) [m] [PStream s]);
    try done; [|by repeat constructor].
  assert (Hl2 : length (objs st2) = S n).
  { unfold st2. norm_state. rewrite length_insert, length_app. cbn. lia. }
  rewrite Hl2.
  eexists _, _. split; [reflexivity|].
  split.
  { split; [exact Hh|]. exists r'. norm_state.
    rewrite list_lookup_insert_ne by lia.
    rewrite lookup_app_l by lia.
    split; [|done]. unfold st2. norm_state.
    apply list_lookup_insert_eq. rewrite length_app. lia. }
  split.
  { eexists (S n), _, _. split; [done|]. split; [lia|]. norm_state.
    rewrite list_lookup_insert_ne by lia.
    rewrite lookup_app_r by lia. rewrite Hl2, Nat.sub_diag.
    split; reflexivity. }
  intros z (dz & rd & sz & -> & Hne & Hrd & Hbd).
  pose proof (lookup_lt_Some _ _ _ Hrd) as Hdz. fold n in Hdz.
  exists dz, rd, sz. split; [done|]. split; [done|]. split; [|done].
  norm_state. rewrite list_lookup_insert_ne by lia.
  rewrite lookup_app_l by lia.
  unfold st2. norm_state. rewrite list_lookup_insert_ne by done.
  by rewrite lookup_app_l by lia.
Qed.

Lemma flattened_singles o st ys :
  Forall (λ y, single_composite o y st) ys →
  length (flattened st ys) = length ys.
Proof.
  unfold flattened. induction 1 as [|y ys Hy _ IH]; [done|].
  rewrite fmap_cons. cbn [concat]. rewrite length_app, IH.
  destruct Hy as (d & rd & s & -> & _ & Hrd & Hbd).
  unfold contribution, base_of. rewrite Hrd. cbn. by rewrite Hbd.
Qed.

Lemma wrap_at_number items k :
  items ≠ [] → Forall (λ y, is_number y = true) items →
  is_number (wrap_at items k) = true.
Proof.
  intros Hne Hall. unfold wrap_at.
  destruct (lookup_lt_is_Some_2 items (k mod length items)) as [y Hy].
  - apply Nat.mod_upper_bound. by destruct items.
  - rewrite Hy. cbn. eapply Forall_lookup_1 in Hall; eauto.
Qed.

(** A reflected [-] or [/] with a number or a non-empty list of numbers
    on the left. *)
Lemma PyoObject_rarith_upsamp_ok op c o x st r sids :
  host_running st →
  objs st !! o = Some r →
  _base_objs r = PStream <$> sids →
  sids ≠ [] →
  1 ≤ _op_duplicate r →
  numeric x = true →
  ∃ d st',
    PyoObject_rarith_upsamp op c o x st = Ok (PObj CDummy d) st'
    ∧ length (base_of st' d) = max (length sids) (length (numeric_items x)).
Proof.
  intros Hh Hr Hb Hne Hd Hx.
  destruct (numeric_inv _ Hx) as (Hall & Hine & Hform & _).
  unfold PyoObject_rarith_upsamp.
  erewrite bind_Ok by (apply convertArgsToLists_1; by apply numeric_len_of).
  cbn beta iota zeta. change ([to_list_form x] !!! 0) with (to_list_form x).
  erewrite bind_Ok by (by apply get_obj_ok).
  rewrite Hform, Hb, length_fmap.
  set (items := numeric_items x) in *.
  assert (HI : upsamp_inv o (PStream <$> sids) (_op_duplicate r) st).
  { split; [done|]. by exists r. }
  assert (Hend : ∀ (l : list (nat * pyval)) (body : nat * pyval → M pyval)
                    (m : M (list pyval)),
    m st = (mapM body l : M (list pyval)) st →
    (∀ p st0, p ∈ l →
       upsamp_inv o (PStream <$> sids) (_op_duplicate r) st0 →
       ∃ y st', body p st0 = Ok y st'
         ∧ upsamp_inv o (PStream <$> sids) (_op_duplicate r) st'
         ∧ single_composite o y st'
         ∧ ∀ z, single_composite o z st0 → single_composite o z st') →
    ∃ d st',
      (tmp ← m;
       dummy ← Dummy__init__ tmp;
       update_obj o (λ r, set_keep_trace (_keep_trace r ++ [dummy]) r);;
       mret dummy) st = Ok (PObj CDummy d) st'
      ∧ length (base_of st' d) = length l).
  { intros l body m Hmeq Hbody.
    destruct (mapM_invariant body
                (upsamp_inv o (PStream <$> sids) (_op_duplicate r))
                (single_composite o) l st HI Hbody)
      as (ys & st1 & Hm & (Hh1 & r1 & Hr1 & _) & Hlen & HQ & _).
    erewrite bind_Ok by (rewrite Hmeq; exact Hm).
    erewrite bind_Ok.
    2:{ apply Dummy__init___ok; [done|].
        intros d Hd'. eapply Forall_forall in HQ; [|exact Hd'].
        destruct HQ as (d' & rd & s & [= ->] & _ & Hrd & _).
        by eapply lookup_lt_Some. }
    pose proof (lookup_lt_Some _ _ _ Hr1) as Hlt1.
    erewrite bind_Ok.
    2:{ apply (update_obj_ok _ _ _ r1). norm_state.
        by rewrite lookup_app_l. }
    eexists _, _. split; [reflexivity|].
    unfold base_of. norm_state.
    rewrite list_lookup_insert_ne by lia. rewrite lookup_snoc.
    cbn. rewrite <- Hlen. by eapply flattened_singles. }
  destruct (Nat.leb_spec (length items) (length sids)) as [Hle|Hgt].
  - destruct (Hend (enumerate (PStream <$> sids))
                (λ '(i, obj),
                   r ← get_obj o;
                   k ← floordiv i (_op_duplicate r);
                   w ← wrap (PList items) k;
                   upsamp ← Sig__init__ w (PInt 1) (PInt 0);
                   update_obj o (λ r,
                     set_keep_trace (_keep_trace r ++ [upsamp]) r);;
                   upsamp_arith op upsamp obj) _ eq_refl)
      as (d & st' & Hrun & Hlen).
    { intros [i obj] st0 Hin HI0.
      apply elem_of_enumerate in Hin.
      rewrite list_lookup_fmap in Hin.
      destruct (sids !! i) as [s|] eqn:Hs; [|done]. injection Hin as <-.
      pose proof HI0 as (_ & r0 & Hr0 & _ & Hd0).
      erewrite bind_Ok by (by apply get_obj_ok).
      erewrite bind_Ok by (apply floordiv_ok; lia).
      erewrite bind_Ok.
      2:{ apply (wrap_ok _ _ items); [|done]. unfold items_of. cbn.
          by apply mapM_first_of_numbers. }
      apply (upsamp_round op o _ _ _ s st0
               (λ upsamp, upsamp_arith op upsamp (PStream s))); try done.
      by apply wrap_at_number. }
    exists d, st'. split; [exact Hrun|].
    rewrite Hlen. unfold enumerate. rewrite length_imap, length_fmap. lia.
  - cbn beta iota.
    destruct (Hend (enumerate items)
                (λ '(i, obj),
                   upsamp ← Sig__init__ obj (PInt 1) (PInt 0);
                   update_obj o (λ r,
                     set_keep_trace (_keep_trace r ++ [upsamp]) r);;
                   r ← get_obj o;
                   w ← wrap (PList (_base_objs r)) i;
                   upsamp_arith op upsamp w) _ eq_refl)
      as (d & st' & Hrun & Hlen).
    { intros [i obj] st0 Hin HI0.
      apply elem_of_enumerate in Hin.
      destruct (wrap_at_streams sids i Hne) as (s & _ & Hws).
      apply (upsamp_round op o _ _ _ s st0
               (λ upsamp, r ← get_obj o;
                          w ← wrap (PList (_base_objs r)) i;
                          upsamp_arith op upsamp w)); [done| |].
      - eapply Forall_lookup_1 in Hall; eauto.
      - intros st2 _ _ (_ & r2 & Hr2 & Hb2 & _) _ _.
        erewrite bind_Ok by (by apply get_obj_ok).
        rewrite Hb2.
        erewrite bind_Ok.
        2:{ apply wrap_ok; [apply items_of_stream_list|].
            by apply fmap_nil_inv_ne. }
        by rewrite Hws. }
    exists d, st'. split; [exact Hrun|].
    rewrite Hlen. unfold enumerate. rewrite length_imap. lia.
Qed.

(** C8: for a bundle [self] with at least one stream, each of the
    operators [+], [-], [*], [/], and each of their reflected forms,
    raises [ZeroDivisionError] when the list form of the operand has no
    element.  For every operand with at least one element the operator
    returns a composite of [max (len self) (len operand)] streams,
    whatever the two lengths are: a number, a list of numbers or a bundle
    on the right, a number or a list of numbers on the left. *)
Theorem empty_operand_rejected st op c o ss :
  host_running st →
  stream_bundle st o ss →
  (∀ x, len_of (objs st) (to_list_form x) = Some 0 →
        PyoObject_arith 2 op c o x st = Raise ZeroDivisionError st
        ∧ reflected op c o x st = Raise ZeroDivisionError st)
  ∧ PyoObject_arith 2 op c o (PList []) st = Raise ZeroDivisionError st
  ∧ reflected op c o (PList []) st = Raise ZeroDivisionError st
  ∧ (∀ x n, operand st x n →
       ∃ st', PyoObject_arith 2 op c o x st
              = Ok (PObj CDummy (length (objs st))) st'
              ∧ length (base_of st' (length (objs st)))
                = max (length ss) n)
  ∧ (∀ x, numeric x = true →
       ∃ d st', reflected op c o x st = Ok (PObj CDummy d) st'
                ∧ length (base_of st' d)
                  = max (length ss) (length (numeric_items x))).
Proof.
  intros Hh Hself.
  destruct (stream_bundle_inv _ _ _ Hself)
    as (r & Hr & Hb & Hne & _ & Hd & _).
  pose proof (lookup_lt_Some _ _ _ Hr) as Ho.
  assert (Hforward : ∀ x n, operand st x n →
            ∃ st', PyoObject_arith 2 op c o x st
                   = Ok (PObj CDummy (length (objs st))) st'
                   ∧ length (base_of st' (length (objs st)))
                     = max (length ss) n).
  { intros x n Hop.
    destruct (decide (n ≤ length ss)) as [Hle|Hgt].
    + (* the operand is not longer: wrap the operand *)
      destruct (operand_items _ _ _ Hop) as (items & Hit & Hlen & Hine).
      eexists. split.
      * eapply PyoObject_arith_self_longer';
          try done; [by eapply operand_items_valid|lia].
      * rewrite after_arith_base by done.
        rewrite length_fmap, length_seq. lia.
    + destruct Hop as [x' Hx|l Hlne Hl|cx ox xs Hcx Hbx].
      * destruct ss; [done|simpl in Hgt; lia].
      * eexists. split.
        -- eapply PyoObject_arith_list_longer;
             try done; [by apply engine_operand_numbers|lia].
        -- rewrite after_arith_base by done.
           rewrite length_fmap, length_seq. lia.
      * destruct (stream_bundle_inv _ _ _ Hbx)
          as (rx & Hrx & Hbox & Hxne & _ & Hdx & _).
        pose proof (lookup_lt_Some _ _ _ Hrx) as Hox.
        destruct (commutes op) eqn:Hcomm.
        -- eexists. split.
           ++ eapply PyoObject_arith_delegated; try done. lia.
           ++ unfold base_of. cbn.
              rewrite !list_lookup_insert_ne by lia. rewrite lookup_snoc.
              cbn. rewrite length_fmap, length_seq. lia.
        -- eexists. split.
           ++ eapply PyoObject_arith_bundle_longer; try done. lia.
           ++ rewrite after_arith_base by done.
              rewrite length_fmap, length_seq. lia. }
  assert (Hempty : ∀ x, len_of (objs st) (to_list_form x) = Some 0 →
            reflected op c o x st = Raise ZeroDivisionError st).
  { intros x Hx.
    assert (Hcomm : PyoObject_rarith op c o x st
                    = Raise ZeroDivisionError st).
    { rewrite (PyoObject_rarith_arith 0 op c o x st r 0) by (auto with lia).
      by eapply PyoObject_arith_empty. }
    destruct op; try exact Hcomm;
      by eapply PyoObject_rarith_upsamp_empty. }
  split; [|split; [|split; [|split]]].
  - intros x Hx. split; [by eapply PyoObject_arith_empty|by apply Hempty].
  - by eapply PyoObject_arith_empty.
  - by apply Hempty.
  - exact Hforward.
  - intros x Hx.
    assert (Hcomm : ∃ d st', PyoObject_rarith op c o x st
                             = Ok (PObj CDummy d) st'
                             ∧ length (base_of st' d)
                               = max (length ss) (length (numeric_items x))).
    { destruct (Hforward x _ (numeric_operand st x Hx)) as (st' & Hrun & Hl).
      exists (length (objs st)), st'. split; [|done].
      rewrite (PyoObject_rarith_arith 1 op c o x st r
                 (length (numeric_items x))); [done|done| |].
      - by apply numeric_len_of.
      - right. destruct (numeric_inv _ Hx) as (_ & _ & -> & _). done. }
    destruct op; try exact Hcomm;
      by eapply PyoObject_rarith_upsamp_ok.
Qed.

Lemma empty_operand_rejected_witness :
  PyoObject__add__ CGeneric 0 (PList []) example_state
  = Raise ZeroDivisionError example_state
  ∧ PyoObject__radd__ CGeneric 0 (PList []) example_state
    = Raise ZeroDivisionError example_state
  ∧ ∃ st', PyoObject__add__ CGeneric 0
             (PList [PInt 1; PInt 2; PInt 3; PInt 4]) example_state
           = Ok (PObj CDummy 2) st'
           ∧ length (base_of st' 2) = 4.
Proof.
  destruct (empty_operand_rejected example_state Add CGeneric 0 [0; 1; 2]
              ltac:(solve_host) ltac:(solve_bundle))
    as (_ & Hempty & Hrempty & Hok & _).
  split; [exact Hempty|]. split; [exact Hrempty|].
  apply (Hok (PList [PInt 1; PInt 2; PInt 3; PInt 4]) 4).
  apply (operand_list example_state [PInt 1; PInt 2; PInt 3; PInt 4]).
  - discriminate.
  - repeat constructor.
Defined.
(** ** The argument validator, position by position *)

Lemma scan_args_first_failure name format k args i arg :
  args !! i = Some arg →
  (∀ j a, j < i → args !! j = Some a →
     ∃ g, String.get (k + j) format = Some g ∧ expected_for g a = "") →
  match String.get (k + i) format with
  | Some f => expected_for f arg ≠ ""
  | None => True
  end →
  scan_args name format k args
  = Some (match String.get (k + i) format with
          | Some f => PyoArgumentTypeError (k + i) name (expected_for f arg)
                                           (type arg)
          | None => IndexError
          end).
Proof.
  revert k i. induction args as [|a rest IH]; intros k i Hi Hbefore Hbad;
    [done|].
  destruct i as [|i]; cbn [scan_args].
  - injection Hi as ->. rewrite Nat.add_0_r in *.
    destruct (String.get k format) as [f|]; [|done].
    destruct (String.eqb_spec (expected_for f arg) ""); done.
  - destruct (Hbefore 0 a ltac:(lia) eq_refl) as (g & Hg & Hok).
    rewrite Nat.add_0_r in Hg. rewrite Hg, Hok. cbn [String.eqb].
    replace (k + S i) with (S k + i) in * by lia.
    apply IH; [done| |done].
    intros j a' Hj Ha'. replace (S k + j) with (k + S j) by lia.
    apply Hbefore; [lia|done].
Qed.

Lemma scan_args_None name format k args :
  scan_args name format k args = None ↔
  ∀ j a, args !! j = Some a →
    ∃ g, String.get (k + j) format = Some g ∧ expected_for g a = "".
Proof.
  split.
  - revert k. induction args as [|a rest IH]; intros k H j a' Hj; [done|].
    cbn [scan_args] in H.
    destruct (String.get k format) as [f|] eqn:Hf; [|done].
    destruct (String.eqb_spec (expected_for f a) "") as [He|]; [|done].
    destruct j as [|j].
    + injection Hj as <-. exists f. by rewrite Nat.add_0_r.
    + replace (k + S j) with (S k + j) by lia. by apply IH.
  - intros H. by apply scan_args_ok.
Qed.

(** X1: the validator reports the first offending position and nothing
    else.  When every argument before position [i] is accepted and the
    argument at [i] is not, the error names position [i], the text of the
    format code at [i] and the type of that argument, whatever the later
    arguments are; when the format string has no character for position
    [i], [format[i]] raises [IndexError] instead. *)
Theorem pyoArgsAssert_first_failure name format args i arg :
  args !! i = Some arg →
  (∀ j a, j < i → args !! j = Some a →
     ∃ g, String.get j format = Some g ∧ expected_for g a = "") →
  match String.get i format with
  | Some f => expected_for f arg ≠ ""
  | None => True
  end →
  pyoArgsAssert name format args
  = Some (match String.get i format with
          | Some f => PyoArgumentTypeError i name (expected_for f arg)
                                           (type arg)
          | None => IndexError
          end)
  ∧ ∀ rest, pyoArgsAssert name format (take (S i) args ++ rest)
            = pyoArgsAssert name format args.
Proof.
  intros Hi Hbefore Hbad.
  assert (Hrun : ∀ args', args' !! i = Some arg →
            (∀ j a, j < i → args' !! j = Some a →
               ∃ g, String.get j format = Some g ∧ expected_for g a = "") →
            pyoArgsAssert name format args'
            = Some (match String.get i format with
                    | Some f => PyoArgumentTypeError i name
                                  (expected_for f arg) (type arg)
                    | None => IndexError
                    end)).
  { intros args' Hi' Hb'. unfold pyoArgsAssert.
    by rewrite (scan_args_first_failure name format 0 args' i arg). }
  split; [by apply Hrun|].
  intros rest. rewrite (Hrun args Hi Hbefore). apply Hrun.
  - rewrite lookup_app_l by (rewrite length_take;
      apply lookup_lt_Some in Hi; lia).
    rewrite lookup_take_lt by lia. done.
  - intros j a Hj Ha. apply Hbefore; [done|].
    rewrite lookup_app_l in Ha by (rewrite length_take;
      apply lookup_lt_Some in Hi; lia).
    by rewrite lookup_take_lt in Ha by lia.
Qed.

Lemma pyoArgsAssert_first_failure_witness :
  pyoArgsAssert CSig "OOO" [PFloat 1; PStr "x"; POther]
  = Some (PyoArgumentTypeError 1 CSig "float or PyoObject" TStr)
  ∧ pyoArgsAssert CSig "O" [PFloat 1; PStr "x"] = Some IndexError.
Proof.
  split.
  - refine (proj1 (pyoArgsAssert_first_failure CSig "OOO"
                     [PFloat 1; PStr "x"; POther] 1 (PStr "x") eq_refl _ _)).
    + intros [|j] a Hj Ha; [|lia]. cbn in Ha. injection Ha as <-.
      by eexists.
    + discriminate.
  - refine (proj1 (pyoArgsAssert_first_failure CSig "O"
                     [PFloat 1; PStr "x"] 1 (PStr "x") eq_refl _ _)).
    + intros [|j] a Hj Ha; [|lia]. cbn in Ha. injection Ha as <-.
      by eexists.
    + exact I.
Defined.

(** X2: the validator returns normally exactly when every argument
    passes the test of the format character at its own position; the
    arguments are judged one by one, so the number of arguments is never
    checked: a call that passes still passes with trailing arguments left
    out, and format characters without an argument are ignored. *)
Theorem pyoArgsAssert_accepts name format args :
  (pyoArgsAssert name format args = None ↔
   ∀ j a, args !! j = Some a →
     ∃ g, String.get j format = Some g ∧ expected_for g a = "")
  ∧ (pyoArgsAssert name format args = None →
     ∀ n more, pyoArgsAssert name (format ++ more) (take n args) = None).
Proof.
  assert (Hiff : ∀ fmt l, pyoArgsAssert name fmt l = None ↔
            ∀ j a, l !! j = Some a →
              ∃ g, String.get j fmt = Some g ∧ expected_for g a = "").
  { intros fmt l. unfold pyoArgsAssert. by rewrite scan_args_None. }
  split; [apply Hiff|].
  intros H n more. apply Hiff. intros j a Hj.
  apply lookup_take_Some in Hj as [Hj _].
  destruct (proj1 (Hiff format args) H j a Hj) as (g & Hg & Hok).
  exists g. split; [|done].
  rewrite <- String.append_correct1; [done|].
  clear -Hg. revert j Hg.
  induction format as [|ch s IH]; intros j Hg; [by destruct j|].
  destruct j as [|j]; cbn in *; [lia|]. apply IH in Hg. lia.
Qed.
(** ** [convertArgsToLists] and [wrap] *)

Lemma mapM_len_inv l st lens st' :
  mapM len l st = Ok lens st' →
  st' = st ∧ mapM (len_of (objs st)) l = Some lens.
Proof.
  revert lens st'. induction l as [|x l IH]; intros lens st'; cbn [mapM].
  - by intros [= <- <-].
  - unfold mbind at 1, M_bind at 1.
    destruct (len x st) as [n st1|e st1] eqn:Hx; [|done].
    assert (st1 = st ∧ len_of (objs st) x = Some n) as [-> Hn].
    { destruct x; cbn in Hx; try done; try (by injection Hx as <- <-).
      unfold mbind, M_bind, get_obj in Hx.
      destruct (objs st !! o) as [r|] eqn:Hr; [|done]. cbn in Hx.
      injection Hx as <- <-. cbn. by rewrite Hr. }
    unfold mbind at 1, M_bind at 1.
    destruct (mapM len l st) as [ns st2|e st2] eqn:Hl; [|done].
    destruct (IH _ _ eq_refl) as [-> Hns].
    intros [= <- <-]. split; [done|]. cbn. by rewrite Hn, Hns.
Qed.

Lemma max_list_bounds (ns : list nat) :
  (∀ n, n ∈ ns → n ≤ max_list ns)
  ∧ (ns ≠ [] → max_list ns ∈ ns).
Proof.
  induction ns as [|n ns [IH1 IH2]];
    [split; [by intros ? ?%elem_of_nil|done]|].
  change (max_list (n :: ns)) with (n `max` max_list ns).
  split.
  - intros k Hk.
    apply elem_of_cons in Hk as [->|Hk]; [lia|].
    apply IH1 in Hk. lia.
  - intros _.
    destruct ns as [|m ns']; [cbn; rewrite Nat.max_0_r; by left|].
    destruct (Nat.max_spec n (max_list (m :: ns'))) as [[_ ->]|[_ ->]].
    + right. by apply IH2.
    + by left.
Qed.

Lemma to_list_form_idemp x : to_list_form (to_list_form x) = to_list_form x.
Proof. by destruct x. Qed.

(** X3: [convertArgsToLists] leaves lists and pyo objects alone and puts
    every other argument, tuples and strings included, into a list of its
    own, so that it counts for one element.  The length it returns is the
    largest of the converted lengths and is reached by one of them; the
    store is not touched; converting the result again changes nothing.
    Without any argument, [max] raises [ValueError]. *)
Theorem convertArgsToLists_lengths st args :
  convertArgsToLists [] st = Raise ValueError st
  ∧ (∀ x, isPyoObjectBase x = false → type x ≠ TList →
          len_of (objs st) (to_list_form x) = Some 1)
  ∧ (∀ conv n st',
       convertArgsToLists args st = Ok (conv, n) st' →
       st' = st
       ∧ conv = to_list_form <$> args
       ∧ (∀ x, x ∈ conv → ∃ k, len_of (objs st) x = Some k ∧ k ≤ n)
       ∧ (∃ x, x ∈ conv ∧ len_of (objs st) x = Some n)
       ∧ convertArgsToLists conv st = Ok (conv, n) st).
Proof.
  split; [done|]. split; [by intros []|].
  intros conv n st' H. unfold convertArgsToLists in H.
  unfold mbind, M_bind in H.
  destruct (mapM len (to_list_form <$> args) st) as [lens st1|e st1] eqn:Hl;
    [|done].
  destruct (mapM_len_inv _ _ _ _ Hl) as [-> Hlens].
  destruct lens as [|k0 lens']; [done|]. injection H as <- <- <-.
  destruct (max_list_bounds (k0 :: lens')) as [Hle Hmax].
  split; [done|]. split; [done|]. split; [|split].
  - intros x Hx. apply list_elem_of_lookup in Hx as [i Hi].
    pose proof (mapM_Some_1 _ _ _ Hlens) as Hall.
    destruct (Forall2_lookup_l _ _ _ _ _ Hall Hi) as (k & Hk & Hxk).
    exists k. split; [done|]. apply Hle. by eapply list_elem_of_lookup_2.
  - specialize (Hmax ltac:(done)).
    apply list_elem_of_lookup in Hmax as [i Hi].
    pose proof (mapM_Some_1 _ _ _ Hlens) as Hall.
    destruct (Forall2_lookup_r _ _ _ _ _ Hall Hi) as (x & Hx & Hxk).
    exists x. split; [by eapply list_elem_of_lookup_2|done].
  - assert (Hne : args ≠ []) by (intros ->; done).
    assert (Hid : to_list_form <$> (to_list_form <$> args)
                  = to_list_form <$> args).
    { rewrite <- list_fmap_compose. apply list_fmap_ext.
      intros i x _. apply to_list_form_idemp. }
    rewrite (convertArgsToLists_ok st (to_list_form <$> args) (k0 :: lens')).
    + by rewrite Hid.
    + by destruct args.
    + by rewrite Hid.
Qed.

Lemma getitem_elems st arg l k x :
  elems_of (objs st) arg = Some l → l !! k = Some x →
  getitem arg k st = Ok x st.
Proof.
  intros Hl Hk. destruct arg; try done; cbn in Hl |- *.
  - injection Hl as ->. by rewrite Hk.
  - injection Hl as ->. by rewrite Hk.
  - unfold PyoObjectBase__getitem__, mbind, M_bind, get_obj.
    destruct (objs st !! o) as [r|]; [|done]. injection Hl as <-.
    by rewrite Hk.
Qed.

Lemma len_elems st arg l :
  elems_of (objs st) arg = Some l → len arg st = Ok (length l) st.
Proof.
  intros Hl. destruct arg; try done; cbn in Hl |- *.
  - by injection Hl as ->.
  - by injection Hl as ->.
  - unfold mbind, M_bind, get_obj.
    destruct (objs st !! o) as [r|]; [|done]. by injection Hl as <-.
Qed.

(** X4: [wrap(arg, i)] on a list, a tuple or a bundle.  It depends on [i]
    only through [i mod len(arg)]; it raises [ZeroDivisionError] when
    [arg] has no element and nothing else otherwise: the element selected
    is returned as it is unless it is a pyo object, which is replaced by
    its first stream, and by [None] when that object has no stream at
    all, after the diagnostic of [__getitem__] was printed with the
    stream type and the class of that object. *)
Theorem wrap_selects st arg l i :
  elems_of (objs st) arg = Some l →
  (∀ k, wrap arg (i + k * length l) st = wrap arg i st)
  ∧ (l = [] → wrap arg i st = Raise ZeroDivisionError st)
  ∧ (∀ x, l !! (i mod length l) = Some x →
       match x with
       | PObj c o =>
           ∀ r, objs st !! o = Some r →
             wrap arg i st
             = match _base_objs r !! 0 with
               | Some s => Ok s st
               | None =>
                   Ok PNone
                      (with_log
                         (λ lg, lg ++ [Printed
                                         "'i' too large in slicing %s object %s!"
                                         (STREAM_TYPE c) c])
                         st)
               end
       | _ => wrap arg i st = Ok x st
       end).
Proof.
  intros Hl. pose proof (len_elems _ _ _ Hl) as Hlen.
  split; [|split].
  - intros k. unfold wrap. rewrite !(bind_Ok _ _ _ _ _ Hlen).
    destruct (length l) as [|n] eqn:Hn; [done|].
    by rewrite Nat.Div0.mod_add.
  - intros ->. unfold wrap. by rewrite (bind_Ok _ _ _ _ _ Hlen).
  - intros x Hx. unfold wrap. rewrite (bind_Ok _ _ _ _ _ Hlen).
    destruct (length l) as [|n] eqn:Hn;
      [apply lookup_lt_Some in Hx; lia|].
    rewrite (bind_Ok _ _ _ _ _ (getitem_elems _ _ _ _ _ Hl Hx)).
    destruct x; try done.
    intros r Hr. cbn [isPyoObjectBase getitem].
    unfold PyoObjectBase__getitem__.
    rewrite (bind_Ok _ _ _ _ _ (get_obj_ok _ _ _ Hr)).
    by destruct (_base_objs r !! 0).
Qed.

Lemma wrap_selects_witness :
  wrap (PList [PObj CGeneric 1; PFloat 7]) 6 example_state
  = Ok (PStream 3) example_state
  ∧ wrap (PList [PObj CGeneric 1; PFloat 7]) 7 example_state
    = Ok (PFloat 7) example_state.
Proof.
  destruct (wrap_selects example_state (PList [PObj CGeneric 1; PFloat 7])
              [PObj CGeneric 1; PFloat 7] 6 eq_refl) as (_ & _ & H6).
  destruct (wrap_selects example_state (PList [PObj CGeneric 1; PFloat 7])
              [PObj CGeneric 1; PFloat 7] 7 eq_refl) as (_ & _ & H7).
  split.
  - exact (H6 (PObj CGeneric 1) eq_refl _ eq_refl).
  - exact (H7 (PFloat 7) eq_refl).
Defined.
(** ** Indexing and iterating a pyo object *)

(** X5: [obj[i]] for an integer [i], with [n] the number of streams.
    From 0 to [n - 1] it is stream [i]; from [-n] to [-1] it is stream
    [n + i], as for a list; at [n] and above nothing is raised: the
    diagnostic is printed, with the stream type and the class of the
    object, and [None] is returned; below [-n] the list raises
    [IndexError].  Apart from that printed line the store is never
    changed. *)
Theorem getitem_int_zones st c o r i :
  objs st !! o = Some r →
  let n := Z.of_nat (length (_base_objs r)) in
  ((0 ≤ i < n)%Z →
     ∃ x, _base_objs r !! Z.to_nat i = Some x
          ∧ PyoObjectBase__getitem__int c o i st = Ok x st
          ∧ PyoObjectBase__getitem__ c o (Z.to_nat i) st = Ok x st)
  ∧ ((- n ≤ i < 0)%Z →
     ∃ x, _base_objs r !! Z.to_nat (n + i) = Some x
          ∧ PyoObjectBase__getitem__int c o i st = Ok x st)
  ∧ ((i < - n)%Z →
     PyoObjectBase__getitem__int c o i st = Raise IndexError st)
  ∧ ((n ≤ i)%Z →
     PyoObjectBase__getitem__int c o i st
     = Ok PNone
          (with_log
             (λ lg, lg ++ [Printed "'i' too large in slicing %s object %s!"
                                   (STREAM_TYPE c) c])
             st)
     ∧ PyoObjectBase__getitem__ c o (Z.to_nat i) st
       = PyoObjectBase__getitem__int c o i st).
Proof.
  intros Hr. cbv zeta.
  unfold PyoObjectBase__getitem__int, PyoObjectBase__getitem__.
  rewrite !(bind_Ok _ _ _ _ _ (get_obj_ok _ _ _ Hr)).
  unfold list_getitem.
  set (n := Z.of_nat (length (_base_objs r))).
  split; [|split; [|split]].
  - intros Hi.
    destruct (lookup_lt_is_Some_2 (_base_objs r) (Z.to_nat i)) as [x Hx];
      [lia|].
    exists x. split; [done|].
    destruct (Z.ltb_spec i 0); [lia|].
    destruct (Z.ltb_spec i n); [|lia].
    destruct (Z.leb_spec 0 i); [|lia]. cbn [andb].
    by rewrite Hx.
  - intros Hi.
    destruct (lookup_lt_is_Some_2 (_base_objs r) (Z.to_nat (n + i)))
      as [x Hx]; [lia|].
    exists x. split; [done|].
    destruct (Z.ltb_spec i 0); [|lia].
    destruct (Z.ltb_spec i n); [|lia].
    destruct (Z.leb_spec 0 (i + n)); [|lia].
    destruct (Z.ltb_spec (i + n) n); [|lia]. cbn [andb].
    by rewrite Z.add_comm, Hx.
  - intros Hi.
    destruct (Z.ltb_spec i 0); [|lia].
    destruct (Z.ltb_spec i n); [|lia].
    destruct (Z.leb_spec 0 (i + n)); [lia|]. done.
  - intros Hi.
    destruct (Z.ltb_spec i n); [lia|].
    split; [done|].
    rewrite (lookup_ge_None_2 (_base_objs r) (Z.to_nat i)) by lia. done.
Qed.

Lemma getitem_int_zones_witness :
  PyoObjectBase__getitem__int CGeneric 0 (-1) example_state
  = Ok (PStream 2) example_state
  ∧ PyoObjectBase__getitem__int CGeneric 0 (-4) example_state
    = Raise IndexError example_state
  ∧ PyoObjectBase__getitem__int CGeneric 0 3 example_state
    = Ok PNone
         (with_log
            (λ lg, lg ++ [Printed "'i' too large in slicing %s object %s!"
                                  "audio" CGeneric])
            example_state).
Proof.
  destruct (getitem_int_zones example_state CGeneric 0 (generic_obj [0; 1; 2]) (-1)
              eq_refl) as (_ & Hneg & _).
  destruct (getitem_int_zones example_state CGeneric 0 (generic_obj [0; 1; 2]) (-4)
              eq_refl) as (_ & _ & Hlow & _).
  destruct (getitem_int_zones example_state CGeneric 0 (generic_obj [0; 1; 2]) 3
              eq_refl) as (_ & _ & _ & Hhigh).
  split; [|split].
  - destruct (Hneg ltac:(cbn; lia)) as (x & Hx & Hrun).
    cbn in Hx. injection Hx as <-. exact Hrun.
  - apply Hlow. cbn. lia.
  - apply Hhigh. cbn. lia.
Defined.

Lemma indexed_lookup st o r k :
  o < length (objs st) → objs (indexed st o r k) !! o = Some (with_index k r).
Proof. intros Ho. unfold indexed. norm_state. by apply list_lookup_insert_eq. Qed.

Lemma store_index st o r k k' :
  o < length (objs st) →
  store_attr o index_attr (PInt k') (indexed st o r k)
  = Ok tt (indexed st o r k').
Proof.
  intros Ho. unfold store_attr.
  rewrite (update_obj_ok _ _ _ _ (indexed_lookup st o r k Ho)).
  unfold indexed, with_index. norm_state.
  by rewrite list_insert_insert_eq, insert_insert_eq.
Qed.

Lemma PyoObjectBase__iter___ok c o st r :
  objs st !! o = Some r →
  PyoObjectBase__iter__ c o st = Ok (PObj c o) (indexed st o r 0).
Proof.
  intros Hr. unfold PyoObjectBase__iter__, store_attr.
  by rewrite (bind_Ok _ _ _ _ _ (update_obj_ok _ _ _ _ Hr)).
Qed.

Lemma getitem_int_in_range st c o r k x :
  objs st !! o = Some r →
  _base_objs r !! k = Some x →
  PyoObjectBase__getitem__int c o (Z.of_nat k) st = Ok x st.
Proof.
  intros Hr Hx. pose proof (lookup_lt_Some _ _ _ Hx) as Hk.
  unfold PyoObjectBase__getitem__int.
  rewrite (bind_Ok _ _ _ _ _ (get_obj_ok _ _ _ Hr)).
  unfold list_getitem.
  destruct (Z.ltb_spec (Z.of_nat k) 0); [lia|].
  destruct (Z.ltb_spec (Z.of_nat k)
              (Z.of_nat (length (_base_objs r)))); [|lia].
  destruct (Z.leb_spec 0 (Z.of_nat k)); [|lia].
  cbn [andb]. by rewrite Nat2Z.id, Hx.
Qed.

Lemma PyoObjectBase__next___ok c o st r k :
  o < length (objs st) →
  PyoObjectBase__next__ c o (indexed st o r (Z.of_nat k))
  = match _base_objs r !! k with
    | Some x => Ok (Some x) (indexed st o r (Z.of_nat (S k)))
    | None => Ok None (indexed st o r (Z.of_nat k))
    end.
Proof.
  intros Ho. unfold PyoObjectBase__next__.
  rewrite (bind_Ok _ _ _ _ _ (get_obj_ok _ _ _ (indexed_lookup st o r _ Ho))).
  assert (Hidx : attrs (with_index (Z.of_nat k) r) !! index_attr
                 = Some (PInt (Z.of_nat k))) by apply lookup_insert_eq.
  unfold read_index. rewrite Hidx.
  erewrite bind_Ok by reflexivity.
  change (_base_objs (with_index (Z.of_nat k) r)) with (_base_objs r).
  destruct (_base_objs r !! k) as [x|] eqn:Hx.
  - pose proof (lookup_lt_Some _ _ _ Hx) as Hk.
    destruct (Z.leb_spec (Z.of_nat (length (_base_objs r))) (Z.of_nat k));
      [lia|].
    rewrite (bind_Ok _ _ _ _ _
               (getitem_int_in_range _ c _ _ _ _
                  (indexed_lookup st o r _ Ho) Hx)).
    rewrite (bind_Ok _ _ _ _ _ (store_index st o r _ _ Ho)).
    by replace (Z.of_nat k + 1)%Z with (Z.of_nat (S k)) by lia.
  - apply lookup_ge_None_1 in Hx.
    destruct (Z.leb_spec (Z.of_nat (length (_base_objs r))) (Z.of_nat k));
      [done|lia].
Qed.

Lemma for_next_collect {B} (f : pyval → B) fuel c o st r k acc :
  o < length (objs st) →
  k ≤ length (_base_objs r) →
  length (_base_objs r) - k < fuel →
  for_next fuel c o (λ x acc, mret (acc ++ [f x])) acc
           (indexed st o r (Z.of_nat k))
  = Ok (acc ++ (f <$> drop k (_base_objs r)))
       (indexed st o r (Z.of_nat (length (_base_objs r)))).
Proof.
  intros Ho. revert k acc.
  induction fuel as [|fuel IH]; intros k acc Hk Hfuel; [lia|].
  cbn [for_next].
  pose proof (PyoObjectBase__next___ok c o st r k Ho) as Hn.
  destruct (_base_objs r !! k) as [x|] eqn:Hx;
    rewrite (bind_Ok _ _ _ _ _ Hn).
  - erewrite (drop_S _ _ _ Hx).
    pose proof (lookup_lt_Some _ _ _ Hx) as Hlt.
    rewrite bind_Ok with (a := acc ++ [f x])
                         (st' := indexed st o r (Z.of_nat (S k)))
      by reflexivity.
    rewrite IH by lia. by rewrite fmap_cons, <- app_assoc.
  - apply lookup_ge_None_1 in Hx.
    assert (k = length (_base_objs r)) as -> by lia.
    by rewrite drop_all, app_nil_r.
Qed.

(** X6: a [for] loop over a pyo object visits its streams, each once and
    in order, and leaves the object's private index at its length; the
    exhausted object then keeps answering [StopIteration] until [iter] is
    called again. *)
Theorem iteration_yields_streams fuel c o st r :
  objs st !! o = Some r →
  length (_base_objs r) < fuel →
  for_in fuel c o (λ x acc, mret (acc ++ [x])) [] st
  = Ok (_base_objs r)
       (indexed st o r (Z.of_nat (length (_base_objs r))))
  ∧ PyoObjectBase__next__ c o
      (indexed st o r (Z.of_nat (length (_base_objs r))))
    = Ok None (indexed st o r (Z.of_nat (length (_base_objs r)))).
Proof.
  intros Hr Hfuel. pose proof (lookup_lt_Some _ _ _ Hr) as Ho.
  split.
  - unfold for_in.
    rewrite (bind_Ok _ _ _ _ _ (PyoObjectBase__iter___ok c o st r Hr)).
    pose proof (for_next_collect (λ x, x) fuel c o st r 0 [] Ho
                  ltac:(lia) ltac:(lia)) as Hc.
    cbn beta in Hc. change (Z.of_nat 0) with 0%Z in Hc.
    rewrite Hc. by rewrite drop_0, list_fmap_id.
  - rewrite PyoObjectBase__next___ok by done.
    by rewrite lookup_ge_None_2 by done.
Qed.

Lemma iteration_yields_streams_witness :
  for_in 4 CGeneric 0 (λ x acc, mret (acc ++ [x])) [] example_state
  = Ok [PStream 0; PStream 1; PStream 2]
       (indexed example_state 0 (generic_obj [0; 1; 2]) 3).
Proof.
  exact (proj1 (iteration_yields_streams 4 CGeneric 0 example_state
                  (generic_obj [0; 1; 2]) eq_refl ltac:(cbn; lia))).
Defined.

(** X7: the object is its own iterator, so two loops over the same
    object share one index.  A loop nested in a loop over the same object
    runs to the end and thereby ends the outer loop: the outer body is
    executed for the first stream only, and [n] pairs are visited instead
    of [n * n]. *)
Theorem nested_iteration_stops_early fuel c o st r b0 rest :
  objs st !! o = Some r →
  _base_objs r = b0 :: rest →
  S (length rest) < fuel →
  for_in fuel c o
    (λ a acc, for_in fuel c o (λ b acc, mret (acc ++ [(a, b)])) acc) [] st
  = Ok ((λ b, (b0, b)) <$> _base_objs r)
       (indexed st o r (Z.of_nat (length (_base_objs r)))).
Proof.
  intros Hr Hb Hfuel. pose proof (lookup_lt_Some _ _ _ Hr) as Ho.
  assert (Hlen : length (_base_objs r) = S (length rest)) by (by rewrite Hb).
  unfold for_in at 1.
  rewrite (bind_Ok _ _ _ _ _ (PyoObjectBase__iter___ok c o st r Hr)).
  destruct fuel as [|fuel]; [lia|]. cbn [for_next].
  pose proof (PyoObjectBase__next___ok c o st r 0 Ho) as Hn0.
  rewrite Hb in Hn0 at 1. cbn [lookup list_lookup] in Hn0.
  rewrite (bind_Ok _ _ _ _ _ Hn0).
  assert (Hinner :
    for_in (S fuel) c o (λ b acc, mret (acc ++ [(b0, b)])) []
           (indexed st o r (Z.of_nat 1))
    = Ok ((λ b, (b0, b)) <$> _base_objs r)
         (indexed st o r (Z.of_nat (length (_base_objs r))))).
  { unfold for_in.
    rewrite (bind_Ok _ _ _ _ _
               (PyoObjectBase__iter___ok c o _ _
                  (indexed_lookup st o r _ Ho))).
    assert (Hsame : indexed (indexed st o r (Z.of_nat 1)) o
                      (with_index (Z.of_nat 1) r) 0
                    = indexed st o r (Z.of_nat 0)).
    { unfold indexed, with_index. norm_state.
      by rewrite list_insert_insert_eq, insert_insert_eq. }
    rewrite Hsame.
    pose proof (for_next_collect (λ b, (b0, b)) (S fuel) c o st r 0 [] Ho
                  ltac:(lia) ltac:(lia)) as Hc.
    cbn beta in Hc. rewrite Hc. by rewrite drop_0. }
  rewrite (bind_Ok _ _ _ _ _ Hinner).
  destruct fuel as [|fuel]; [lia|]. cbn [for_next].
  pose proof (PyoObjectBase__next___ok c o st r (length (_base_objs r)) Ho)
    as Hn.
  rewrite lookup_ge_None_2 in Hn by done.
  by rewrite (bind_Ok _ _ _ _ _ Hn).
Qed.

Lemma nested_iteration_stops_early_witness :
  for_in 5 CGeneric 0
    (λ a acc, for_in 5 CGeneric 0 (λ b acc, mret (acc ++ [(a, b)])) acc)
    [] example_state
  = Ok [(PStream 0, PStream 0); (PStream 0, PStream 1);
        (PStream 0, PStream 2)]
       (indexed example_state 0 (generic_obj [0; 1; 2]) 3).
Proof.
  exact (nested_iteration_stops_early 5 CGeneric 0 example_state
           (generic_obj [0; 1; 2]) (PStream 0) [PStream 1; PStream 2]
           eq_refl eq_refl ltac:(cbn; lia)).
Defined.
(** ** Constructors and the processing host *)

Lemma scan_args_cases name format k args :
  k + length args ≤ String.length format →
  scan_args name format k args = None
  ∨ ∃ i e g, scan_args name format k args
             = Some (PyoArgumentTypeError i name e g).
Proof.
  revert k. induction args as [|a rest IH]; intros k Hlen; [by left|].
  cbn [scan_args length] in *.
  destruct (String.get k format) as [f|] eqn:Hf.
  - destruct (String.eqb _ _); [apply IH; lia|]. right. by eexists _, _, _.
  - exfalso. clear -Hf Hlen. revert k Hf Hlen.
    induction format as [|ch s IHs]; intros k Hf Hlen; [cbn in Hlen; lia|].
    destruct k as [|k]; [done|]. cbn in *. apply (IHs k); [done|lia].
Qed.

Lemma assert_args_cases name format args st :
  length args ≤ String.length format →
  assert_args name format args st = Ok tt st
  ∨ ∃ i e g, assert_args name format args st
             = Raise (PyoArgumentTypeError i name e g) st.
Proof.
  intros Hlen. unfold assert_args, pyoArgsAssert.
  destruct (scan_args_cases name format 0 args Hlen) as [->|(i & e & g & ->)];
    [by left|right; by eexists _, _, _].
Qed.

Lemma PyoObject__init___down st mul add :
  server_down st →
  ∃ msg, PyoObject__init__ mul add st
         = Raise (PyoServerStateException msg)
                 (with_objs (λ l, l ++ [blank_obj]) st).
Proof.
  intros Hdown. unfold PyoObject__init__, PyoObjectBase__init__.
  unfold alloc_obj, gets, mbind, M_bind, with_objs.
  destruct st as [os ss lg sc sb]. unfold server_down in Hdown.
  cbn in *. destruct Hdown as [->| ->]; [|destruct sc]; cbn; by eexists.
Qed.

Lemma refused_after_check {A} name format args (k : nat → M A) mul add st :
  length args ≤ String.length format →
  server_down st →
  refused (assert_args name format args;;
           o ← PyoObject__init__ mul add; k o) st.
Proof.
  intros Hlen Hdown.
  destruct (assert_args_cases name format args st Hlen)
    as [Hok|(i & e & g & Hbad)].
  - destruct (PyoObject__init___down st mul add Hdown) as [msg Hinit].
    eexists _, _. split.
    + rewrite (bind_Ok _ _ _ _ _ Hok). by apply bind_Raise.
    + done.
  - eexists _, _. split; [by apply bind_Raise|done].
Qed.

(** X8: without a booted host no audio object comes into being.  The
    constructors of [Sig], [VarPort], [Mix], [InputFader], [Compare] and
    [Dummy] then raise, before any engine stream is created, started or
    stopped: [PyoArgumentTypeError] when the arguments do not pass the
    validator, which runs first, and [PyoServerStateException] otherwise;
    so do the comparison operators against an operand other than [None],
    and [mix]. *)
Theorem no_object_without_server st :
  server_down st →
  (∀ value mul add, refused (Sig__init__ value mul add) st)
  ∧ (∀ value time init function arg mul add,
       refused (VarPort__init__ value time init function arg mul add) st)
  ∧ (∀ input voices mul add, refused (Mix__init__ input voices mul add) st)
  ∧ (∀ input, refused (InputFader__init__ input) st)
  ∧ (∀ input comp mode mul add,
       refused (Compare__init__ input comp mode mul add) st)
  ∧ (∀ objs_list,
       ∃ msg, Dummy__init__ objs_list st
              = Raise (PyoServerStateException msg)
                      (with_objs (λ l, l ++ [blank_obj]) st))
  ∧ (∀ c o voices, refused (PyoObject_mix c o voices) st)
  ∧ (∀ c o x mode default,
       x ≠ PNone → refused (PyoObject__do_comp__ c o x mode default) st).
Proof.
  intros Hdown.
  split; [|split; [|split; [|split; [|split; [|split; [|split]]]]]].
  - intros. apply refused_after_check; [cbn; lia|done].
  - intros. apply refused_after_check; [cbn; lia|done].
  - intros. apply refused_after_check; [cbn; lia|done].
  - intros. apply refused_after_check; [cbn; lia|done].
  - intros. apply refused_after_check; [cbn; lia|done].
  - intros l. destruct (PyoObject__init___down st (PFloat 1) (PFloat 0) Hdown)
      as [msg Hinit].
    exists msg. unfold Dummy__init__. by apply bind_Raise.
  - intros. apply refused_after_check; [cbn; lia|done].
  - intros c o x mode default Hx. unfold PyoObject__do_comp__.
    destruct x; try done; apply refused_after_check; (cbn; lia) || done.
Qed.

Lemma no_object_without_server_witness :
  refused (Sig__init__ (PFloat 1) (PInt 1) (PInt 0))
          (mkState [] [] [] true false)
  ∧ refused (PyoObject__lt__ CGeneric 0 (PFloat 1))
            (mkState [generic_obj [0]] [unit_stream] [] false false).
Proof.
  split.
  - apply (no_object_without_server (mkState [] [] [] true false)).
    by right.
  - destruct (no_object_without_server
                (mkState [generic_obj [0]] [unit_stream] [] false false)
                ltac:(by left)) as (_ & _ & _ & _ & _ & _ & _ & H).
    by apply H.
Defined.
(** ** What the binary operators leave alone *)

Lemma only_adds_refl st : only_adds st st.
Proof.
  split; [done|]. split; [done|]. intros o r Hr. exists r. by repeat split.
Qed.

Lemma only_adds_after_arith st o r n news :
  objs st !! o = Some r →
  only_adds st (after_arith st o r n news).
Proof.
  intros Hr. pose proof (lookup_lt_Some _ _ _ Hr) as Ho.
  split; [by apply prefix_app_r|]. split; [done|].
  intros o' r' Hr'. pose proof (lookup_lt_Some _ _ _ Hr') as Ho'.
  destruct (decide (o' = o)) as [->|Hne].
  - assert (r' = r) as -> by congruence.
    eexists. split.
    + unfold after_arith. norm_state. apply list_lookup_insert_eq.
      rewrite length_app. lia.
    + split; [done|]. by apply prefix_app_r.
  - exists r'. rewrite after_arith_lookup_other by done. by repeat split.
Qed.

Lemma only_adds_trans st1 st2 st3 :
  only_adds st1 st2 → only_adds st2 st3 → only_adds st1 st3.
Proof.
  intros (Hs1 & Hl1 & Ho1) (Hs2 & Hl2 & Ho2).
  split; [by etrans|]. split; [congruence|].
  intros o r Hr. destruct (Ho1 _ _ Hr) as (r' & Hr' & Hsame & Hpre).
  destruct (Ho2 _ _ Hr') as (r'' & Hr'' & Hsame' & Hpre').
  exists r''. split; [done|]. split; [|by etrans].
  unfold same_but_trace in *. congruence.
Qed.

Lemma only_adds_trace st o r l :
  objs st !! o = Some r →
  only_adds st
    (put_objs (<[o := set_keep_trace (_keep_trace r ++ l) r]> (objs st)) st).
Proof.
  intros Hr. pose proof (lookup_lt_Some _ _ _ Hr) as Ho.
  split; [done|]. split; [done|].
  intros o' r' Hr'. norm_state.
  destruct (decide (o' = o)) as [->|Hne].
  - assert (r' = r) as -> by congruence.
    eexists. split; [by apply list_lookup_insert_eq|].
    split; [done|]. by apply prefix_app_r.
  - exists r'. rewrite list_lookup_insert_ne by done. by repeat split.
Qed.

Lemma arith_streams_kinds op d items sids s k :
  arith_streams op d items sids !! k = Some s →
  ∃ a b, s_kind s = KArith op a b ∧ s_playing s = true.
Proof.
  unfold arith_streams. rewrite list_lookup_imap.
  destruct (sids !! k); [|done]. intros [= <-]. by eexists _, _.
Qed.

Lemma arith_streams_wrapped_kinds op sids xs s k :
  arith_streams_wrapped op sids xs !! k = Some s →
  ∃ a b, s_kind s = KArith op a b ∧ s_playing s = true.
Proof.
  unfold arith_streams_wrapped. rewrite list_lookup_imap.
  destruct (xs !! k); [|done]. intros [= <-]. by eexists _, _.
Qed.

(** X9: a binary operator only adds to the store.  For a bundle and an
    operand with at least one element, [self OP x] creates one composite
    and [max (len self) (len x)] engine streams, each the engine's [OP]
    node, running at once.  No stream that existed is changed, nothing is
    printed or called, and every object keeps its streams and its
    attributes: only traces grow.  The trace of [self] ends with the new
    composite, and any object other than [self] and the operand is left
    exactly as it was. *)
Theorem arithmetic_only_adds st op c o ss x n :
  host_running st →
  stream_bundle st o ss →
  operand st x n →
  ∃ st' news,
    PyoObject_arith 2 op c o x st = Ok (PObj CDummy (length (objs st))) st'
    ∧ only_adds st st'
    ∧ length (objs st') = S (length (objs st))
    ∧ streams st' = streams st ++ news
    ∧ length news = max (length ss) n
    ∧ (∀ k s, news !! k = Some s →
         ∃ a b, s_kind s = KArith op a b ∧ s_playing s = true)
    ∧ last (trace_of st' o) = Some (PObj CDummy (length (objs st)))
    ∧ (∀ o', o' ≠ o → (∀ cx, x ≠ PObj cx o') → o' < length (objs st) →
         objs st' !! o' = objs st !! o').
Proof.
  intros Hh Hself Hop.
  destruct (stream_bundle_inv _ _ _ Hself)
    as (r & Hr & Hb & Hne & _ & Hd & _).
  pose proof (lookup_lt_Some _ _ _ Hr) as Ho.
  assert (Hafter : ∀ k news,
    length news = max (length ss) n →
    (∀ j s, news !! j = Some s →
       ∃ a b, s_kind s = KArith op a b ∧ s_playing s = true) →
    PyoObject_arith 2 op c o x st
    = Ok (PObj CDummy (length (objs st))) (after_arith st o r k news) →
    ∃ st' news,
      PyoObject_arith 2 op c o x st = Ok (PObj CDummy (length (objs st))) st'
      ∧ only_adds st st'
      ∧ length (objs st') = S (length (objs st))
      ∧ streams st' = streams st ++ news
      ∧ length news = max (length ss) n
      ∧ (∀ k s, news !! k = Some s →
           ∃ a b, s_kind s = KArith op a b ∧ s_playing s = true)
      ∧ last (trace_of st' o) = Some (PObj CDummy (length (objs st)))
      ∧ (∀ o', o' ≠ o → (∀ cx, x ≠ PObj cx o') → o' < length (objs st) →
           objs st' !! o' = objs st !! o')).
  { intros k news Hlen Hkinds Hrun. exists (after_arith st o r k news), news.
    split; [done|]. split; [by apply only_adds_after_arith|].
    split; [apply after_arith_objs_length|]. split; [done|].
    split; [done|]. split; [done|]. split.
    - unfold trace_of, after_arith. norm_state.
      rewrite list_lookup_insert_eq by (rewrite length_app; lia).
      cbn. apply last_snoc.
    - intros o' Hne' _ Hlt. by apply after_arith_lookup_other. }
  destruct (decide (n ≤ length ss)) as [Hle|Hgt].
  - destruct (operand_items _ _ _ Hop) as (items & Hit & Hlen & Hine).
    eapply (Hafter _ (arith_streams op (_op_duplicate r) items ss)).
    + unfold arith_streams. rewrite length_imap. lia.
    + intros j s. apply arith_streams_kinds.
    + eapply PyoObject_arith_self_longer';
        try done; [by eapply operand_items_valid|lia].
  - destruct Hop as [x' Hx|l Hlne Hl|cx ox xs Hcx Hbx].
    + destruct ss; [done|simpl in Hgt; lia].
    + eapply (Hafter _ (arith_streams_wrapped op ss l)).
      * unfold arith_streams_wrapped. rewrite length_imap. lia.
      * intros j s. apply arith_streams_wrapped_kinds.
      * eapply PyoObject_arith_list_longer;
          try done; [by apply engine_operand_numbers|lia].
    + destruct (stream_bundle_inv _ _ _ Hbx)
        as (rx & Hrx & Hbox & Hxne & _ & Hdx & _).
      pose proof (lookup_lt_Some _ _ _ Hrx) as Hox.
      destruct (commutes op) eqn:Hcomm.
      * assert (Hneq : o ≠ ox).
        { intros ->. simplify_eq. rewrite Hb in Hbox.
          apply (f_equal length) in Hbox. rewrite !length_fmap in Hbox.
          lia. }
        set (news := arith_streams op (_op_duplicate rx) (PStream <$> ss) xs).
        set (st1 := after_arith st ox rx (length xs) news).
        assert (Hr1 : objs st1 !! o = Some r).
        { unfold st1. rewrite after_arith_lookup_other by done. done. }
        eexists _, news. split.
        { eapply PyoObject_arith_delegated; try done. lia. }
        fold news. fold st1.
        split.
        { eapply only_adds_trans; [by apply only_adds_after_arith|].
          pose proof (only_adds_trace st1 o r
                        [PObj CDummy (length (objs st))] Hr1) as H.
          exact H. }
        split.
        { norm_state. rewrite length_insert.
          apply after_arith_objs_length. }
        split; [done|]. split.
        { unfold news, arith_streams. rewrite length_imap. lia. }
        split; [intros j s; apply arith_streams_kinds|].
        split.
        { unfold trace_of. norm_state.
          rewrite list_lookup_insert_eq
            by (unfold st1; rewrite after_arith_objs_length; lia).
          cbn. apply last_snoc. }
        intros o' Hne' Hx' Hlt. norm_state.
        rewrite list_lookup_insert_ne by done.
        apply after_arith_lookup_other; [|done].
        intros ->. by apply (Hx' cx).
      * eapply (Hafter _ (arith_streams_wrapped op ss (PStream <$> xs))).
        -- unfold arith_streams_wrapped.
           rewrite length_imap, length_fmap. lia.
        -- intros j s. apply arith_streams_wrapped_kinds.
        -- eapply PyoObject_arith_bundle_longer; try done. lia.
Qed.

Lemma arithmetic_only_adds_witness :
  ∃ st' news,
    PyoObject__sub__ CGeneric 1 (PObj CGeneric 0) example_state
    = Ok (PObj CDummy 2) st'
    ∧ only_adds example_state st'
    ∧ streams st' = streams example_state ++ news
    ∧ length news = 3.
Proof.
  destruct (arithmetic_only_adds example_state Sub CGeneric 1 [3; 4]
              (PObj CGeneric 0) 3 ltac:(solve_host) ltac:(solve_bundle))
    as (st' & news & H1 & H2 & _ & H3 & H4 & _).
  - apply (operand_bundle example_state CGeneric 0 [0; 1; 2] eq_refl).
    solve_bundle.
  - exists st', news. split; [exact H1|]. split; [exact H2|].
    split; [exact H3|exact H4].
Defined.

Lemma arith_streams_wrapped_lookup op (sids : list nat) xs i y :
  sids ≠ [] →
  xs !! i = Some y →
  ∃ a, sids !! (i mod length sids) = Some a
       ∧ s_kind <$> arith_streams_wrapped op sids xs !! i
         = Some (KArith op a y).
Proof.
  intros Hne Hy. destruct (wrap_at_streams sids i Hne) as (a & Ha & Hw).
  exists a. split; [done|].
  unfold arith_streams_wrapped. rewrite list_lookup_imap, Hy. cbn.
  by rewrite Hw.
Qed.

(** X10: [-] and [/] with a longer right operand.  The operands are not
    swapped, as they are for [+] and [*]: [self] is wrapped around the
    operand, so that stream [i] of the result is
    [self[i mod len(self)] OP x[i]], and the duplication factor of
    [self] plays no part.  This holds for a bundle and for a list of
    numbers, whose elements are handed to the engine as they are. *)
Theorem longer_right_operand st op c o ss :
  host_running st →
  stream_bundle st o ss →
  commutes op = false →
  (∀ cx ox xs,
     audio_class cx = true → stream_bundle st ox xs →
     length ss < length xs →
     ∃ st', PyoObject_arith 2 op c o (PObj cx ox) st
            = Ok (PObj CDummy (length (objs st))) st'
            ∧ base_of st' (length (objs st))
              = PStream <$> seq (length (streams st)) (length xs)
            ∧ ∀ i y, xs !! i = Some y →
                ∃ a, ss !! (i mod length ss) = Some a
                     ∧ kind_of st' (length (streams st) + i)
                       = Some (KArith op a (PStream y)))
  ∧ (∀ l,
       Forall (λ y, is_number y = true) l →
       length ss < length l →
       ∃ st', PyoObject_arith 2 op c o (PList l) st
              = Ok (PObj CDummy (length (objs st))) st'
              ∧ base_of st' (length (objs st))
                = PStream <$> seq (length (streams st)) (length l)
              ∧ ∀ i y, l !! i = Some y →
                  ∃ a, ss !! (i mod length ss) = Some a
                       ∧ kind_of st' (length (streams st) + i)
                         = Some (KArith op a y)).
Proof.
  intros Hh Hself Hop.
  destruct (stream_bundle_inv _ _ _ Hself)
    as (r & Hr & Hb & Hne & _ & Hd & _).
  pose proof (lookup_lt_Some _ _ _ Hr) as Ho.
  split.
  - intros cx ox xs Hcx Hbx Hlt.
    destruct (stream_bundle_inv _ _ _ Hbx)
      as (rx & Hrx & Hbox & Hxne & _ & Hdx & _).
    eexists. split;
      [eapply PyoObject_arith_bundle_longer; try done|].
    split; [by rewrite after_arith_base|].
    intros i y Hy.
    destruct (arith_streams_wrapped_lookup op ss (PStream <$> xs) i
                (PStream y) Hne) as (a & Ha & Hk).
    { by rewrite list_lookup_fmap, Hy. }
    exists a. split; [done|].
    unfold kind_of. rewrite after_arith_streams.
    rewrite lookup_app_r by lia.
    by replace (length (streams st) + i - length (streams st)) with i by lia.
  - intros l Hl Hlt.
    eexists. split;
      [eapply PyoObject_arith_list_longer; try done;
       by apply engine_operand_numbers|].
    split; [by rewrite after_arith_base|].
    intros i y Hy.
    destruct (arith_streams_wrapped_lookup op ss l i y Hne Hy)
      as (a & Ha & Hk).
    exists a. split; [done|].
    unfold kind_of. rewrite after_arith_streams.
    rewrite lookup_app_r by lia.
    by replace (length (streams st) + i - length (streams st)) with i by lia.
Qed.

Lemma longer_right_operand_witness :
  ∃ st', PyoObject__sub__ CGeneric 1 (PObj CGeneric 0) example_state
         = Ok (PObj CDummy 2) st'
         ∧ kind_of st' 7 = Some (KArith Sub 3 (PStream 2)).
Proof.
  destruct (longer_right_operand example_state Sub CGeneric 1 [3; 4]
              ltac:(solve_host) ltac:(solve_bundle) eq_refl) as [H _].
  destruct (H CGeneric 0 [0; 1; 2] eq_refl ltac:(solve_bundle)
              ltac:(cbn; lia)) as (st' & Hrun & _ & Hk).
  exists st'. split; [exact Hrun|].
  destruct (Hk 2 2 eq_refl) as (a & Ha & Hkind).
  cbn in Ha. injection Ha as <-. exact Hkind.
Defined.
(** ** How the setters fail *)

Lemma expected_O_text x :
  expected_for "O" x ≠ "" → expected_for "O" x = "float or PyoObject".
Proof.
  unfold expected_for.
  by destruct (negb (isAudioObject x)
               && negb (type_in (type x) [TList; TInt; TFloat])).
Qed.

Lemma set_factor_rejects store base_set c o x st :
  expected_for "O" x ≠ "" →
  set_factor store base_set c o x st
  = Raise (PyoArgumentTypeError 0 c "float or PyoObject" (type x)) st.
Proof.
  intros Hx. unfold set_factor. apply bind_Raise.
  unfold assert_args, pyoArgsAssert. cbn [scan_args].
  change (String.get 0 "O") with (Some "O"%char). cbv beta iota zeta.
  rewrite (expected_O_text x Hx). reflexivity.
Qed.

Lemma set_factor_empty store base_set c o st r :
  (∀ r, _base_objs (store (PList []) r) = _base_objs r) →
  objs st !! o = Some r →
  _base_objs r ≠ [] →
  set_factor store base_set c o (PList []) st
  = Raise ZeroDivisionError
          (put_objs (<[o := store (PList []) r]> (objs st)) st).
Proof.
  intros Hstore Hr Hne. unfold set_factor.
  pose proof (lookup_lt_Some _ _ _ Hr) as Ho.
  erewrite bind_Ok by reflexivity.
  erewrite bind_Ok by (by apply update_obj_ok).
  erewrite bind_Ok by reflexivity.
  cbn beta iota zeta.
  erewrite bind_Ok.
  2:{ apply get_obj_ok. cbn. by apply list_lookup_insert_eq. }
  apply bind_Raise. rewrite Hstore.
  destruct (_base_objs r) as [|b l]; [done|].
  unfold enumerate. rewrite imap_cons. cbn [mapM].
  apply bind_Raise. unfold floordiv.
  destruct (_op_duplicate (store (PList []) r)); [done|].
  erewrite bind_Ok by reflexivity. by apply bind_Raise.
Qed.

(** X11: how [setMul], [setDiv], [setAdd] and [setSub] fail.  An
    argument that is neither a number, a list nor an audio object, a
    boolean for instance, is refused by the validator before anything is
    changed.  An empty list passes the validator; on a bundle with at
    least one stream the call then raises [ZeroDivisionError] after the
    attribute has been replaced: the object is left with the empty list
    as its [mul] or [add], while no stream was touched. *)
Theorem setter_failures setter store c o st r :
  (setter, store) ∈ factor_setters →
  objs st !! o = Some r →
  (∀ x, expected_for "O" x ≠ "" →
        setter c o x st
        = Raise (PyoArgumentTypeError 0 c "float or PyoObject" (type x)) st)
  ∧ (∀ b, setter c o (PBool b) st
          = Raise (PyoArgumentTypeError 0 c "float or PyoObject" TBool) st)
  ∧ (_base_objs r ≠ [] →
     setter c o (PList []) st
     = Raise ZeroDivisionError
             (put_objs (<[o := store (PList []) r]> (objs st)) st)).
Proof.
  intros Hin Hr.
  assert (Hall : ∀ base_set,
    (store = set_mul ∨ store = set_add) →
    (∀ x, expected_for "O" x ≠ "" →
          set_factor store base_set c o x st
          = Raise (PyoArgumentTypeError 0 c "float or PyoObject" (type x)) st)
    ∧ (∀ b, set_factor store base_set c o (PBool b) st
            = Raise (PyoArgumentTypeError 0 c "float or PyoObject" TBool) st)
    ∧ (_base_objs r ≠ [] →
       set_factor store base_set c o (PList []) st
       = Raise ZeroDivisionError
               (put_objs (<[o := store (PList []) r]> (objs st)) st))).
  { intros base_set Hstore. split; [|split].
    - intros x Hx. by apply set_factor_rejects.
    - intros b. by apply (set_factor_rejects store base_set c o (PBool b)).
    - intros Hne. apply set_factor_empty; [|done|done].
      by destruct Hstore as [-> | ->]. }
  unfold factor_setters in Hin.
  repeat (apply elem_of_cons in Hin as [[= -> ->]|Hin];
          [apply Hall; auto|]).
  by apply elem_of_nil in Hin.
Qed.

Lemma setter_failures_witness :
  PyoObject_setMul CGeneric 0 (PList []) example_state
  = Raise ZeroDivisionError
          (put_objs (<[0 := set_mul (PList []) (generic_obj [0; 1; 2])]>
                       (objs example_state)) example_state)
  ∧ PyoObject_setSub CGeneric 0 (PBool true) example_state
    = Raise (PyoArgumentTypeError 0 CGeneric "float or PyoObject" TBool)
            example_state.
Proof.
  split.
  - refine (proj2 (proj2 (setter_failures PyoObject_setMul set_mul CGeneric 0
                            example_state (generic_obj [0; 1; 2]) _ eq_refl))
              _).
    + by left.
    + discriminate.
  - refine (proj1 (proj2 (setter_failures PyoObject_setSub set_add CGeneric 0
                            example_state (generic_obj [0; 1; 2]) _ eq_refl))
              true).
    do 3 right. by left.
Defined.
(** ** How [set] and [_reset_from_set] fail *)

Lemma set_registers c o attr value port callback st r :
  objs st !! o = Some r →
  numeric value = true →
  numeric port = true →
  is_callback callback = true →
  ∀ k : M unit,
    (assert_args c "SnnC" [PStr attr; value; port; callback];;
     update_obj o (λ r,
       set_target_dict (<[attr := value]> (_target_dict r)) r);;
     update_obj o (λ r,
       set_callback_dict (<[attr := callback]> (_callback_dict r)) r);;
     k) st
    = k (after_registration st o attr value callback r).
Proof.
  intros Hr Hnv Hnp Hcb k.
  destruct (numeric_inv _ Hnv) as (_ & _ & _ & Hvn & _).
  destruct (numeric_inv _ Hnp) as (_ & _ & _ & Hpn & _).
  assert (expected_for "C" callback = "") as HC by (by destruct callback).
  pose proof (lookup_lt_Some _ _ _ Hr) as Hlt.
  erewrite bind_Ok by (apply assert_args_ok; solve_args).
  erewrite bind_Ok by (by apply update_obj_ok).
  erewrite bind_Ok.
  2:{ apply update_obj_ok. norm_state. by apply list_lookup_insert_eq. }
  unfold after_registration, registered. norm_state.
  by rewrite list_insert_insert_eq.
Qed.

Lemma ramp_origin_idle st o r r2 attr cur :
  objs st !! o = Some r →
  _base_objs r2 = _base_objs r →
  _signal_dict r2 = _signal_dict r →
  no_active_ramp st r attr →
  ramp_origin r2 attr cur (put_objs (<[o := r2]> (objs st)) st)
  = Ok cur (put_objs (<[o := r2]> (objs st)) st).
Proof.
  intros Hr Hb Hs Hidle. unfold ramp_origin. rewrite Hs.
  destruct Hidle as [->|(p & sP & -> & Hp & Hpl)]; [done|].
  destruct (bundle_after_insert _ _ _ r2 _ _ Hr Hb Hp) as (rp & Hrp & Hbp).
  destruct (stream_bundle_inv _ _ _ Hp) as (_ & _ & _ & Hne & _).
  destruct sP as [|x sP]; [done|]. cbn [hd] in Hpl.
  unfold playing_of in Hpl.
  destruct (streams st !! x) as [rs|] eqn:Hx; [|done].
  injection Hpl as Hpl.
  erewrite bind_Ok by (eapply PyoObject_isPlaying_ok; eauto).
  by rewrite Hpl.
Qed.

(** X12: [set] writes the target and the callback of [attr] before it
    looks at the attribute, and does not take them back when it fails.
    For arguments that pass its validator, on an attribute whose value is
    neither a number nor a list, a bundle for instance, with no ramp
    playing, it raises the [PyoArgumentTypeError] of the [VarPort]
    constructor, whose argument 2 that value has become.  The two
    dictionaries keep the new entries, while no ramp was built and no
    stream was touched. *)
Theorem set_failures c o attr value port callback st r :
  objs st !! o = Some r →
  numeric value = true →
  numeric port = true →
  is_callback callback = true →
  (∀ cur,
       attr_value r attr = Some cur →
       expected_for "n" cur ≠ "" →
       no_active_ramp st r attr →
       PyoObject_set c o attr value port callback st
       = Raise (PyoArgumentTypeError 2 CVarPort "any number" (type cur))
               (after_registration st o attr value callback r))
  ∧ target_of (after_registration st o attr value callback r) o attr
    = Some value
  ∧ callback_of (after_registration st o attr value callback r) o attr
    = Some callback
  ∧ signal_of (after_registration st o attr value callback r) o attr
    = signal_of st o attr
  ∧ streams (after_registration st o attr value callback r) = streams st
  ∧ length (objs (after_registration st o attr value callback r))
    = length (objs st).
Proof.
  intros Hr Hnv Hnp Hcb.
  pose proof (lookup_lt_Some _ _ _ Hr) as Hlt.
  assert (Hr2 : objs (after_registration st o attr value callback r) !! o
                = Some (registered attr value callback r)).
  { unfold after_registration. norm_state. by apply list_lookup_insert_eq. }
  split; [|split; [|split; [|split; [|split]]]].
  - intros cur Hcur Hbad Hidle. unfold PyoObject_set.
    rewrite (set_registers c o attr value port callback st r) by done.
    erewrite bind_Ok by (by eapply (getattr_ok _ _ _ _ cur)).
    rewrite (bind_Ok _ _ _ _ _ (get_obj_ok _ _ _ Hr2)).
    erewrite bind_Ok.
    2:{ unfold after_registration.
        by apply (ramp_origin_idle st o r). }
    apply bind_Raise. unfold VarPort__init__. apply bind_Raise.
    destruct (numeric_inv _ Hnv) as (_ & _ & _ & Hvn & _).
    destruct (numeric_inv _ Hnp) as (_ & _ & _ & Hpn & _).
    unfold assert_args, pyoArgsAssert.
    rewrite (scan_args_first_failure CVarPort "nnnczOO" 0
               [value; port; cur; PResetMethod o; PStr attr; PInt 1; PInt 0]
               2 cur eq_refl).
    + cbn [Nat.add String.get].
      change (Ascii.eqb _ _) with true. cbv iota.
      f_equal. f_equal. unfold expected_for in *.
      by destruct (negb (type_in (type cur) [TList; TInt; TFloat])).
    + intros [|[|j]] a Hj Ha; [| |lia]; cbn in Ha; injection Ha as <-;
        by eexists.
    + exact Hbad.
  - unfold target_of. rewrite Hr2. cbn. apply lookup_insert_eq.
  - unfold callback_of. rewrite Hr2. cbn. apply lookup_insert_eq.
  - unfold signal_of. by rewrite Hr2, Hr.
  - done.
  - unfold after_registration. norm_state. apply length_insert.
Qed.

Lemma set_failures_witness :
  PyoObject_set CGeneric 0 "freq" (PFloat 1) (PFloat 2) PNone
    modulated_state
  = Raise (PyoArgumentTypeError 2 CVarPort "any number"
             (TInstance CGeneric))
          (after_registration modulated_state 0 "freq" (PFloat 1) PNone
             modulated_obj).
Proof.
  refine (proj1 (set_failures CGeneric 0 "freq" (PFloat 1)
                   (PFloat 2) PNone modulated_state modulated_obj
                   eq_refl eq_refl eq_refl eq_refl)
            (PObj CGeneric 1) eq_refl _ _).
  - discriminate.
  - by left.
Defined.

(** X13: the completion handler reads the dictionaries of [set] without
    a guard.  Called for an attribute that holds no ramp and was never
    given to [set] it raises [KeyError] at [_signal_dict[attr]]; for an
    attribute that holds a ramp that [set] did not register it raises
    [KeyError] at [_target_dict[attr]].  In both cases the store is left
    as it was. *)
Theorem reset_without_set c o attr st r :
  objs st !! o = Some r →
  (∀ cur, attr_value r attr = Some cur →
       isVarPort cur = false →
       _signal_dict r !! attr = None →
       PyoObject__reset_from_set c o attr st = Raise (KeyError attr) st)
  ∧ (∀ cur, attr_value r attr = Some cur →
       isVarPort cur = true →
       _target_dict r !! attr = None →
       PyoObject__reset_from_set c o attr st = Raise (KeyError attr) st).
Proof.
  intros Hr. unfold PyoObject__reset_from_set.
  split.
  - intros cur Hcur Hvp Hsig.
    erewrite bind_Ok by (by eapply getattr_ok).
    rewrite Hvp.
    erewrite bind_Ok by reflexivity.
    rewrite (bind_Ok _ _ _ _ _ (get_obj_ok _ _ _ Hr)).
    unfold stop_signal. by rewrite Hsig.
  - intros cur Hcur Hvp Htgt.
    erewrite bind_Ok by (by eapply getattr_ok).
    rewrite Hvp. apply bind_Raise.
    rewrite (bind_Ok _ _ _ _ _ (get_obj_ok _ _ _ Hr)).
    by rewrite Htgt.
Qed.

Lemma reset_without_set_witness :
  PyoObject__reset_from_set CGeneric 0 "freq" freq_state
  = Raise (KeyError "freq") freq_state.
Proof.
  destruct (reset_without_set CGeneric 0 "freq" freq_state freq_obj eq_refl)
    as (Hkey & _).
  exact (Hkey (PFloat 100) eq_refl eq_refl eq_refl).
Defined.
(** ** How [Mix] deals its inputs *)











Lemma Mix_counts_num voices input_len lmax :
  1 ≤ lmax → input_len = 0 → 1 ≤ (Mix_counts voices input_len lmax).2.
Proof.
  intros Hl ->. unfold Mix_counts.
  destruct (Z.ltb_spec voices 1); [done|].
  destruct (Z.gtb_spec voices (Z.of_nat 0)); [|lia].
  destruct (Z.gtb_spec voices (Z.of_nat lmax)); cbn [andb snd]; [lia|].
  destruct (Nat.ltb_spec 0 lmax); cbn [snd]; lia.
Qed.

(** X16: [Mix] cannot mix nothing.  When its input holds no stream, an
    empty list for instance, the first round of the dealing loop computes
    [i % 0]: the constructor raises [ZeroDivisionError], whatever the
    number of voices, and no engine stream has been created. *)
Theorem Mix_empty_input st input voices mul add :
  host_running st →
  expected_for "o" input = "" →
  mix_inputs (objs st) input = Some [] →
  numeric mul = true →
  numeric add = true →
  ∃ st',
    Mix__init__ input voices mul add st = Raise ZeroDivisionError st'
    ∧ streams st' = streams st
    ∧ log st' = log st.
Proof.
  intros Hh Hin Hobjs Hm Ha. unfold Mix__init__.
  destruct (numeric_inv _ Hm) as (_ & _ & _ & _ & HmO).
  destruct (numeric_inv _ Ha) as (_ & _ & _ & _ & HaO).
  pose proof (numeric_items_length _ Hm) as Hml.
  erewrite bind_Ok by (apply assert_args_ok; solve_args).
  erewrite bind_Ok by (by apply PyoObject__init___ok).
  erewrite bind_Ok by (by apply store_attr_new).
  erewrite bind_Ok.
  2:{ apply (convertArgsToLists_ok _ _
               [length (numeric_items mul); length (numeric_items add)]);
        [done|].
      cbn [fmap list_fmap mapM]. norm_state.
      rewrite (numeric_len_of _ mul), (numeric_len_of _ add) by done.
      reflexivity. }
  cbn beta iota zeta.
  erewrite bind_Ok.
  2:{ eapply (Mix_input_ok (objs st)); [done|].
      intros o Ho. cbn. by rewrite lookup_app_l. }
  change (length (@nil pyval)) with 0.
  pose proof (Mix_counts_num voices 0
                (max_list [length (numeric_items mul);
                           length (numeric_items add)])
                ltac:(cbn [max_list_with id foldr]; unfold id; lia) eq_refl)
    as Hnum.
  destruct (Mix_counts voices 0 _) as [nv num]. cbn [snd] in Hnum.
  eexists. split.
  - apply bind_Raise. unfold Mix_sub_lists.
    destruct num as [|num]; [lia|]. cbn [seq foldM].
    apply bind_Raise. by apply bind_Raise.
  - done.
Qed.

Lemma Mix_empty_input_witness :
  ∃ st',
    Mix__init__ (PList []) 2 (PInt 1) (PInt 0) example_state
    = Raise ZeroDivisionError st'
    ∧ streams st' = streams example_state.
Proof.
  destruct (Mix_empty_input example_state (PList []) 2 (PInt 1) (PInt 0)
              ltac:(solve_host) eq_refl eq_refl eq_refl eq_refl)
    as (st' & Hrun & Hs & _).
  exists st'. split; [exact Hrun|exact Hs].
Defined.
(** ** A comparison with an unknown mode *)

Lemma comp_dict_unknown mode st :
  mode ∉ compare_modes.*1 →
  comp_dict (PStr mode) st = Raise (KeyError mode) st.
Proof.
  intros Hnot.
  assert (H : ∀ m, m ∈ compare_modes.*1 → mode ≠ m)
    by (intros m Hm ->; done).
  pose proof (H "<" ltac:(set_solver)) as H1.
  pose proof (H "<=" ltac:(set_solver)) as H2.
  pose proof (H ">" ltac:(set_solver)) as H3.
  pose proof (H ">=" ltac:(set_solver)) as H4.
  pose proof (H "==" ltac:(set_solver)) as H5.
  pose proof (H "!=" ltac:(set_solver)) as H6.
  clear H Hnot.
  destruct mode as [|a s]; [reflexivity|].
  destruct a as [[] [] [] [] [] [] [] []]; try reflexivity;
    (destruct s as [|a' s']; [try reflexivity; try done|];
     destruct a' as [[] [] [] [] [] [] [] []]; try reflexivity;
     destruct s' as [|a'' s'']; try reflexivity; try done).
Qed.

(** X17: a [Compare] built over a bundle with a valid comparison signal
    but a mode that is not one of the six operators raises [KeyError]
    with that mode.  The failure comes late: the input fader of the node
    is already built and playing, with one engine stream per stream of
    the input, and stays in the store beside the record of the unfinished
    node, which has no stream. *)
Theorem Compare_unknown_mode st c o sA comp nx mode :
  host_running st →
  audio_class c = true →
  stream_bundle st o sA →
  operand st comp nx →
  mode ∉ compare_modes.*1 →
  Compare__init__ (PObj c o) comp (PStr mode) (PInt 1) (PInt 0) st
  = Raise (KeyError mode) (after_unknown_mode st (PObj c o) comp mode sA).
Proof.
  intros Hh Hc Hself Hop Hmode. unfold Compare__init__.
  destruct (stream_bundle_inv _ _ _ Hself) as (r & Hr & Hb & Hne & _).
  assert (Hin : expected_for "o" (PObj c o) = "") by (by destruct c).
  pose proof (operand_valid _ _ _ Hop) as Hcomp.
  destruct (operand_items _ _ _ Hop) as (items & Hit & Hnx & Hine).
  erewrite bind_Ok by (apply assert_args_ok; solve_args).
  erewrite bind_Ok by (by apply PyoObject__init___ok).
  erewrite bind_Ok by (by apply store_attr_new).
  norm_state.
  erewrite bind_Ok by (by apply store_attr_new).
  norm_state.
  erewrite bind_Ok by (by apply store_attr_new).
  norm_state.
  erewrite bind_Ok.
  2:{ apply (InputFader__init___ok _ c o r sA); try done.
      cbn. by apply lookup_app_l_Some. }
  norm_state. rewrite length_app. cbn [length]. rewrite Nat.add_1_r.
  rewrite <- app_assoc. cbn [app].
  erewrite bind_Ok.
  2:{ unfold store_attr. eapply update_obj_ok. cbn.
      apply lookup_app_head. }
  norm_state. rewrite insert_app_head.
  set (cobj := mkObj _ _ _ _ _ _ _ _ _ _).
  set (os' := objs st ++ [cobj; fader_obj (PObj c o) (length (streams st)) sA]).
  assert (Hfad : items_of os' (PObj CInputFader (S (length (objs st))))
                 = Some (PStream <$> seq (length (streams st)) (length sA))).
  { eapply items_of_bundle; [apply lookup_app_second|done]. }
  assert (Hitems : items_of os' (to_list_form comp) = Some items)
    by (by apply items_of_app).
  erewrite bind_Ok.
  2:{ apply (convertArgsToLists_ok _ _
               [length sA; length items; 1; 1; 1]); [done|].
      cbn [fmap list_fmap mapM]. norm_state. fold os'.
      change (to_list_form (PObj CInputFader (S (length (objs st)))))
        with (PObj CInputFader (S (length (objs st)))).
      rewrite (length_items_of _ _ _ Hfad), (length_items_of _ _ _ Hitems).
      cbn. by rewrite length_fmap, length_seq. }
  cbn beta iota zeta.
  assert (Hmax : ∃ k, max_list [length sA; length items; 1; 1; 1] = S k).
  { cbn [max_list_with id]. destruct sA; [done|]. cbn [length].
    exists (max (length sA) (pred (max (length items) 1))). lia. }
  destruct Hmax as [k ->]. cbn [seq mapM].
  apply bind_Raise. apply bind_Raise.
  change ((to_list_form
             <$> [PObj CInputFader (S (length (objs st))); comp; PStr mode;
                  PInt 1; PInt 0]) !!! 0)
    with (PObj CInputFader (S (length (objs st)))).
  change ((to_list_form
             <$> [PObj CInputFader (S (length (objs st))); comp; PStr mode;
                  PInt 1; PInt 0]) !!! 1)
    with (to_list_form comp).
  change ((to_list_form
             <$> [PObj CInputFader (S (length (objs st))); comp; PStr mode;
                  PInt 1; PInt 0]) !!! 2)
    with (PList [PStr mode]).
  erewrite bind_Ok.
  2:{ apply wrap_ok; [exact Hfad|]. apply fmap_nil_inv_ne.
      destruct sA; [done|]. done. }
  erewrite bind_Ok by (by apply wrap_ok).
  erewrite bind_Ok by (by apply wrap_scalar).
  apply bind_Raise. rewrite comp_dict_unknown by done.
  reflexivity.
Qed.

Lemma Compare_unknown_mode_witness :
  Compare__init__ (PObj CGeneric 0) (PFloat 0.5) (PStr "=<") (PInt 1)
                  (PInt 0) example_state
  = Raise (KeyError "=<")
          (after_unknown_mode example_state (PObj CGeneric 0) (PFloat 0.5)
                              "=<" [0; 1; 2]).
Proof.
  apply (Compare_unknown_mode example_state CGeneric 0 [0; 1; 2]
           (PFloat 0.5) 1 "=<").
  - solve_host.
  - reflexivity.
  - solve_bundle.
  - by apply operand_number.
  - intros H. cbn in H.
    repeat (apply elem_of_cons in H as [H|H]; [discriminate|]).
    by apply elem_of_nil in H.
Defined.
(** ** Starting, stopping and querying a bundle *)


Lemma timing_valid st x : timing st x → expected_for "n" x = "".
Proof.
  intros [Hx [n Hop]]. destruct Hop as [x' Hx'|l _ _|c o ss _ _].
  - by destruct x'.
  - done.
  - done.
Qed.

Lemma timing_items st x :
  timing st x →
  ∃ items, (∀ ss, items_of (objs (put_streams ss st)) (to_list_form x)
                  = Some items)
           ∧ items ≠ []
           ∧ Forall (λ y, isPyoObjectBase y = false) items
           ∧ Forall (λ y, is_number y = true) items
           ∧ items = numeric_items x.
Proof.
  intros [Hx [n Hop]]. destruct Hop as [x' Hx'|l Hne Hl|c o ss _ _].
  - exists [x']. split; [|split; [done|split; [|split]]].
    + intros ss. by destruct x'.
    + constructor; [by destruct x'|done].
    + by constructor.
    + by destruct x'.
  - exists l. split; [|split; [done|split; [|done]]].
    + intros ss. unfold items_of. cbn. by apply mapM_first_of_numbers.
    + eapply Forall_impl; [exact Hl|]. intros y Hy. by destruct y.
  - done.
Qed.






Lemma timing_list_form x :
  expected_for "n" x = "" → ∃ l, to_list_form x = PList l.
Proof. destruct x; try done; by eexists. Qed.

Lemma convertArgsToLists_timing dur delay ld ll st :
  to_list_form dur = PList ld →
  to_list_form delay = PList ll →
  convertArgsToLists [dur; delay] st
  = Ok ([PList ld; PList ll], max_list [length ld; length ll]) st.
Proof.
  intros Hd Hl. unfold convertArgsToLists. cbn [fmap list_fmap].
  by rewrite Hd, Hl.
Qed.

(** X19: on a bundle, [play] with the empty list for [dur], or with a
    valid [dur] and the empty list for [delay], gets through the argument
    check and then raises [ZeroDivisionError] at the first stream; no
    stream has been started and the store is as before. *)
Theorem play_empty_timing st c o sA :
  stream_bundle st o sA →
  (∀ delay, expected_for "n" delay = "" →
     PyoObject_play c o (PList []) delay st = Raise ZeroDivisionError st)
  ∧ (∀ dur, timing st dur →
       PyoObject_play c o dur (PList []) st = Raise ZeroDivisionError st).
Proof.
  intros Hself.
  destruct (stream_bundle_inv _ _ _ Hself) as (r & Hr & Hb & Hne & Hs & _).
  destruct sA as [|x sA]; [done|].
  split.
  - intros delay Hv. destruct (timing_list_form _ Hv) as [ll Hll].
    unfold PyoObject_play.
    erewrite bind_Ok by (apply assert_args_ok; solve_args).
    erewrite bind_Ok by (by apply (convertArgsToLists_timing _ _ [] ll)).
    cbn beta iota zeta.
    erewrite bind_Ok by (by apply get_obj_ok).
    rewrite Hb. reflexivity.
  - intros dur Hdur.
    pose proof (timing_valid _ _ Hdur) as Hv.
    destruct (timing_list_form _ Hv) as [ld Hld].
    destruct (timing_items _ _ Hdur) as (ds & Hds & Hdne & _).
    specialize (Hds (streams st)). rewrite put_streams_id, Hld in Hds.
    unfold PyoObject_play.
    erewrite bind_Ok by (apply assert_args_ok; solve_args).
    erewrite bind_Ok by (by apply (convertArgsToLists_timing _ _ ld [])).
    cbn beta iota zeta.
    erewrite bind_Ok by (by apply get_obj_ok).
    rewrite Hb. cbn [fmap list_fmap enumerate imap mapM].
    apply bind_Raise. apply bind_Raise.
    change ([PList ld; PList []] !!! 0) with (PList ld).
    erewrite bind_Ok by (by apply (wrap_ok _ _ ds)).
    reflexivity.
Qed.

Lemma play_empty_timing_witness :
  PyoObject_play CGeneric 0 (PList []) (PInt 0) example_state
  = Raise ZeroDivisionError example_state
  ∧ PyoObject_play CGeneric 0 (PFloat 1.5) (PList []) example_state
    = Raise ZeroDivisionError example_state.
Proof.
  destruct (play_empty_timing example_state CGeneric 0 [0; 1; 2]) as [H1 H2].
  - solve_bundle.
  - split; [by apply H1|]. apply H2.
    split; [done|]. eexists. by apply operand_number.
Defined.

(** X20: [Dummy([])] is an empty bundle.  On it [isPlaying()] and [get()]
    raise [IndexError], [isPlaying(all=True)] and [get(all=True)] return
    the empty list, its length is 0, and [play], with any arguments the
    check accepts (the empty list too), and [stop] return the bundle and
    change nothing. *)
Theorem empty_composite st :
  host_running st →
  let o := length (objs st) in
  let st' := put_objs (objs st ++ [dummy_obj [] []]) st in
  Dummy__init__ [] st = Ok (PObj CDummy o) st'
  ∧ PyoObject_isPlaying_flag CDummy o (PBool false) st'
    = Raise IndexError st'
  ∧ PyoObject_isPlaying_flag CDummy o (PBool true) st' = Ok (PList []) st'
  ∧ PyoObject_get CDummy o (PBool false) st' = Raise IndexError st'
  ∧ PyoObject_get CDummy o (PBool true) st' = Ok (PList []) st'
  ∧ len (PObj CDummy o) st' = Ok 0 st'
  ∧ (∀ dur delay,
       expected_for "n" dur = "" → expected_for "n" delay = "" →
       PyoObject_play CDummy o dur delay st' = Ok (PObj CDummy o) st')
  ∧ PyoObject_stop CDummy o st' = Ok (PObj CDummy o) st'.
Proof.
  intros Hh o st'.
  assert (Hr : objs st' !! o = Some (dummy_obj [] []))
    by apply lookup_snoc.
  split.
  { rewrite Dummy__init___ok; [done|done|].
    intros o' Ho'. by apply elem_of_nil in Ho'. }
  split.
  { unfold PyoObject_isPlaying_flag.
    erewrite bind_Ok by reflexivity.
    by erewrite bind_Ok by (by apply get_obj_ok). }
  split.
  { unfold PyoObject_isPlaying_flag.
    erewrite bind_Ok by reflexivity.
    by erewrite bind_Ok by (by apply get_obj_ok). }
  split.
  { unfold PyoObject_get.
    erewrite bind_Ok by reflexivity.
    by erewrite bind_Ok by (by apply get_obj_ok). }
  split.
  { unfold PyoObject_get.
    erewrite bind_Ok by reflexivity.
    by erewrite bind_Ok by (by apply get_obj_ok). }
  split.
  { unfold len. by erewrite bind_Ok by (by apply get_obj_ok). }
  split.
  { intros dur delay Hd Hl.
    destruct (timing_list_form _ Hd) as [ld Hld].
    destruct (timing_list_form _ Hl) as [ll Hll].
    unfold PyoObject_play.
    erewrite bind_Ok by (apply assert_args_ok; solve_args).
    erewrite bind_Ok by (by apply (convertArgsToLists_timing _ _ ld ll)).
    cbn beta iota zeta.
    by erewrite bind_Ok by (by apply get_obj_ok). }
  unfold PyoObject_stop.
  by erewrite bind_Ok by (by apply get_obj_ok).
Qed.

Lemma empty_composite_witness :
  Dummy__init__ [] example_state
  = Ok (PObj CDummy 2)
       (put_objs (objs example_state ++ [dummy_obj [] []]) example_state)
  ∧ PyoObject_get CDummy 2 (PBool false)
      (put_objs (objs example_state ++ [dummy_obj [] []]) example_state)
    = Raise IndexError
        (put_objs (objs example_state ++ [dummy_obj [] []]) example_state).
Proof.
  destruct (empty_composite example_state) as (H1 & _ & _ & H2 & _).
  - solve_host.
  - by split.
Defined.
(** ** Setters of [Sig] and [Compare] *)

(** A comprehension whose every step rewrites one existing stream through
    an engine method that exists on streams satisfying [P] only. *)
Lemma mapM_update_kinded {A B} (f : A → M B) (s : A → nat)
      (u : A → stream → stream) (b : A → B) (P : stream → Prop)
      (l : list A) st ss0 :
  (∀ x ss r, x ∈ l → ss !! s x = Some r → P r →
     f x (put_streams ss st)
     = Ok (b x) (put_streams (alter (u x) (s x) ss) st)) →
  (∀ x r, P r → P (u x r)) →
  Forall (λ x, ∃ r, ss0 !! s x = Some r ∧ P r) l →
  mapM f l (put_streams ss0 st)
  = Ok (b <$> l)
       (put_streams (foldl (λ ss x, alter (u x) (s x) ss) ss0 l) st).
Proof.
  intros Hf HP. revert ss0.
  induction l as [|x l IH]; intros ss0 Hl; simpl; [done|].
  inversion Hl as [|? ? (r & Hr & Hpr) Hl']; subst.
  rewrite (bind_Ok _ _ _ _ _ (Hf x ss0 r ltac:(left) Hr Hpr)).
  assert (Hl2 : Forall (λ y, ∃ r, alter (u x) (s x) ss0 !! s y = Some r
                                  ∧ P r) l).
  { eapply Forall_impl; [exact Hl'|]. intros y (ry & Hry & Hpy).
    destruct (decide (s x = s y)) as [Heq|Hne].
    - exists (u x ry). rewrite <- Heq, list_lookup_alter_eq.
      rewrite <- Heq in Hry. rewrite Hry. split; [done|]. by apply HP.
    - exists ry. by rewrite list_lookup_alter_ne. }
  by rewrite (bind_Ok _ _ _ _ _
                (IH (λ y ss r' Hy, Hf y ss r' ltac:(by right)) _ Hl2)).
Qed.

Lemma base_call_ok name f (g : stream → stream) s r st :
  streams st !! s = Some r → f r = Some (g r) →
  base_call name f (PStream s) st
  = Ok tt (put_streams (alter g s (streams st)) st).
Proof.
  intros Hr Hf. unfold base_call, on_stream.
  erewrite bind_Ok by (unfold get_stream; by rewrite Hr).
  rewrite Hf, update_stream_alter by (by eapply lookup_lt_Some).
  unfold put_streams. do 2 f_equal.
  apply list_eq. intros k. destruct (decide (k = s)) as [->|Hks].
  - by rewrite !list_lookup_alter_eq, Hr.
  - by rewrite !list_lookup_alter_ne.
Qed.

Lemma Sig_setValue_ok o x st r sids items :
  expected_for "O" x = "" →
  objs st !! o = Some r →
  _base_objs r = PStream <$> sids →
  Forall (λ s, ∃ v, kind_of st s = Some (KSig v)) sids →
  items_of (objs st) (to_list_form x) = Some items →
  items ≠ [] →
  Sig_setValue o x st
  = Ok tt
       (mkState (<[o := set_attrs (<["value" := x]> (attrs r)) r]> (objs st))
          (foldl (λ ss (p : nat * pyval),
                    alter (s_set_kind (KSig (wrap_at items p.1)))
                          (sid_of p.2) ss)
                 (streams st) (enumerate (PStream <$> sids)))
          (log st) (server_created st) (server_booted st)).
Proof.
  intros Hx Hr Hb Hk Hit Hne. unfold Sig_setValue.
  erewrite bind_Ok by (by apply assert_args_O).
  erewrite bind_Ok by (by apply update_obj_ok).
  set (r' := set_attrs _ r).
  assert (Hit' : items_of (<[o := r']> (objs st)) (to_list_form x)
                 = Some items)
    by (by rewrite (items_of_insert _ _ r)).
  erewrite bind_Ok.
  2:{ apply convertArgsToLists_1. cbn [objs put_objs].
      by eapply length_items_of. }
  cbn beta iota zeta. change ([to_list_form x] !!! 0) with (to_list_form x).
  erewrite bind_Ok.
  2:{ apply get_obj_ok. cbn. apply list_lookup_insert_eq.
      by eapply lookup_lt_Some. }
  change (_base_objs (set_attrs (<["value":=x]> (attrs r)) r))
    with (_base_objs r).
  rewrite Hb.
  erewrite bind_Ok.
  2:{ rewrite <- (put_streams_id (put_objs _ st)).
      apply (mapM_update_kinded _ (λ p : nat * pyval, sid_of p.2)
               (λ p : nat * pyval, s_set_kind (KSig (wrap_at items p.1)))
               (λ _, tt) (λ r, ∃ v, s_kind r = KSig v)).
      - intros [i obj] ss rs Hin Hrs [v Hv]. apply elem_of_enumerate in Hin.
        rewrite list_lookup_fmap in Hin.
        destruct (sids !! i) as [s|]; simpl in Hin; [|done].
        simplify_eq. cbn [fst snd sid_of] in *.
        erewrite bind_Ok by (by apply wrap_ok).
        unfold base_setValue.
        rewrite (base_call_ok _ _ (s_set_kind (KSig (wrap_at items i)))
                              s rs); [reflexivity|exact Hrs|].
        unfold engine_setValue. by rewrite Hv.
      - intros p rs [v Hv]. by eexists.
      - apply Forall_forall. intros [i obj] Hin.
        apply elem_of_enumerate in Hin.
        rewrite list_lookup_fmap in Hin.
        destruct (sids !! i) as [s|] eqn:Hi; simpl in Hin; [|done].
        simplify_eq. cbn [snd sid_of streams put_objs].
        eapply Forall_forall in Hk; [|by eapply list_elem_of_lookup_2].
        destruct Hk as [v Hv]. unfold kind_of in Hv.
        destruct (streams st !! s) as [rs|]; [|done].
        exists rs. split; [done|]. exists v. by injection Hv. }
  reflexivity.
Qed.

(** X21: [setValue] on a [Sig] accepts a number, a non-empty list of
    numbers or a bundle.  It records the operand as the [value], keeps the
    stream list of the [Sig] (the operand's length never resizes it: a
    shorter operand wraps around, the tail of a longer one is unused), and
    hands stream [i] the operand's element [i] modulo its length; nothing
    else of the stream, no other stream and no other object changes, and
    nothing is printed. *)
Theorem Sig_setValue_wraps st o ss x n :
  sig_bundle st o ss →
  operand st x n →
  ∃ items st',
    items_of (objs st) (to_list_form x) = Some items
    ∧ length items = n
    ∧ Sig_setValue o x st = Ok tt st'
    ∧ objs st' = with_value st o x
    ∧ log st' = log st
    ∧ length (streams st') = length (streams st)
    ∧ (∀ i s, ss !! i = Some s →
         streams st' !! s
         = s_set_kind (KSig (wrap_at items i)) <$> streams st !! s)
    ∧ (∀ s, s ∉ ss → streams st' !! s = streams st !! s).
Proof.
  intros (Hself & Hnd & Hk) Hop.
  destruct (stream_bundle_inv _ _ _ Hself) as (r & Hr & Hb & Hne & Hv & _).
  destruct (operand_items _ _ _ Hop) as (items & Hit & Hlen & Hine).
  exists items. eexists. split; [done|]. split; [done|].
  split.
  { apply (Sig_setValue_ok _ _ _ r ss items); try done.
    by eapply operand_valid. }
  cbn [objs streams log].
  split.
  { unfold with_value. apply list_eq. intros k.
    destruct (decide (k = o)) as [->|Hko].
    - rewrite list_lookup_insert_eq by (by eapply lookup_lt_Some).
      by rewrite list_lookup_alter_eq, Hr.
    - by rewrite list_lookup_insert_ne, list_lookup_alter_ne. }
  split; [done|].
  split; [by rewrite (length_foldl_alter (λ p : nat * pyval, sid_of p.2))|].
  split.
  - intros i s Hs.
    assert (Hin : (i, PStream s) ∈ enumerate (PStream <$> ss)).
    { apply elem_of_enumerate. by rewrite list_lookup_fmap, Hs. }
    pose proof (lookup_foldl_alter_in
                  (λ p : nat * pyval, sid_of p.2)
                  (λ p : nat * pyval, s_set_kind (KSig (wrap_at items p.1)))
                  (enumerate (PStream <$> ss)) (streams st)
                  (i, PStream s)) as H.
    cbn [fst snd sid_of] in H. apply H; [|done].
    by rewrite sids_of_enumerate.
  - intros s Hs.
    apply (lookup_foldl_alter_notin (λ p : nat * pyval, sid_of p.2)).
    intros [i obj] Hin Heq. apply elem_of_enumerate in Hin.
    rewrite list_lookup_fmap in Hin.
    destruct (ss !! i) as [s'|] eqn:Hi; simpl in Hin; [|done].
    simplify_eq. cbn in Hs. apply Hs. by eapply list_elem_of_lookup_2.
Qed.

Lemma Sig_setValue_wraps_witness :
  ∃ st',
    Sig_setValue 0 (PList [PInt 3; PInt 4]) (sig_state (PInt 1)) = Ok tt st'
    ∧ length (streams st') = 1
    ∧ streams st' !! 0
      = s_set_kind (KSig (PInt 3)) <$> streams (sig_state (PInt 1)) !! 0.
Proof.
  destruct (Sig_setValue_wraps (sig_state (PInt 1)) 0 [0]
              (PList [PInt 3; PInt 4]) 2)
    as (items & st' & Hit & _ & Hrun & _ & _ & Hlen & Hs & _).
  - split; [solve_bundle|]. split; [apply NoDup_singleton|].
    constructor; [by eexists|done].
  - apply (operand_list _ [PInt 3; PInt 4]); [done|by repeat constructor].
  - exists st'. split; [done|]. split; [done|].
    injection Hit as <-. apply (Hs 0 0 eq_refl).
Defined.

Lemma store_mode_after_compare st input comp mode sA items code mode' :
  store_attr (length (objs st)) "mode" (PStr mode')
    (after_compare st input comp mode sA items code)
  = Ok tt (after_compare st input comp mode' sA items code).
Proof.
  unfold store_attr.
  rewrite (update_obj_ok _ _ _
             (compare_obj input comp (PStr mode)
                (PObj CInputFader (S (length (objs st))))
                (PStream <$> seq (length (streams st) + length sA)
                                 (max (length sA) (length items)))))
    by apply lookup_app_head.
  f_equal. unfold after_compare, put_objs. cbn [objs streams log
    server_created server_booted]. rewrite insert_app_head.
  by repeat f_equal.
Qed.

(** The part of [setMode] before the loop over the streams, on a node
    just built: the new mode is recorded and the loop runs over the
    streams of the node. *)
Lemma Compare_setMode_loop st input comp mode sA items code mode' :
  Compare_setMode (length (objs st)) (PStr mode')
    (after_compare st input comp mode sA items code)
  = (mapM (λ '(i, obj),
            k ← wrap (PList [PStr mode']) i;
            code ← comp_dict k;
            base_setMode obj code)
          (enumerate
             (PStream <$> seq (length (streams st) + length sA)
                              (max (length sA) (length items))));;
     mret tt)
      (after_compare st input comp mode' sA items code).
Proof.
  unfold Compare_setMode.
  erewrite bind_Ok by reflexivity.
  rewrite (bind_Ok _ _ _ _ _ (store_mode_after_compare _ _ _ _ _ _ _ _)).
  erewrite bind_Ok by reflexivity.
  cbn beta iota zeta.
  erewrite bind_Ok.
  2:{ apply get_obj_ok. cbn [objs after_compare]. apply lookup_app_head. }
  reflexivity.
Qed.

Lemma with_mode_compare_stream faders items code code' i :
  with_mode code' (compare_stream faders items code i)
  = compare_stream faders items code' i.
Proof. reflexivity. Qed.

Lemma Compare_setMode_known st input comp mode sA items code mode' code' :
  (mode', code') ∈ compare_modes →
  Compare_setMode (length (objs st)) (PStr mode')
    (after_compare st input comp mode sA items code)
  = Ok tt (after_compare st input comp mode' sA items code').
Proof.
  intros Hmode. rewrite Compare_setMode_loop.
  set (S1 := after_compare st input comp mode' sA items code).
  set (lmax := max (length sA) (length items)).
  set (pre := streams st ++ (fader_stream <$> (PStream <$> sA))).
  set (cmp k := compare_stream
                  (PStream <$> seq (length (streams st)) (length sA))
                  items k <$> seq 0 lmax).
  assert (Hss : streams S1 = pre ++ cmp code)
    by (unfold S1, after_compare; cbn [streams]; by rewrite app_assoc).
  assert (Hpre : length pre = length (streams st) + length sA)
    by (unfold pre; by rewrite length_app, !length_fmap).
  rewrite <- (put_streams_id S1) at 1.
  erewrite bind_Ok.
  2:{ apply (mapM_update_kinded _ (λ p : nat * pyval, sid_of p.2)
               (λ _, with_mode code') (λ _, tt)
               (λ r, ∃ f x k, s_kind r = KCompare f x k)).
      - intros [i obj] ss rs Hin Hrs (f & x & k & Hk).
        apply elem_of_enumerate in Hin.
        rewrite list_lookup_fmap in Hin.
        destruct (seq _ _ !! i) as [s|]; simpl in Hin; [|done].
        simplify_eq. cbn [fst snd sid_of] in *.
        erewrite bind_Ok by (by apply wrap_scalar).
        erewrite bind_Ok by (by apply comp_dict_modes).
        unfold base_setMode.
        rewrite (base_call_ok _ _ (with_mode code') s rs);
          [reflexivity|exact Hrs|].
        unfold engine_setMode, with_mode. by rewrite Hk.
      - intros _ rs (f & x & k & Hk). unfold with_mode. rewrite Hk.
        by do 3 eexists.
      - apply Forall_forall. intros [i obj] Hin.
        apply elem_of_enumerate in Hin.
        rewrite list_lookup_fmap in Hin.
        destruct (seq _ _ !! i) as [s|] eqn:Hi; simpl in Hin; [|done].
        simplify_eq. cbn [snd sid_of].
        apply lookup_seq in Hi as [-> Hi]. rewrite Hss.
        rewrite lookup_app_r by lia.
        replace (length (streams st) + length sA + i - length pre)
          with i by lia.
        unfold cmp. rewrite list_lookup_fmap, lookup_seq_lt by done.
        eexists. split; [reflexivity|]. by do 3 eexists. }
  rewrite foldl_alter_enumerate, Hss.
  pose proof (alter_all_new (with_mode code') pre (cmp code)) as H.
  unfold cmp at 1 in H. rewrite length_fmap, length_seq, Hpre in H.
  fold lmax. rewrite H.
  unfold mret, M_ret. f_equal.
  unfold S1, after_compare, put_streams. cbn [objs streams log
    server_created server_booted]. f_equal.
  unfold pre, cmp. rewrite <- app_assoc. do 2 f_equal.
  by rewrite <- list_fmap_compose.
Qed.

Lemma Compare_setMode_unknown st input comp mode sA items code mode' :
  sA ≠ [] →
  mode' ∉ compare_modes.*1 →
  Compare_setMode (length (objs st)) (PStr mode')
    (after_compare st input comp mode sA items code)
  = Raise (KeyError mode')
          (after_compare st input comp mode' sA items code).
Proof.
  intros Hne Hmode. rewrite Compare_setMode_loop.
  assert (Hmax : ∃ k, max (length sA) (length items) = S k).
  { destruct sA; [done|]. cbn [length].
    exists (max (length sA) (pred (length items))). lia. }
  destruct Hmax as [k ->].
  cbn [seq fmap list_fmap enumerate imap mapM].
  apply bind_Raise. apply bind_Raise.
  erewrite bind_Ok by (by apply wrap_scalar).
  apply bind_Raise. by apply comp_dict_unknown.
Qed.

(** X22: changing the mode of a [Compare] node that was built over a
    bundle with operator [mode].  With one of the six operators,
    [setMode] leaves exactly the store that building the node with that
    operator leaves: the recorded mode and the code of every stream.
    With any other string it raises [KeyError] on the first stream, after
    the string has been recorded as the mode: every stream keeps the code
    of the old operator. *)
Theorem Compare_setMode_rebuilds st c o sA comp nx mode code mode' :
  host_running st →
  audio_class c = true →
  stream_bundle st o sA →
  operand st comp nx →
  (mode, code) ∈ compare_modes →
  ∃ items,
    let n := length (objs st) in
    let built m k := after_compare st (PObj c o) comp m sA items k in
    items_of (objs st) (to_list_form comp) = Some items
    ∧ Compare__init__ (PObj c o) comp (PStr mode) (PInt 1) (PInt 0) st
      = Ok (PObj CCompare n) (built mode code)
    ∧ (∀ code', (mode', code') ∈ compare_modes →
         Compare__init__ (PObj c o) comp (PStr mode') (PInt 1) (PInt 0) st
         = Ok (PObj CCompare n) (built mode' code')
         ∧ Compare_setMode n (PStr mode') (built mode code)
           = Ok tt (built mode' code'))
    ∧ (mode' ∉ compare_modes.*1 →
       Compare_setMode n (PStr mode') (built mode code)
       = Raise (KeyError mode') (built mode' code)).
Proof.
  intros Hh Hc Hself Hop Hmode.
  destruct (stream_bundle_inv _ _ _ Hself) as (r & Hr & Hb & Hne & _).
  destruct (operand_items _ _ _ Hop) as (items & Hit & _).
  exists items. cbv zeta.
  split; [done|].
  split.
  { eapply Compare__init___ok; try done.
    intros. by apply comp_dict_modes. }
  split.
  - intros code' Hmode'. split.
    + eapply Compare__init___ok; try done.
      intros. by apply comp_dict_modes.
    + by apply Compare_setMode_known.
  - intros Hbad. by apply Compare_setMode_unknown.
Qed.

Lemma Compare_setMode_rebuilds_witness :
  Compare_setMode 2 (PStr ">=")
    (after_compare example_state (PObj CGeneric 0) (PFloat 0.5) "<"
                   [0; 1; 2] [PFloat 0.5] 0)
  = Ok tt (after_compare example_state (PObj CGeneric 0) (PFloat 0.5) ">="
                         [0; 1; 2] [PFloat 0.5] 3).
Proof.
  destruct (Compare_setMode_rebuilds example_state CGeneric 0 [0; 1; 2]
              (PFloat 0.5) 1 "<" 0 ">=")
    as (items & Hit & _ & Hset & _).
  - solve_host.
  - reflexivity.
  - solve_bundle.
  - by apply operand_number.
  - by left.
  - injection Hit as <-.
    apply (Hset 3). do 3 right. by left.
Defined.
(** ** [set] on a property with a setter of its own *)

(** [set] up to its last line, on an attribute without a ramp. *)
Lemma set_until_setattr c o attr value port callback st r cur :
  host_running st →
  objs st !! o = Some r →
  numeric value = true → numeric port = true →
  is_callback callback = true →
  attr_value r attr = Some cur →
  numeric cur = true →
  _signal_dict r !! attr = None →
  PyoObject_set c o attr value port callback st
  = setattr c o attr (PObj CVarPort (length (objs st)))
      (after_refused_ramp st o attr value port callback cur r).
Proof.
  intros Hh Hr Hnv Hnp Hcb Hcur Hnc Hsig.
  unfold PyoObject_set.
  destruct (numeric_inv _ Hnv) as (_ & _ & _ & Hvn & _).
  destruct (numeric_inv _ Hnp) as (_ & _ & _ & Hpn & _).
  assert (expected_for "C" callback = "") as HC by (by destruct callback).
  erewrite bind_Ok by (apply assert_args_ok; solve_args).
  erewrite bind_Ok by (by apply update_obj_ok).
  pose proof (lookup_lt_Some _ _ _ Hr) as Hlt.
  erewrite bind_Ok.
  2:{ apply update_obj_ok. norm_state. by apply list_lookup_insert_eq. }
  norm_state. rewrite list_insert_insert_eq.
  set (r2 := mkObj _ _ _ _ _ _ _ _ _ _).
  assert (Hr2 : <[o := r2]> (objs st) !! o = Some r2)
    by (by apply list_lookup_insert_eq).
  erewrite bind_Ok by (by eapply (getattr_ok _ _ _ r2 cur)).
  erewrite bind_Ok by (by apply get_obj_ok).
  destruct (ramp_origin_ok st o r r2 attr cur cur (streams st) Hr eq_refl
              eq_refl (ramp_fresh st r attr cur Hnc Hsig))
    as (Hro & Hni & Hl1).
  erewrite bind_Ok by exact Hro.
  erewrite bind_Ok by (by apply VarPort__init___ok).
  norm_state. rewrite length_insert.
  fold (ramp_len value port cur).
  erewrite bind_Ok.
  2:{ apply update_obj_ok. norm_state.
      rewrite lookup_app_l by (by rewrite length_insert). exact Hr2. }
  norm_state.
  rewrite insert_app_l by (by rewrite length_insert).
  rewrite list_insert_insert_eq.
  erewrite bind_Ok.
  2:{ apply get_obj_ok. norm_state.
      rewrite lookup_app_l by (by rewrite length_insert).
      by apply list_lookup_insert_eq. }
  norm_state. rewrite lookup_insert_eq.
  reflexivity.
Qed.

(** X23: [set] cannot ramp the [value] or the [time] of a [VarPort].
    The setters behind these properties take numbers only and refuse
    the ramp, so [set] raises their [PyoArgumentTypeError] at its last
    line.  By then the target and the callback are registered and the
    new ramp is built, running and recorded as the signal of the
    attribute, while the attribute itself keeps its value. *)
Theorem set_refused_by_setter o attr value port callback st r cur :
  host_running st →
  objs st !! o = Some r →
  attr ∈ ["value"; "time"] →
  attr_value r attr = Some cur →
  numeric cur = true →
  _signal_dict r !! attr = None →
  numeric value = true →
  numeric port = true →
  is_callback callback = true →
  let st' := after_refused_ramp st o attr value port callback cur r in
  PyoObject_set CVarPort o attr value port callback st
  = Raise (PyoArgumentTypeError 0 CVarPort "any number"
                                (TInstance CVarPort)) st'
  ∧ attribute_of st' o attr = Some cur
  ∧ signal_of st' o attr = Some (PObj CVarPort (length (objs st)))
  ∧ target_of st' o attr = Some value
  ∧ callback_of st' o attr = Some callback
  ∧ base_of st' (length (objs st))
    = PStream <$> seq (length (streams st)) (ramp_len value port cur)
  ∧ (∀ s, length (streams st) ≤ s
          < length (streams st) + ramp_len value port cur →
          playing_of st' s = Some true)
  ∧ log st' = log st.
Proof.
  intros Hh Hr Hattr Hcur Hnc Hsig Hnv Hnp Hcb st'.
  pose proof (lookup_lt_Some _ _ _ Hr) as Hlt.
  assert (Hself : objs st' !! o
                  = Some (set_signal_dict
                            (<[attr := PObj CVarPort (length (objs st))]>
                               (_signal_dict r))
                            (registered attr value callback r))).
  { unfold st', after_refused_ramp. norm_state.
    rewrite lookup_app_l by (by rewrite length_insert).
    by apply list_lookup_insert_eq. }
  split.
  { rewrite (set_until_setattr CVarPort o attr value port callback st r cur)
      by done.
    fold st'.
    apply elem_of_cons in Hattr as [->|Hattr];
      [|apply list_elem_of_singleton in Hattr as ->]; reflexivity. }
  unfold attribute_of, signal_of, target_of, callback_of, base_of.
  rewrite Hself. cbn [mbind option_bind].
  split; [exact Hcur|].
  split; [norm_state; apply lookup_insert_eq|].
  split; [norm_state; apply lookup_insert_eq|].
  split; [norm_state; apply lookup_insert_eq|].
  split.
  { unfold st', after_refused_ramp. norm_state.
    rewrite lookup_app_r by (by rewrite length_insert).
    by rewrite length_insert, Nat.sub_diag. }
  split; [|done].
  intros s Hs. unfold playing_of, st', after_refused_ramp. norm_state.
  rewrite lookup_app_r by lia.
  rewrite list_lookup_fmap, lookup_seq_lt by lia. reflexivity.
Qed.

Lemma set_refused_by_setter_witness :
  PyoObject_set CVarPort 0 "value" (PFloat 3) (PFloat 1) PNone port_state
  = Raise (PyoArgumentTypeError 0 CVarPort "any number"
                                (TInstance CVarPort))
          (after_refused_ramp port_state 0 "value" (PFloat 3) (PFloat 1)
                              PNone (PFloat 10) port_obj).
Proof.
  refine (proj1 (set_refused_by_setter 0 "value" (PFloat 3) (PFloat 1)
                   PNone port_state port_obj (PFloat 10) _ eq_refl _
                   eq_refl eq_refl eq_refl eq_refl eq_refl eq_refl)).
  - solve_host.
  - by left.
Defined.
